(** * Prestige AI icon pipeline: a shallow embedding of [generate-app-icons.py]

    The script is orchestration code: it probes for external tools, creates
    directories, shells out to a rasterizer once per icon size, assembles
    platform bundles and favicons, and writes a configuration snippet.

    The embedding keeps the script's structure.  Every Python function is a
    computation in a small monad that threads the file system, may raise a
    Python exception, and emits the observable events of the run (printed
    lines, spawned processes with their exit status, directory creations and
    file writes) in order.  The external executables are not part of the
    repository; their behaviour is collected in the module-level section
    "External tools" and is parametrised by the oracles of an [Env].

    The second script, [convert-logo.py], writes the source image the
    pipeline starts from; it is embedded in the same monad, after the
    pipeline. *)

From Stdlib Require Import ZArith Ascii.
From stdpp Require Import gmap strings list fin_maps pretty.

Local Open Scope string_scope.
Local Open Scope Z_scope.
Local Open Scope list_scope.

(** ** The file system and the observable events *)

Definition content := string.

Inductive node :=
| File (c : content)
| Dir.

#[global] Instance node_eq_dec : EqDecision node.
Proof. solve_decision. Defined.

Abbreviation FS := (gmap string node).

(** Python exceptions that the script can meet. *)
Inductive exn :=
| FileNotFoundError (what : string)
| FileExistsError (path : string)
| NotADirectoryError (path : string)
| IsADirectoryError (path : string)
| CalledProcessError (argv : list string).

#[global] Instance exn_eq_dec : EqDecision exn.
Proof. solve_decision. Defined.

(** How a spawned process ended: the executable was not found on the search
    path, or it ran and exited with status zero or non-zero. *)
Inductive status := NotFound | Succeeded | Failed.

#[global] Instance status_eq_dec : EqDecision status.
Proof. solve_decision. Defined.

(** The script prefixes its lines with an emoji; [mark] names them. *)
Inductive mark :=
| PLAIN      (* no prefix *)
| ROCKET     (* start banner *)
| OK         (* check mark: a step succeeded *)
| FAIL       (* cross mark: a failure is reported *)
| INFO       (* information *)
| WORK       (* a step starts *)
| PARTY | FOLDER | APPLE | WINDOW | GLOBE | GEAR | CLIPBOARD.

#[global] Instance mark_eq_dec : EqDecision mark.
Proof. solve_decision. Defined.

Inductive event :=
| Print (m : mark) (text : string)
| PrintExn (m : mark) (text : string) (e : exn)   (* f"... {e}" *)
| Spawn (argv : list string) (st : status)         (* subprocess.run *)
| Mkdir (path : string)                            (* Path.mkdir(exist_ok=True) *)
| OpenW (path : string).                           (* open(path, 'w') *)

#[global] Instance event_eq_dec : EqDecision event.
Proof. solve_decision. Defined.

(** ** Paths *)

(** [split_last_slash "a/b/c" = Some ("a/b", "c")]; [None] without a slash. *)
Fixpoint split_last_slash (s : string) : option (string * string) :=
  match s with
  | EmptyString => None
  | String c r =>
      match split_last_slash r with
      | Some (d, b) => Some (String c d, b)
      | None => if Ascii.eqb c "/"%char then Some (EmptyString, r) else None
      end
  end.

Definition basename (p : string) : string :=
  match split_last_slash p with
  | Some (_, b) => b
  | None => p
  end.

Definition exists_ (fs : FS) (p : string) : bool :=
  bool_decide (is_Some (fs !! p)).

Definition is_dir (fs : FS) (p : string) : bool :=
  bool_decide (fs !! p = Some Dir).

(** The directory that holds [p] is there: relative paths without a slash
    live in the working directory, which always exists. *)
Definition parent_is_dir (fs : FS) (p : string) : bool :=
  match split_last_slash p with
  | None => true
  | Some (d, _) => bool_decide (d = "") || is_dir fs d
  end.

(** A path lies strictly below directory [d]. *)
Definition under (d p : string) : bool := String.prefix (d +:+ "/") p.

(** A tool can write its output file at [p]. *)
Definition writable (fs : FS) (p : string) : bool :=
  parent_is_dir fs p && negb (is_dir fs p).

(** ** The monad of the script *)

Inductive res (A : Type) :=
| Ret (a : A)
| Raise (e : exn).
Arguments Ret {A} a.
Arguments Raise {A} e.

Record outcome (A : Type) := Outcome {
  result : res A;
  fs_after : FS;
  events : list event
}.
Arguments Outcome {A} _ _ _.
Arguments result {A} _.
Arguments fs_after {A} _.
Arguments events {A} _.

Definition M (A : Type) := FS → outcome A.

Definition ret {A} (a : A) : M A := λ fs, Outcome (Ret a) fs [].

Definition raise {A} (e : exn) : M A := λ fs, Outcome (Raise e) fs [].

Definition bind {A B} (m : M A) (k : A → M B) : M B := λ fs,
  match m fs with
  | Outcome (Ret a) fs1 ev1 =>
      match k a fs1 with
      | Outcome r fs2 ev2 => Outcome r fs2 (ev1 ++ ev2)
      end
  | Outcome (Raise e) fs1 ev1 => Outcome (Raise e) fs1 ev1
  end.

(** [try: m except h]: when [m] raises [e] and the handler takes [e], the
    handler runs in the file system left by [m]. *)
Definition try_except {A} (m : M A) (h : exn → option (M A)) : M A := λ fs,
  match m fs with
  | Outcome (Ret a) fs1 ev1 => Outcome (Ret a) fs1 ev1
  | Outcome (Raise e) fs1 ev1 =>
      match h e with
      | Some k =>
          match k fs1 with
          | Outcome r fs2 ev2 => Outcome r fs2 (ev1 ++ ev2)
          end
      | None => Outcome (Raise e) fs1 ev1
      end
  end.

(** The script's monad is registered with stdpp's classes, so that its
    sequencing reads [x ← m; k] and [m;; k]. *)
#[global] Instance M_ret : MRet M := @ret.
#[global] Instance M_bind : MBind M := λ A B k m, bind m k.

Definition emit (e : event) : M unit := λ fs, Outcome (Ret tt) fs [e].

Definition print (m : mark) (text : string) : M unit := emit (Print m text).

Definition print_exn (m : mark) (text : string) (e : exn) : M unit :=
  emit (PrintExn m text e).

(** [Path(p).exists()] *)
Definition path_exists (p : string) : M bool := λ fs,
  Outcome (Ret (exists_ fs p)) fs [].

(** [Path(p).mkdir(exist_ok=True)] *)
Definition mkdir_exist_ok (p : string) : M unit := λ fs,
  match fs !! p with
  | Some Dir => Outcome (Ret tt) fs [Mkdir p]
  | Some (File _) => Outcome (Raise (FileExistsError p)) fs [Mkdir p]
  | None =>
      match split_last_slash p with
      | None => Outcome (Ret tt) (<[p := Dir]> fs) [Mkdir p]
      | Some (d, _) =>
          if bool_decide (d = "") then Outcome (Ret tt) (<[p := Dir]> fs) [Mkdir p]
          else match fs !! d with
               | Some Dir => Outcome (Ret tt) (<[p := Dir]> fs) [Mkdir p]
               | Some (File _) => Outcome (Raise (NotADirectoryError p)) fs [Mkdir p]
               | None => Outcome (Raise (FileNotFoundError p)) fs [Mkdir p]
               end
      end
  end.

(** [with open(p, 'w') as f: f.write(text)] *)
Definition open_write (p : string) (text : content) : M unit := λ fs,
  if is_dir fs p then Outcome (Raise (IsADirectoryError p)) fs [OpenW p]
  else if parent_is_dir fs p then Outcome (Ret tt) (<[p := File text]> fs) [OpenW p]
  else Outcome (Raise (FileNotFoundError p)) fs [OpenW p].

(** ** External tools

    The executables the script shells out to are not part of the repository.
    Their behaviour is fixed here once: what each command line reads and
    writes is modelled concretely, what only the tool can decide (whether it
    is installed, whether it accepts its input, the bytes it produces) is an
    oracle of the environment.  The oracles are functions, so the tools are
    deterministic. *)

Record Env := {
  platform : string;                                   (* sys.platform *)
  on_path : string → bool;                             (* executable found *)
  version_ok : string → bool;                          (* [tool --version] exits 0 *)
  rasterize : content → string → option content;       (* SVG bytes, geometry *)
  pack_icons : list content → option content;          (* images to one .ico *)
  iconutil_icns : FS → option content                  (* an iconset's entries *)
}.

Definition read_file (fs : FS) (p : string) : option content :=
  match fs !! p with
  | Some (File c) => Some c
  | _ => None
  end.

Definition write_output (fs : FS) (out : string) (c : content) : status * FS :=
  if writable fs out then (Succeeded, <[out := File c]> fs) else (Failed, fs).

(** [strip_suffix suf s = Some r] when [s = r ++ suf]. *)
Fixpoint strip_suffix (suf s : string) : option string :=
  if bool_decide (s = suf) then Some EmptyString
  else match s with
       | EmptyString => None
       | String c r => String c <$> strip_suffix suf r
       end.

Fixpoint split_last {A} (l : list A) : option (list A * A) :=
  match l with
  | [] => None
  | x :: r =>
      match split_last r with
      | None => Some ([], x)
      | Some (i, o) => Some (x :: i, o)
      end
  end.

Section tools.
Context (env : Env).

(** [magick -background none -size GEOM SRC OUT] *)
Definition magick_convert (geom src out : string) (fs : FS) : status * FS :=
  match read_file fs src with
  | Some svg =>
      match rasterize env svg geom with
      | Some png => write_output fs out png
      | None => (Failed, fs)
      end
  | None => (Failed, fs)
  end.

(** [magick IN1 ... INn OUT] *)
Definition magick_pack (inputs : list string) (out : string) (fs : FS) : status * FS :=
  match mapM (read_file fs) inputs with
  | Some images =>
      match pack_icons env images with
      | Some ico => write_output fs out ico
      | None => (Failed, fs)
      end
  | None => (Failed, fs)
  end.

(** [cp SRC DST]: a regular file is copied onto [DST], or into it when
    [DST] is a directory. *)
Definition cp (src dst : string) (fs : FS) : status * FS :=
  match read_file fs src with
  | Some c =>
      let target := if is_dir fs dst then dst +:+ "/" +:+ basename src else dst in
      write_output fs target c
  | None => (Failed, fs)
  end.

(** [rm -rf P] removes [P] and everything below it, and succeeds also
    when there is nothing to remove. *)
Definition rm_rf (p : string) (fs : FS) : status * FS :=
  (Succeeded, filter (λ kv, kv.1 ≠ p ∧ ¬ under p kv.1) fs).

(** [iconutil -c icns DIR.iconset] writes [DIR.icns]. *)
Definition iconutil_c_icns (dir : string) (fs : FS) : status * FS :=
  match strip_suffix ".iconset" dir with
  | Some stem =>
      if is_dir fs dir then
        match iconutil_icns env (filter (λ kv, under dir kv.1) fs) with
        | Some icns => write_output fs (stem +:+ ".icns") icns
        | None => (Failed, fs)
        end
      else (Failed, fs)
  | None => (Failed, fs)
  end.

Definition run_tool (tool : string) (args : list string) (fs : FS) : status * FS :=
  if bool_decide (args = ["--version"]) then
    (if version_ok env tool then Succeeded else Failed, fs)
  else if bool_decide (tool = "magick") then
    match split_last args with
    | Some (inputs, out) =>
        match inputs with
        | [b; n; s; geom; src] =>
            if bool_decide (b = "-background" ∧ n = "none" ∧ s = "-size")
            then magick_convert geom src out fs
            else magick_pack inputs out fs
        | _ => magick_pack inputs out fs
        end
    | None => (Failed, fs)
    end
  else if bool_decide (tool = "cp") then
    match args with
    | [src; dst] => cp src dst fs
    | _ => (Failed, fs)
    end
  else if bool_decide (tool = "rm") then
    match args with
    | [flag; p] => if bool_decide (flag = "-rf") then rm_rf p fs else (Failed, fs)
    | _ => (Failed, fs)
    end
  else if bool_decide (tool = "iconutil") then
    match args with
    | [c; fmt; dir] =>
        if bool_decide (c = "-c" ∧ fmt = "icns") then iconutil_c_icns dir fs
        else (Failed, fs)
    | _ => (Failed, fs)
    end
  else (Failed, fs).

(** The operating system looks the executable up, then runs it. *)
Definition exec (argv : list string) (fs : FS) : status * FS :=
  match argv with
  | [] => (NotFound, fs)
  | tool :: args =>
      if on_path env tool then run_tool tool args fs else (NotFound, fs)
  end.

(** [subprocess.run(argv, check=True)]; [capture_output] only hides the
    tool's own output. *)
Definition subprocess_run (argv : list string) : M unit := λ fs,
  let '(st, fs') := exec argv fs in
  Outcome
    (match st with
     | Succeeded => Ret tt
     | Failed => Raise (CalledProcessError argv)
     | NotFound => Raise (FileNotFoundError (default "" (head argv)))
     end)
    fs' [Spawn argv st].

End tools.

(** ** Python idioms used by the script *)

(** A dict display [{k1: v1, k2: v2, ...}]: a key that is given again
    replaces the value and keeps the position of its first occurrence;
    [.items()] iterates in insertion order. *)
Fixpoint dict_set {K V} `{EqDecision K} (k : K) (v : V) (d : list (K * V)) : list (K * V) :=
  match d with
  | [] => [(k, v)]
  | (k', v') :: r =>
      if decide (k = k') then (k, v) :: r else (k', v') :: dict_set k v r
  end.

Definition dict_display {K V} `{EqDecision K} (items : list (K * V)) : list (K * V) :=
  foldl (λ d kv, dict_set kv.1 kv.2 d) [] items.

(** [for x in l: body] without [return] in the body. *)
Fixpoint for_ {A} (l : list A) (body : A → M unit) : M unit :=
  match l with
  | [] => mret tt
  | x :: r => body x;; for_ r body
  end.

(** [for x in l: body] where the body updates a local variable. *)
Fixpoint for_acc {A S} (l : list A) (s : S) (body : A → S → M S) : M S :=
  match l with
  | [] => mret s
  | x :: r => s' ← body x s; for_acc r s' body
  end.

(** [for x in l: body] where the body may [return v]: [Some v] leaves the
    loop, [None] goes on with the next element. *)
Fixpoint for_ret {A R} (l : list A) (body : A → M (option R)) : M (option R) :=
  match l with
  | [] => mret None
  | x :: r =>
      o ← body x;
      match o with
      | Some v => mret (Some v)
      | None => for_ret r body
      end
  end.

(** [[f for f in l if Path(f).exists()]] *)
Fixpoint existing (l : list string) : M (list string) :=
  match l with
  | [] => mret []
  | f :: r =>
      e ← path_exists f;
      rest ← existing r;
      mret (if e : bool then f :: rest else rest)
  end.

(** [except subprocess.CalledProcessError as e: h e] *)
Definition on_called_process_error {A} (h : exn → M A) (e : exn) : option (M A) :=
  match e with
  | CalledProcessError _ => Some (h e)
  | _ => None
  end.

(** [except (subprocess.CalledProcessError, FileNotFoundError): h] *)
Definition on_called_process_or_not_found {A} (h : M A) (e : exn) : option (M A) :=
  match e with
  | CalledProcessError _ | FileNotFoundError _ => Some h
  | _ => None
  end.

(** ** The script *)

Definition dq : string := String (ascii_of_nat 34) EmptyString.
Definition nl : string := String (ascii_of_nat 10) EmptyString.
Definition q (s : string) : string := dq +:+ s +:+ dq.

Definition svg_file : string := "prestige-ai-logo.svg".
Definition sizes : list Z := [16; 32; 48; 64; 128; 256; 512; 1024].
Definition ico_sizes : list Z := [16; 32; 48; 64; 128; 256].
Definition iconset_dir : string := "icons/prestige-ai.iconset".

(** [f"icons/png/icon-{size}x{size}.png"] *)
Definition png_path (size : Z) : string :=
  "icons/png/icon-" +:+ pretty size +:+ "x" +:+ pretty size +:+ ".png".

(** [f'{size}x{size}'] *)
Definition geometry (size : Z) : string := pretty size +:+ "x" +:+ pretty size.

Definition raster_cmd (size : Z) : list string :=
  ["magick"; "-background"; "none"; "-size"; geometry size; svg_file; png_path size].

Definition required_tools : list (string * string) :=
  dict_display
    [("magick", "ImageMagick (brew install imagemagick)");
     ("iconutil", "macOS iconutil (built-in on macOS)")].

Definition icon_mappings : list (Z * list string) :=
  dict_display
    [(16, ["icon_16x16.png"]);
     (32, ["icon_16x16@2x.png"; "icon_32x32.png"]);
     (64, ["icon_32x32@2x.png"]);
     (128, ["icon_128x128.png"]);
     (256, ["icon_128x128@2x.png"; "icon_256x256.png"]);
     (512, ["icon_256x256@2x.png"; "icon_512x512.png"]);
     (1024, ["icon_512x512@2x.png"])].

Definition favicon_mappings : list (string * string) :=
  dict_display
    [("icons/png/icon-32x32.png", "favicon-32x32.png");
     ("icons/png/icon-16x16.png", "favicon-16x16.png");
     ("icons/png/icon-32x32.png", "favicon.png")].

Definition package_json_updates : content :=
  String.concat nl
    [""; "# Add these to your package.json build configuration:"; "";
     q "build" +:+ ": {";
     "  " +:+ q "appId" +:+ ": " +:+ q "com.prestige-ai.app" +:+ ",";
     "  " +:+ q "productName" +:+ ": " +:+ q "Prestige AI" +:+ ",";
     "  " +:+ q "directories" +:+ ": {";
     "    " +:+ q "output" +:+ ": " +:+ q "dist";
     "  },";
     "  " +:+ q "files" +:+ ": [";
     "    " +:+ q "dist-electron/" +:+ ",";
     "    " +:+ q "dist/" +:+ ",";
     "    " +:+ q "package.json";
     "  ],";
     "  " +:+ q "mac" +:+ ": {";
     "    " +:+ q "icon" +:+ ": " +:+ q "icons/prestige-ai.icns" +:+ ",";
     "    " +:+ q "category" +:+ ": " +:+ q "public.app-category.developer-tools";
     "  },";
     "  " +:+ q "win" +:+ ": {";
     "    " +:+ q "icon" +:+ ": " +:+ q "icons/prestige-ai.ico" +:+ ",";
     "    " +:+ q "target" +:+ ": " +:+ q "nsis";
     "  },";
     "  " +:+ q "linux" +:+ ": {";
     "    " +:+ q "icon" +:+ ": " +:+ q "icons/png/icon-512x512.png" +:+ ",";
     "    " +:+ q "target" +:+ ": " +:+ q "AppImage";
     "  }";
     "}"; ""].

Section script.
Context (env : Env).

(** A leading newline of a printed text is a blank line before it. *)
Definition print_after_blank (m : mark) (text : string) : M unit :=
  print PLAIN "";; print m text.

Definition check_dependencies : M bool :=
  missing ← for_acc required_tools [] (λ '(tool, install_info) missing,
    try_except
      (subprocess_run env [tool; "--version"];;
       print OK (tool +:+ " is available");;
       mret missing)
      (on_called_process_or_not_found
         (if bool_decide (tool = "iconutil") && bool_decide (platform env ≠ "darwin")
          then print INFO (tool +:+ " not available (not on macOS)");; mret missing
          else mret (missing ++ [tool +:+ " - Install: " +:+ install_info]))));
  if bool_decide (missing ≠ []) then
    print_after_blank FAIL "Missing required tools:";;
    for_ missing (λ tool, print PLAIN ("   " +:+ tool));;
    mret false
  else mret true.

Definition create_directories : M unit :=
  let dirs := ["icons"; "icons/png"; "build"] in
  for_ dirs (λ dir_name, mkdir_exist_ok dir_name).

(** [generate_png_sizes], with the size list as a parameter. *)
Definition generate_png_sizes_for (sizes : list Z) : M bool :=
  found ← path_exists svg_file;
  if negb found then
    print FAIL ("SVG file not found: " +:+ svg_file);;
    mret false
  else
    print WORK "Generating PNG files...";;
    r ← for_ret sizes (λ size,
      let output_file := png_path size in
      let cmd := raster_cmd size in
      try_except
        (subprocess_run env cmd;;
         print OK ("Generated " +:+ output_file);;
         mret None)
        (on_called_process_error (λ e,
           print_exn FAIL ("Failed to generate " +:+ output_file) e;;
           mret (Some false))));
    match r with
    | Some b => mret b
    | None => mret true
    end.

Definition generate_png_sizes : M bool := generate_png_sizes_for sizes.

Definition create_icns_file : M bool :=
  if bool_decide (platform env ≠ "darwin") then
    print INFO "Skipping .icns creation (not on macOS)";;
    mret true
  else
    mkdir_exist_ok iconset_dir;;
    print WORK "Creating .icns file...";;
    for_ icon_mappings (λ '(size, filenames),
      let source := png_path size in
      found ← path_exists source;
      if found : bool then
        for_ filenames (λ filename,
          let dest := iconset_dir +:+ "/" +:+ filename in
          subprocess_run env ["cp"; source; dest])
      else mret tt);;
    try_except
      (subprocess_run env ["iconutil"; "-c"; "icns"; iconset_dir];;
       print OK "Generated icons/prestige-ai.icns";;
       subprocess_run env ["rm"; "-rf"; iconset_dir];;
       mret true)
      (on_called_process_error (λ e,
         print_exn FAIL "Failed to create .icns file" e;;
         mret false)).

Definition create_ico_file : M bool :=
  let png_files := png_path <$> ico_sizes in
  existing_files ← existing png_files;
  if bool_decide (existing_files = []) then
    print FAIL "No PNG files found for .ico creation";;
    mret false
  else
    print WORK "Creating .ico file...";;
    try_except
      (let cmd := ["magick"] ++ existing_files ++ ["icons/prestige-ai.ico"] in
       subprocess_run env cmd;;
       print OK "Generated icons/prestige-ai.ico";;
       mret true)
      (on_called_process_error (λ e,
         print_exn FAIL "Failed to create .ico file" e;;
         mret false)).

Definition create_favicon_files : M unit :=
  print WORK "Creating favicon files...";;
  for_ favicon_mappings (λ '(source, dest),
    found ← path_exists source;
    if found : bool then
      subprocess_run env ["cp"; source; dest];;
      print OK ("Generated " +:+ dest)
    else mret tt);;
  has16 ← path_exists "icons/png/icon-16x16.png";
  has32 ← (if has16 : bool then path_exists "icons/png/icon-32x32.png" else mret false);
  if has32 : bool then
    try_except
      (let cmd := ["magick"; "icons/png/icon-16x16.png"; "icons/png/icon-32x32.png";
                   "favicon.ico"] in
       subprocess_run env cmd;;
       print OK "Generated favicon.ico")
      (on_called_process_error (λ e,
         print_exn FAIL "Failed to create favicon.ico" e))
  else mret tt.

Definition update_electron_config : M unit :=
  print WORK "Updating Electron configuration...";;
  open_write "electron-build-config.txt" package_json_updates;;
  print OK "Created electron-build-config.txt with build configuration".

Definition print_summary : M unit :=
  print_after_blank PARTY "App icon generation complete!";;
  print_after_blank PLAIN "Generated files:";;
  print FOLDER "icons/png/ - PNG files in all sizes";;
  print APPLE "icons/prestige-ai.icns - macOS app icon";;
  print WINDOW "icons/prestige-ai.ico - Windows app icon";;
  print GLOBE "favicon.ico, favicon-*.png - Web favicons";;
  print GEAR "electron-build-config.txt - Build configuration";;
  print_after_blank CLIPBOARD "Next steps:";;
  print PLAIN "1. Copy the build config from electron-build-config.txt to your package.json";;
  print PLAIN "2. Update your Electron main.ts to use the new icon";;
  print PLAIN "3. Test the build process".

Definition main : M unit :=
  print ROCKET "Prestige AI App Icon Generator";;
  print PLAIN "========================================";;
  deps ← check_dependencies;
  if negb deps then
    print_after_blank FAIL "Please install required dependencies and try again"
  else
    create_directories;;
    generated ← generate_png_sizes;
    if negb generated then
      print FAIL "Failed to generate PNG files"
    else
      create_icns_file;;
      create_ico_file;;
      create_favicon_files;;
      update_electron_config;;
      print_summary.

End script.

(** ** A sample host, for running the model *)

Definition linux_host : Env := {|
  platform := "linux";
  on_path := λ tool, bool_decide (tool ∈ ["magick"; "cp"; "rm"]);
  version_ok := λ _, true;
  rasterize := λ svg geom, Some ("PNG " +:+ geom +:+ " of " +:+ svg);
  pack_icons := λ images, Some (String.concat "+" images);
  iconutil_icns := λ _, None
|}.

Definition with_svg : FS := {[ svg_file := File "<svg/>" ]}.

(** A macOS host whose [iconutil] rejects the iconset. *)
Definition mac_host_bad_iconutil : Env := {|
  platform := "darwin";
  on_path := λ tool, bool_decide (tool ∈ ["magick"; "iconutil"; "cp"; "rm"]);
  version_ok := λ _, true;
  rasterize := λ svg geom, Some ("PNG " +:+ geom +:+ " of " +:+ svg);
  pack_icons := λ images, Some (String.concat "+" images);
  iconutil_icns := λ _, None
|}.

(** A macOS host where every tool works. *)
Definition mac_host : Env := {|
  platform := "darwin";
  on_path := λ tool, bool_decide (tool ∈ ["magick"; "iconutil"; "cp"; "rm"]);
  version_ok := λ _, true;
  rasterize := λ svg geom, Some ("PNG " +:+ geom +:+ " of " +:+ svg);
  pack_icons := λ images, Some (String.concat "+" images);
  iconutil_icns := λ entries, Some ("ICNS of " +:+ pretty (size entries))
|}.

(** * Vocabulary of the specification

    Predicates on runs, names for the pieces of the script that the proofs
    treat one at a time, and sample hosts and directory trees. *)

Definition prepend {A} (ev : list event) (o : outcome A) : outcome A :=
  Outcome (result o) (fs_after o) (ev ++ events o).

Definition keeps {A} (p : string) (m : M A) : Prop :=
  ∀ fs, fs_after (m fs) !! p = fs !! p.

Definition emits {A} (P : event → Prop) (m : M A) : Prop :=
  ∀ fs, Forall P (events (m fs)).

(** Frame: which paths a command leaves alone. *)
Definition exec_keeps (env : Env) (argv : list string) (p : string) : Prop :=
  ∀ fs, (exec env argv fs).2 !! p = fs !! p.

Definition available (env : Env) (tool : string) : bool :=
  on_path env tool && version_ok env tool.

Definition probe_status (env : Env) (tool : string) : status :=
  if on_path env tool then if version_ok env tool then Succeeded else Failed
  else NotFound.

Definition is_print (e : event) : Prop :=
  match e with Print _ _ | PrintExn _ _ _ => True | _ => False end.

Definition only_new_dirs (D : list string) (fs fs' : FS) : Prop :=
  ∀ p, fs' !! p = fs !! p ∨ (p ∈ D ∧ fs !! p = None ∧ fs' !! p = Some Dir).

Definition is_probe (e : event) : Prop :=
  match e with Spawn [_; "--version"] _ => True | _ => False end.

(** An event that changes nothing on disk: a printed line or a version
    probe. *)
Definition mutation_free (e : event) : Prop := is_print e ∨ is_probe e.

Definition mandatory (env : Env) (tool : string) : bool :=
  negb (bool_decide (tool = "iconutil") && bool_decide (platform env ≠ "darwin")).

Definition banner : list event :=
  [Print ROCKET "Prestige AI App Icon Generator";
   Print PLAIN "========================================"].

Definition output_dirs : list string := ["icons"; "icons/png"; "build"].

(** A failure is reported before the first directory is made. *)
Fixpoint fails_before_mkdir (ev : list event) : bool :=
  match ev with
  | [] => false
  | Print FAIL _ :: _ | PrintExn FAIL _ _ :: _ => true
  | Mkdir _ :: _ => false
  | _ :: r => fails_before_mkdir r
  end.

(** A host with no tool installed. *)
Definition bare_host : Env := {|
  platform := "linux";
  on_path := λ _, false;
  version_ok := λ _, false;
  rasterize := λ _ _, None;
  pack_icons := λ _, None;
  iconutil_icns := λ _, None
|}.

(** C1, as the specification states it: whenever the source image is
    absent, a failure is reported before any directory is made. *)
Definition svg_absent_fails_before_mkdir : Prop :=
  ∀ env fs, fs !! svg_file = None →
    fails_before_mkdir (events (main env fs)) = true.

Fixpoint no_x (s : string) : Prop :=
  match s with
  | EmptyString => True
  | String c r => c ≠ "x"%char ∧ no_x r
  end.

(** The body of the loop over the sizes. *)
Definition raster_step (env : Env) (size : Z) : M (option bool) :=
  try_except
    (subprocess_run env (raster_cmd size);;
     print OK ("Generated " +:+ png_path size);;
     mret None)
    (on_called_process_error (λ e,
       print_exn FAIL ("Failed to generate " +:+ png_path size) e;;
       mret (Some false))).

Definition raster_ok_events (size : Z) : list event :=
  [Spawn (raster_cmd size) Succeeded; Print OK ("Generated " +:+ png_path size)].

Definition raster_failed_events (size : Z) : list event :=
  [Spawn (raster_cmd size) Failed;
   PrintExn FAIL ("Failed to generate " +:+ png_path size)
     (CalledProcessError (raster_cmd size))].

(** The source image is a regular file that the rasterizer accepts at this
    size, and [png] is what it draws. *)
Definition rasterized (env : Env) (fs : FS) (size : Z) (png : content) : Prop :=
  ∃ svg, fs !! svg_file = Some (File svg) ∧
         rasterize env svg (geometry size) = Some png.

(** [fs'] is [fs] with the rasters of the sizes in [l] written. *)
Definition rasters_written (env : Env) (fs : FS) (l : list Z) (fs' : FS) : Prop :=
  (∀ p, p ∉ png_path <$> l → fs' !! p = fs !! p) ∧
  (∀ size, size ∈ l →
     ∃ png, rasterized env fs size png ∧ fs' !! png_path size = Some (File png)).

Definition ico_file : string := "icons/prestige-ai.ico".

Definition ico_cmd (inputs : list string) : list string :=
  "magick" :: inputs ++ [ico_file].

(** The rasters of the assembler's sizes that are there. *)
Definition ico_inputs (fs : FS) : list string :=
  List.filter (exists_ fs) (png_path <$> ico_sizes).

Definition icon16 : string := "icons/png/icon-16x16.png".
Definition icon32 : string := "icons/png/icon-32x32.png".

Definition favicon_ico_cmd : list string := ["magick"; icon16; icon32; "favicon.ico"].

(** The body of the copy loop. *)
Definition favicon_copy (env : Env) (source dest : string) : M unit :=
  found ← path_exists source;
  if found : bool then
    subprocess_run env ["cp"; source; dest];;
    print OK ("Generated " +:+ dest)
  else mret tt.

(** The part after the copy loop. *)
Definition favicon_pack (env : Env) : M unit :=
  has16 ← path_exists icon16;
  has32 ← (if has16 : bool then path_exists icon32 else mret false);
  if has32 : bool then
    try_except
      (subprocess_run env favicon_ico_cmd;;
       print OK "Generated favicon.ico")
      (on_called_process_error (λ e,
         print_exn FAIL "Failed to create favicon.ico" e))
  else mret tt.

Definition cp_events (source dest : string) (st : status) : list event :=
  Spawn ["cp"; source; dest] st ::
  match st with Succeeded => [Print OK ("Generated " +:+ dest)] | _ => [] end.

Definition run_result (tool : string) (argv : list string) (st : status) : res unit :=
  match st with
  | Succeeded => Ret tt
  | Failed => Raise (CalledProcessError argv)
  | NotFound => Raise (FileNotFoundError tool)
  end.

(** The paths the copy loop may write. *)
Definition favicon_copy_targets : list string :=
  ["favicon.png"; "favicon.png/icon-32x32.png";
   "favicon-16x16.png"; "favicon-16x16.png/icon-16x16.png"].

Definition cp32 : list string := ["cp"; icon32; "favicon.png"].
Definition cp16 : list string := ["cp"; icon16; "favicon-16x16.png"].

Definition completion : event := Print PARTY "App icon generation complete!".

(** Where [cp src dst] writes, and the file system after a successful copy
    of a source that is there. *)
Definition copy_target (fs : FS) (src dst : string) : string :=
  if is_dir fs dst then dst +:+ "/" +:+ basename src else dst.

Definition copied (fs : FS) (src dst : string) : FS :=
  match fs !! src with
  | Some (File c) => <[copy_target fs src dst := File c]> fs
  | _ => fs
  end.

Definition copy_ok_events (fs : FS) (src dst : string) : list event :=
  if exists_ fs src
  then [Spawn ["cp"; src; dst] Succeeded; Print OK ("Generated " +:+ dst)]
  else [].

Definition cp_spawn (e : event) : Prop :=
  ∃ st, e = Spawn cp32 st ∨ e = Spawn cp16 st.

Definition iconutil_cmd : list string := ["iconutil"; "-c"; "icns"; iconset_dir].
Definition rm_cmd : list string := ["rm"; "-rf"; iconset_dir].

(** The copy loop into the staging directory. *)
Definition icns_copies (env : Env) : M unit :=
  for_ icon_mappings (λ '(size, filenames),
    let source := png_path size in
    found ← path_exists source;
    if found : bool then
      for_ filenames (λ filename,
        let dest := iconset_dir +:+ "/" +:+ filename in
        subprocess_run env ["cp"; source; dest])
    else mret tt).

(** The bundler invocation with its cleanup and its handler. *)
Definition icns_bundle (env : Env) : M bool :=
  try_except
    (subprocess_run env iconutil_cmd;;
     print OK "Generated icons/prestige-ai.icns";;
     subprocess_run env rm_cmd;;
     mret true)
    (on_called_process_error (λ e,
       print_exn FAIL "Failed to create .icns file" e;;
       mret false)).

Definition is_cp_spawn (e : event) : Prop :=
  match e with Spawn ("cp" :: _) _ => True | _ => False end.

(** The stages after the raster generator, as [main] sequences them. *)
Definition main_tail (env : Env) : M unit :=
  create_icns_file env;;
  create_ico_file env;;
  create_favicon_files env;;
  update_electron_config;;
  print_summary.

(** An event that is neither a rasterizer invocation nor the completion
    line. *)
Definition aside (e : event) : Prop :=
  match e with
  | Spawn argv _ => ∀ size, argv ≠ raster_cmd size
  | _ => e ≠ completion
  end.

(** A path that none of the stages after the raster generator writes. *)
Definition tail_untouched (p : string) : Prop :=
  p ≠ iconset_dir ∧ under iconset_dir p = false ∧
  p ≠ "icons/prestige-ai.icns" ∧ p ≠ ico_file ∧
  (p ∉ "favicon.ico" :: favicon_copy_targets) ∧
  p ≠ "electron-build-config.txt".

(** A run generated the raster of [size]: it spawned the rasterizer for it
    and the rasterizer exited with status zero. *)
Definition generated {A} (o : outcome A) (size : Z) : Prop :=
  Spawn (raster_cmd size) Succeeded ∈ events o.

(** A run went through to the completion line. *)
Definition completes {A} (o : outcome A) : Prop := completion ∈ events o.


(** A Linux host whose packer always fails. *)
Definition linux_host_bad_packer : Env := {|
  platform := "linux";
  on_path := λ tool, bool_decide (tool ∈ ["magick"; "cp"; "rm"]);
  version_ok := λ _, true;
  rasterize := λ svg geom, Some ("PNG " +:+ geom +:+ " of " +:+ svg);
  pack_icons := λ _, None;
  iconutil_icns := λ _, None
|}.

(** A directory with the two small rasters in place. *)
Definition small_tree : FS :=
  {[ "icons" := Dir; "icons/png" := Dir;
     "icons/png/icon-16x16.png" := File "png16";
     "icons/png/icon-32x32.png" := File "png32" ]}.


(** The directory a first run on [linux_host] leaves behind. *)
Definition rerun_tree : FS := fs_after (main linux_host with_svg).

(** * The logo writer: a shallow embedding of [convert-logo.py]

    The second script of the repository writes the source image that the
    icon pipeline reads, and a file of conversion notes beside it. *)

(** [create_svg_logo()]: the text of the logo, line by line. *)
Definition create_svg_logo : content :=
  String.concat nl
    ["<svg width=" +:+ q "256" +:+ " height=" +:+ q "256" +:+ " viewBox=" +:+
       q "0 0 256 256" +:+ " xmlns=" +:+ q "http://www.w3.org/2000/svg" +:+ ">";
     "  <defs>";
     "    <!-- Gold gradient for crown -->";
     "    <linearGradient id=" +:+ q "goldGradient" +:+ " x1=" +:+ q "0%" +:+ " y1=" +:+
       q "0%" +:+ " x2=" +:+ q "100%" +:+ " y2=" +:+ q "100%" +:+ ">";
     "      <stop offset=" +:+ q "0%" +:+ " style=" +:+
       q "stop-color:#FFD700;stop-opacity:1" +:+ " />";
     "      <stop offset=" +:+ q "50%" +:+ " style=" +:+
       q "stop-color:#FFA500;stop-opacity:1" +:+ " />";
     "      <stop offset=" +:+ q "100%" +:+ " style=" +:+
       q "stop-color:#DAA520;stop-opacity:1" +:+ " />";
     "    </linearGradient>";
     "    ";
     "    <!-- Background gradient -->";
     "    <linearGradient id=" +:+ q "bgGradient" +:+ " x1=" +:+ q "0%" +:+ " y1=" +:+
       q "0%" +:+ " x2=" +:+ q "100%" +:+ " y2=" +:+ q "100%" +:+ ">";
     "      <stop offset=" +:+ q "0%" +:+ " style=" +:+
       q "stop-color:#581c87;stop-opacity:1" +:+ " />";
     "      <stop offset=" +:+ q "100%" +:+ " style=" +:+
       q "stop-color:#000000;stop-opacity:1" +:+ " />";
     "    </linearGradient>";
     "    ";
     "    <!-- Noise filter -->";
     "    <filter id=" +:+ q "noiseFilter" +:+ ">";
     "      <feTurbulence type=" +:+ q "fractalNoise" +:+ " baseFrequency=" +:+ q "0.9" +:+
       " numOctaves=" +:+ q "1" +:+ " stitchTiles=" +:+ q "stitch" +:+ "/>";
     "      <feColorMatrix values=" +:+ q "0 0 0 0 0 0 0 0 0 0 0 0 0 0 0 0 0 0 0.08 0" +:+
       "/>";
     "    </filter>";
     "  </defs>";
     "  ";
     "  <!-- Main container background -->";
     "  <rect x=" +:+ q "64" +:+ " y=" +:+ q "64" +:+ " width=" +:+ q "128" +:+
       " height=" +:+ q "128" +:+ " rx=" +:+ q "24" +:+ " ry=" +:+ q "24" +:+ " ";
     "        fill=" +:+ q "url(#bgGradient)" +:+ " ";
     "        stroke=" +:+ q "#7c3aed" +:+ " stroke-width=" +:+ q "1" +:+
       " stroke-opacity=" +:+ q "0.3" +:+ "/>";
     "  ";
     "  <!-- Noise overlay -->";
     "  <rect x=" +:+ q "64" +:+ " y=" +:+ q "64" +:+ " width=" +:+ q "128" +:+
       " height=" +:+ q "128" +:+ " rx=" +:+ q "24" +:+ " ry=" +:+ q "24" +:+ " ";
     "        fill=" +:+ q "white" +:+ " opacity=" +:+ q "0.2" +:+ " filter=" +:+
       q "url(#noiseFilter)" +:+ "/>";
     "  ";
     "  <!-- Crown -->";
     "  <g transform=" +:+ q "translate(128, 84)" +:+ ">";
     "    <!-- Crown base shape -->";
     "    <path d=" +:+
       q "M-16,-8 L-12,-16 L-8,-12 L-4,-16 L0,-12 L4,-16 L8,-12 L12,-16 L16,-8 L12,-4 L-12,-4 Z" +:+
       " ";
     "          fill=" +:+ q "url(#goldGradient)" +:+ " ";
     "          stroke=" +:+ q "#b45309" +:+ " stroke-width=" +:+ q "1" +:+ "/>";
     "    <!-- Crown gems -->";
     "    <circle cx=" +:+ q "-8" +:+ " cy=" +:+ q "-10" +:+ " r=" +:+ q "2" +:+
       " fill=" +:+ q "#fbbf24" +:+ "/>";
     "    <circle cx=" +:+ q "0" +:+ " cy=" +:+ q "-12" +:+ " r=" +:+ q "2" +:+ " fill=" +:+
       q "#fbbf24" +:+ "/>";
     "    <circle cx=" +:+ q "8" +:+ " cy=" +:+ q "-10" +:+ " r=" +:+ q "2" +:+ " fill=" +:+
       q "#fbbf24" +:+ "/>";
     "  </g>";
     "  ";
     "  <!-- Main P letter -->";
     "  <text x=" +:+ q "128" +:+ " y=" +:+ q "148" +:+ " ";
     "        font-family=" +:+ q "system-ui, -apple-system, sans-serif" +:+ " ";
     "        font-size=" +:+ q "56" +:+ " ";
     "        font-weight=" +:+ q "900" +:+ " ";
     "        text-anchor=" +:+ q "middle" +:+ " ";
     "        fill=" +:+ q "white" +:+ ">P</text>";
     "  ";
     "  <!-- XML tag -->";
     "  <text x=" +:+ q "72" +:+ " y=" +:+ q "80" +:+ " ";
     "        font-family=" +:+ q "monospace" +:+ " ";
     "        font-size=" +:+ q "12" +:+ " ";
     "        font-weight=" +:+ q "bold" +:+ " ";
     "        fill=" +:+ q "#4ade80" +:+ ">&lt;/&gt;</text>";
     "  ";
     "  <!-- Animated dots -->";
     "  <g transform=" +:+ q "translate(172, 176)" +:+ ">";
     "    <circle cx=" +:+ q "0" +:+ " cy=" +:+ q "0" +:+ " r=" +:+ q "3" +:+ " fill=" +:+
       q "#4ade80" +:+ ">";
     "      <animate attributeName=" +:+ q "opacity" +:+ " values=" +:+ q "1;0.5;1" +:+
       " dur=" +:+ q "2s" +:+ " repeatCount=" +:+ q "indefinite" +:+ "/>";
     "    </circle>";
     "    <circle cx=" +:+ q "8" +:+ " cy=" +:+ q "0" +:+ " r=" +:+ q "3" +:+ " fill=" +:+
       q "#22d3ee" +:+ ">";
     "      <animate attributeName=" +:+ q "opacity" +:+ " values=" +:+ q "1;0.5;1" +:+
       " dur=" +:+ q "2s" +:+ " begin=" +:+ q "0.2s" +:+ " repeatCount=" +:+
       q "indefinite" +:+ "/>";
     "    </circle>";
     "    <circle cx=" +:+ q "16" +:+ " cy=" +:+ q "0" +:+ " r=" +:+ q "3" +:+ " fill=" +:+
       q "#a855f7" +:+ ">";
     "      <animate attributeName=" +:+ q "opacity" +:+ " values=" +:+ q "1;0.5;1" +:+
       " dur=" +:+ q "2s" +:+ " begin=" +:+ q "0.4s" +:+ " repeatCount=" +:+
       q "indefinite" +:+ "/>";
     "    </circle>";
     "  </g>";
     "</svg>"].

(** The conversion notes that [save_logo_files] writes beside the logo. *)
Definition instructions : content :=
  String.concat nl
    ["";
     "# Prestige AI Logo Conversion Instructions";
     "";
     "## SVG to PNG Conversion Options:";
     "";
     "### Option 1: Online Converter (Easiest)";
     "1. Go to https://convertio.co/svg-png/ or https://cloudconvert.com/svg-to-png";
     "2. Upload the `prestige-ai-logo.svg` file";
     "3. Convert and download the PNG";
     "";
     "### Option 2: Using Inkscape (Best Quality)";
     "1. Install Inkscape: https://inkscape.org/";
     "2. Run: `inkscape prestige-ai-logo.svg --export-png=prestige-ai-logo.png --export-dpi=300`";
     "";
     "### Option 3: Using ImageMagick";
     "1. Install ImageMagick: `brew install imagemagick` (macOS) or `sudo apt-get install imagemagick` (Linux)";
     "2. Run: `convert prestige-ai-logo.svg -density 300 prestige-ai-logo.png`";
     "";
     "### Option 4: Using Browser";
     "1. Open `prestige-ai-logo.svg` in a web browser";
     "2. Right-click and " +:+ q "Save image as..." +:+ " to save as PNG";
     "";
     "## File Information:";
     "- SVG Size: 256x256 pixels";
     "- Recommended PNG DPI: 300 for high quality";
     "- Colors: Purple gradient background, gold crown, green accents";
     "- Features: Animated dots, noise texture, XML tag, crown with gems";
     ""].

(** [Path(p).absolute()] for a relative [p]: the working directory is put in
    front, and nothing is normalised. *)
Definition absolute (cwd p : string) : string :=
  if bool_decide (cwd = "/") then cwd +:+ p else cwd +:+ "/" +:+ p.

(** [save_logo_files()], run in working directory [cwd]. *)
Definition save_logo_files (cwd : string) : M string :=
  let svg_content := create_svg_logo in
  let svg_path := "prestige-ai-logo.svg" in
  open_write svg_path svg_content;;
  print OK "SVG logo created successfully!";;
  print FOLDER ("Saved as: " +:+ absolute cwd svg_path);;
  open_write "logo-conversion-instructions.md" instructions;;
  print CLIPBOARD "Conversion instructions saved as: logo-conversion-instructions.md";;
  mret svg_path.

(** * Vocabulary of the further properties

    Predicates on exceptions, events and paths, and the sample hosts and
    directories used to run the two scripts. *)

(** The command lines a run spawned, in order. *)
Definition spawned (ev : list event) : list (list string) :=
  omap (λ e, match e with Spawn argv _ => Some argv | _ => None end) ev.

(** A directory where a regular file is in the place of [build]. *)
Definition build_is_a_file : FS := {[ "build" := File "notes" ]}.

(** Every exception that [m] can raise satisfies [P]. *)
Definition throws {A} (P : exn → Prop) (m : M A) : Prop :=
  ∀ fs e, result (m fs) = Raise e → P e.

(** The exceptions that can leave [main]. *)
Definition escaping (e : exn) : Prop :=
  (∃ d, d ∈ iconset_dir :: output_dirs ∧ e = FileExistsError d) ∨
  (∃ src dst, e = CalledProcessError ["cp"; src; dst]) ∨
  e = FileNotFoundError "cp" ∨ e = FileNotFoundError "rm" ∨
  e = IsADirectoryError "electron-build-config.txt".

(** What a failing [cp] raises. *)
Definition cp_failure (e : exn) : Prop :=
  (∃ src dst, e = CalledProcessError ["cp"; src; dst]) ∨ e = FileNotFoundError "cp".

(** A macOS host without [cp]. *)
Definition mac_host_without_cp : Env := {|
  platform := "darwin";
  on_path := λ tool, bool_decide (tool ∈ ["magick"; "iconutil"; "rm"]);
  version_ok := λ _, true;
  rasterize := λ svg geom, Some ("PNG " +:+ geom +:+ " of " +:+ svg);
  pack_icons := λ images, Some (String.concat "+" images);
  iconutil_icns := λ entries, Some ("ICNS of " +:+ pretty (size entries))
|}.

(** The paths the pipeline may write: its directories, the rasters, the
    staging directory and what is below it, the two bundles, the favicons
    and the configuration file. *)
Definition output_path (p : string) : Prop :=
  p ∈ output_dirs ∨ p ∈ png_path <$> sizes ∨
  p = iconset_dir ∨ under iconset_dir p = true ∨
  p = "icons/prestige-ai.icns" ∨ p = ico_file ∨
  p ∈ "favicon.ico" :: favicon_copy_targets ∨
  p = "electron-build-config.txt".

(** The command lines of the pipeline: the two version probes, one
    rasterization per configured size, the copies into the staging
    directory that the table of aliases names, the bundler and the removal
    of the staging directory, the packer on rasters of the [.ico] sizes, and
    the two favicon copies with their packer. *)
Definition pipeline_command (argv : list string) : Prop :=
  (∃ tool, tool ∈ required_tools.*1 ∧ argv = [tool; "--version"]) ∨
  (∃ size, size ∈ sizes ∧ argv = raster_cmd size) ∨
  (∃ size filenames filename,
     (size, filenames) ∈ icon_mappings ∧ filename ∈ filenames ∧
     argv = ["cp"; png_path size; iconset_dir +:+ "/" +:+ filename]) ∨
  argv = iconutil_cmd ∨ argv = rm_cmd ∨
  (∃ inputs, inputs ≠ [] ∧ inputs ⊆ png_path <$> ico_sizes ∧ argv = ico_cmd inputs) ∨
  argv = cp32 ∨ argv = cp16 ∨ argv = favicon_ico_cmd.

(** What a run may do besides printing. *)
Definition pipeline_event (e : event) : Prop :=
  match e with
  | Print _ _ | PrintExn _ _ _ => True
  | Spawn argv _ => pipeline_command argv
  | Mkdir d => d ∈ iconset_dir :: output_dirs
  | OpenW p => p = "electron-build-config.txt"
  end.

(** An effect of the stages that come after the raster generator: a command
    that is neither a version probe nor a rasterization, a directory other
    than the three output directories, or a file opened for writing. *)
Definition assembler_effect (e : event) : Prop :=
  match e with
  | Spawn argv _ => (∀ tool, argv ≠ [tool; "--version"]) ∧ ∀ size, argv ≠ raster_cmd size
  | Mkdir d => d ∉ output_dirs
  | OpenW _ => True
  | Print _ _ | PrintExn _ _ _ => False
  end.

(** The lines of the summary, which does not look at the file system. *)
Definition summary_lines : list event := events (print_summary ∅).

(** A failed [cp] ends the computation: its exception escapes, and the
    failed command is the last event. *)
Definition stops_at_failed_copy {A} (m : M A) : Prop :=
  ∀ fs args st,
    Spawn ("cp" :: args) st ∈ events (m fs) → st ≠ Succeeded →
    (∃ e, result (m fs) = Raise e ∧ cp_failure e) ∧
    last (events (m fs)) = Some (Spawn ("cp" :: args) st).

(** A directory where a directory has the name of the notes file. *)
Definition notes_is_a_directory : FS := {[ "logo-conversion-instructions.md" := Dir ]}.

(** The line that reports a missing source image. *)
Definition missing_source_line : event :=
  Print FAIL ("SVG file not found: " +:+ svg_file).

(** One entry of the table of aliases: the copies of one raster. *)
Definition icns_entry (env : Env) (entry : Z * list string) : M unit :=
  let '(size, filenames) := entry in
  let source := png_path size in
  found ← path_exists source;
  if found : bool then
    for_ filenames (λ filename,
      let dest := iconset_dir +:+ "/" +:+ filename in
      subprocess_run env ["cp"; source; dest])
  else mret tt.

(** A copy of [source] to the alias [filename] may write [p]. *)
Definition alias_writes (p source filename : string) : Prop :=
  p = iconset_dir +:+ "/" +:+ filename ∨
  p = (iconset_dir +:+ "/" +:+ filename) +:+ "/" +:+ basename source.

(** ** Runs in which a command fails

    A directory in which a copy cannot be made, the readings of the
    specification that such runs contradict, the lines that show how far a
    run got, and the commands that end a run. *)

(** The two small rasters beside a directory [favicon.png] that already
    holds a directory with the name of the 32px raster: [cp] has nowhere to
    write its copy. *)
Definition blocked_favicon_tree : FS :=
  <["favicon.png" := Dir]> (<["favicon.png/icon-32x32.png" := Dir]> small_tree).

(** The source image beside the same obstacle. *)
Definition blocked_favicon_source : FS :=
  <["favicon.png" := Dir]> (<["favicon.png/icon-32x32.png" := Dir]> with_svg).

(** The Windows bundle assembler reports success and its output file is
    there. *)
Definition ico_produced (env : Env) (fs : FS) : Prop :=
  result (create_ico_file env fs) = Ret true ∧
  ∃ ico, fs_after (create_ico_file env fs) !! ico_file = Some (File ico).

(** C4, as the specification states it: the output file is produced
    exactly when a raster of one of the sizes exists. *)
Definition ico_produced_iff_raster : Prop :=
  ∀ env fs,
    ico_produced env fs ↔ ∃ size, size ∈ ico_sizes ∧ is_Some (fs !! png_path size).

(** C5, as the specification states it: the packer for [favicon.ico] is
    invoked exactly when both small rasters exist beforehand. *)
Definition favicon_packed_iff_both : Prop :=
  ∀ env fs,
    (∃ st, Spawn favicon_ico_cmd st ∈ events (create_favicon_files env fs)) ↔
    is_Some (fs !! icon16) ∧ is_Some (fs !! icon32).

(** C9, as the specification states it for the 16px raster: whenever it
    exists, the copy to [favicon-16x16.png] is made. *)
Definition small_raster_always_copied : Prop :=
  ∀ env fs,
    is_Some (fs !! icon16) →
    ∃ st, Spawn cp16 st ∈ events (create_favicon_files env fs).

(** The first line of the config emitter. *)
Definition config_line : event := Print WORK "Updating Electron configuration...".

(** What shows in the events of a run that a stage was entered. *)
Definition icns_started (ev : list event) : Prop :=
  Print INFO "Skipping .icns creation (not on macOS)" ∈ ev ∨ Mkdir iconset_dir ∈ ev.

Definition ico_started (ev : list event) : Prop :=
  Print FAIL "No PNG files found for .ico creation" ∈ ev ∨
  Print WORK "Creating .ico file..." ∈ ev.

Definition favicon_started (ev : list event) : Prop :=
  Print WORK "Creating favicon files..." ∈ ev.

Definition config_started (ev : list event) : Prop := config_line ∈ ev.

(** A failure that an assembler reports and turns into its result. *)
Definition failure_signal (e : event) : Prop :=
  (∃ x, e = PrintExn FAIL "Failed to create .icns file" x) ∨
  e = Print FAIL "No PNG files found for .ico creation" ∨
  (∃ x, e = PrintExn FAIL "Failed to create .ico file" x) ∨
  (∃ x, e = PrintExn FAIL "Failed to create favicon.ico" x).

(** C7, as the specification states it: once every raster is generated,
    the config emitter runs in every run in which an assembler signals a
    failure. *)
Definition emitter_runs_despite_failures : Prop :=
  ∀ env fs,
    (∀ size, size ∈ sizes → generated (main env fs) size) →
    (∃ e, e ∈ events (main env fs) ∧ failure_signal e) →
    config_started (events (main env fs)).

(** A command whose exception no handler of the pipeline takes: one that is
    not a version probe and could not be started, or a copy that did not
    exit with status zero. *)
Definition broken (e : event) : Prop :=
  match e with
  | Spawn argv st =>
      (st = NotFound ∧ ∀ tool, argv ≠ [tool; "--version"]) ∨
      (st ≠ Succeeded ∧ ∃ args, argv = "cp" :: args)
  | _ => False
  end.

(** [m] raises exactly when it spawns a [broken] command. *)
Definition raises_iff_broken {A} (m : M A) : Prop :=
  ∀ fs, match result (m fs) with
        | Ret _ => Forall (λ e, ¬ broken e) (events (m fs))
        | Raise _ => Exists broken (events (m fs))
        end.

(** * Reasoning about runs *)

(** ** Sequencing *)

Lemma bind_run {A B} (m : M A) (k : A → M B) fs :
  (m ≫= k) fs =
  match result (m fs) with
  | Ret a => prepend (events (m fs)) (k a (fs_after (m fs)))
  | Raise e => Outcome (Raise e) (fs_after (m fs)) (events (m fs))
  end.
Proof.
  unfold mbind, M_bind, bind. destruct (m fs) as [[a|e] fs1 ev1]; cbn; [|done].
  by destruct (k a fs1).
Qed.

Lemma bind_returns {A B} (m : M A) (k : A → M B) fs a :
  result (m fs) = Ret a →
  (m ≫= k) fs = prepend (events (m fs)) (k a (fs_after (m fs))).
Proof. intros H. by rewrite bind_run, H. Qed.

Lemma bind_raises {A B} (m : M A) (k : A → M B) fs e :
  result (m fs) = Raise e →
  (m ≫= k) fs = Outcome (Raise e) (fs_after (m fs)) (events (m fs)).
Proof. intros H. by rewrite bind_run, H. Qed.

Lemma try_except_run {A} (m : M A) (h : exn → option (M A)) fs :
  try_except m h fs =
  match result (m fs) with
  | Ret a => m fs
  | Raise e =>
      match h e with
      | Some k => prepend (events (m fs)) (k (fs_after (m fs)))
      | None => m fs
      end
  end.
Proof.
  unfold try_except. destruct (m fs) as [[a|e] fs1 ev1]; cbn; [done|].
  destruct (h e) as [k|]; [|done]. by destruct (k fs1).
Qed.

(** ** Frames and trace footprints of the combinators *)

Lemma keeps_ret {A} (p : string) (a : A) : keeps p (mret a).
Proof. by intros fs. Qed.

Lemma keeps_bind {A B} (p : string) (m : M A) (k : A → M B) :
  keeps p m → (∀ a, keeps p (k a)) → keeps p (m ≫= k).
Proof.
  intros Hm Hk fs. rewrite bind_run.
  destruct (result (m fs)) as [a|e]; cbn; [|apply Hm].
  by rewrite Hk, Hm.
Qed.

Lemma keeps_try_except {A} (p : string) (m : M A) (h : exn → option (M A)) :
  keeps p m → (∀ e k, h e = Some k → keeps p k) → keeps p (try_except m h).
Proof.
  intros Hm Hh fs. rewrite try_except_run.
  destruct (result (m fs)) as [a|e]; [apply Hm|].
  destruct (h e) as [k|] eqn:He; [|apply Hm].
  cbn. by rewrite (Hh _ _ He), Hm.
Qed.

Lemma keeps_for_ {A} (p : string) (l : list A) (body : A → M unit) :
  (∀ x, x ∈ l → keeps p (body x)) → keeps p (for_ l body).
Proof.
  induction l as [|x l IH]; intros H; cbn; [apply keeps_ret|].
  apply keeps_bind; [apply H; left|intros _; apply IH].
  intros y Hy. apply H. by right.
Qed.

Lemma keeps_for_acc {A B} (p : string) (l : list A) (s : B) (body : A → B → M B) :
  (∀ x s, x ∈ l → keeps p (body x s)) → keeps p (for_acc l s body).
Proof.
  revert s. induction l as [|x l IH]; intros s H; cbn; [apply keeps_ret|].
  apply keeps_bind; [apply H; left|intros s'; apply IH].
  intros y s'' Hy. apply H. by right.
Qed.

Lemma keeps_for_ret {A B} (p : string) (l : list A) (body : A → M (option B)) :
  (∀ x, x ∈ l → keeps p (body x)) → keeps p (for_ret l body).
Proof.
  induction l as [|x l IH]; intros H; cbn; [apply keeps_ret|].
  apply keeps_bind; [apply H; left|].
  intros [v|]; [apply keeps_ret|apply IH].
  intros y Hy. apply H. by right.
Qed.

Lemma emits_ret {A} (P : event → Prop) (a : A) : emits P (mret a).
Proof. intros fs. constructor. Qed.

Lemma emits_bind {A B} (P : event → Prop) (m : M A) (k : A → M B) :
  emits P m → (∀ a, emits P (k a)) → emits P (m ≫= k).
Proof.
  intros Hm Hk fs. rewrite bind_run.
  destruct (result (m fs)) as [a|e]; cbn; [|apply Hm].
  apply Forall_app. split; [apply Hm|apply Hk].
Qed.

Lemma emits_try_except {A} (P : event → Prop) (m : M A) (h : exn → option (M A)) :
  emits P m → (∀ e k, h e = Some k → emits P k) → emits P (try_except m h).
Proof.
  intros Hm Hh fs. rewrite try_except_run.
  destruct (result (m fs)) as [a|e]; [apply Hm|].
  destruct (h e) as [k|] eqn:He; [|apply Hm].
  cbn. apply Forall_app. split; [apply Hm|by apply (Hh _ _ He)].
Qed.

Lemma emits_for_ {A} (P : event → Prop) (l : list A) (body : A → M unit) :
  (∀ x, x ∈ l → emits P (body x)) → emits P (for_ l body).
Proof.
  induction l as [|x l IH]; intros H; cbn; [apply emits_ret|].
  apply emits_bind; [apply H; left|intros _; apply IH].
  intros y Hy. apply H. by right.
Qed.

Lemma emits_for_acc {A B} (P : event → Prop) (l : list A) (s : B) (body : A → B → M B) :
  (∀ x s, x ∈ l → emits P (body x s)) → emits P (for_acc l s body).
Proof.
  revert s. induction l as [|x l IH]; intros s H; cbn; [apply emits_ret|].
  apply emits_bind; [apply H; left|intros s'; apply IH].
  intros y s'' Hy. apply H. by right.
Qed.

Lemma emits_for_ret {A B} (P : event → Prop) (l : list A) (body : A → M (option B)) :
  (∀ x, x ∈ l → emits P (body x)) → emits P (for_ret l body).
Proof.
  induction l as [|x l IH]; intros H; cbn; [apply emits_ret|].
  apply emits_bind; [apply H; left|].
  intros [v|]; [apply emits_ret|apply IH].
  intros y Hy. apply H. by right.
Qed.

Lemma keeps_print p m t : keeps p (print m t).
Proof. by intros fs. Qed.

Lemma keeps_print_exn p m t e : keeps p (print_exn m t e).
Proof. by intros fs. Qed.

Lemma keeps_print_after_blank p m t : keeps p (print_after_blank m t).
Proof. by intros fs. Qed.

Lemma keeps_path_exists p q : keeps p (path_exists q).
Proof. by intros fs. Qed.

Lemma keeps_existing p l : keeps p (existing l).
Proof.
  induction l as [|f l IH]; cbn; [apply keeps_ret|].
  apply keeps_bind; [apply keeps_path_exists|intros e].
  apply keeps_bind; [done|intros r; apply keeps_ret].
Qed.

Lemma keeps_mkdir p q : p ≠ q → keeps p (mkdir_exist_ok q).
Proof.
  intros Hne fs. unfold mkdir_exist_ok.
  repeat case_match; cbn; try done; by rewrite lookup_insert_ne.
Qed.

Lemma keeps_open_write p q text : p ≠ q → keeps p (open_write q text).
Proof.
  intros Hne fs. unfold open_write.
  repeat case_match; cbn; try done; by rewrite lookup_insert_ne.
Qed.

Lemma emits_print (P : event → Prop) m t : P (Print m t) → emits P (print m t).
Proof. intros H fs. by repeat constructor. Qed.

Lemma emits_print_exn (P : event → Prop) m t e :
  P (PrintExn m t e) → emits P (print_exn m t e).
Proof. intros H fs. by repeat constructor. Qed.

Lemma emits_print_after_blank (P : event → Prop) m t :
  P (Print PLAIN "") → P (Print m t) → emits P (print_after_blank m t).
Proof. intros H1 H2 fs. by repeat constructor. Qed.

Lemma emits_path_exists (P : event → Prop) q : emits P (path_exists q).
Proof. intros fs. constructor. Qed.

Lemma emits_existing (P : event → Prop) l : emits P (existing l).
Proof.
  induction l as [|f l IH]; cbn; [apply emits_ret|].
  apply emits_bind; [apply emits_path_exists|intros e].
  apply emits_bind; [done|intros r; apply emits_ret].
Qed.

Lemma emits_mkdir (P : event → Prop) q : P (Mkdir q) → emits P (mkdir_exist_ok q).
Proof.
  intros H fs. unfold mkdir_exist_ok.
  repeat case_match; by repeat constructor.
Qed.

Lemma emits_open_write (P : event → Prop) q text :
  P (OpenW q) → emits P (open_write q text).
Proof.
  intros H fs. unfold open_write.
  repeat case_match; by repeat constructor.
Qed.

Lemma emits_subprocess_run (P : event → Prop) env argv :
  (∀ st, P (Spawn argv st)) → emits P (subprocess_run env argv).
Proof.
  intros H fs. unfold subprocess_run.
  destruct (exec env argv fs) as [st fs']. by repeat constructor.
Qed.

(** ** What the external commands do *)

Lemma split_last_snoc {A} (l : list A) (x : A) : split_last (l ++ [x]) = Some (l, x).
Proof. induction l as [|y l IH]; cbn; [done|]. by rewrite IH. Qed.

Lemma write_output_frame fs out c p :
  p ≠ out → (write_output fs out c).2 !! p = fs !! p.
Proof.
  intros Hne. unfold write_output. case_match; cbn; [|done].
  by rewrite lookup_insert_ne.
Qed.

Lemma write_output_succeeded fs out c fs' :
  write_output fs out c = (Succeeded, fs') → fs' = <[out := File c]> fs.
Proof. unfold write_output. case_match; congruence. Qed.

Lemma write_output_failed fs out c st fs' :
  write_output fs out c = (st, fs') → st ≠ Succeeded → fs' = fs.
Proof. unfold write_output. case_match; congruence. Qed.

Lemma write_output_status fs out c :
  (write_output fs out c).1 = Succeeded ∨ (write_output fs out c).1 = Failed.
Proof. unfold write_output. case_match; auto. Qed.

Section exec_facts.
Context (env : Env).

Lemma exec_version tool fs :
  exec env [tool; "--version"] fs =
  (if on_path env tool
   then if version_ok env tool then Succeeded else Failed
   else NotFound, fs).
Proof. cbn. by destruct (on_path env tool). Qed.

Lemma exec_raster_cmd size fs :
  exec env (raster_cmd size) fs =
  if on_path env "magick"
  then magick_convert env (geometry size) svg_file (png_path size) fs
  else (NotFound, fs).
Proof. cbn. by destruct (on_path env "magick"). Qed.

Lemma exec_pack inputs out fs :
  "-background" ∉ inputs → out ≠ "--version" →
  exec env ("magick" :: inputs ++ [out]) fs =
  if on_path env "magick" then magick_pack env inputs out fs else (NotFound, fs).
Proof.
  intros Hin Hout. cbn. destruct (on_path env "magick"); [|done].
  unfold run_tool. rewrite bool_decide_false.
  2:{ destruct inputs as [|? [|]]; cbn; congruence. }
  rewrite bool_decide_true by done. rewrite split_last_snoc.
  destruct inputs as [|b [|n [|s [|g [|src [|]]]]]]; try done.
  rewrite bool_decide_false; [done|].
  intros (-> & _). apply Hin. left.
Qed.

Lemma exec_cp src dst fs :
  exec env ["cp"; src; dst] fs =
  if on_path env "cp" then cp src dst fs else (NotFound, fs).
Proof.
  cbn. destruct (on_path env "cp"); [|done].
  unfold run_tool. rewrite bool_decide_false by congruence. done.
Qed.

Lemma exec_rm_rf p fs :
  exec env ["rm"; "-rf"; p] fs =
  if on_path env "rm" then rm_rf p fs else (NotFound, fs).
Proof.
  cbn. destruct (on_path env "rm"); [|done].
  unfold run_tool. rewrite bool_decide_false by congruence. done.
Qed.

Lemma exec_iconutil dir fs :
  exec env ["iconutil"; "-c"; "icns"; dir] fs =
  if on_path env "iconutil" then iconutil_c_icns env dir fs else (NotFound, fs).
Proof.
  cbn. destruct (on_path env "iconutil"); [|done].
  unfold run_tool. rewrite bool_decide_false by congruence. done.
Qed.

Lemma exec_keeps_version tool p : exec_keeps env [tool; "--version"] p.
Proof. intros fs. by rewrite exec_version. Qed.

Lemma magick_convert_frame geom src out fs p :
  p ≠ out → (magick_convert env geom src out fs).2 !! p = fs !! p.
Proof.
  intros Hne. unfold magick_convert.
  repeat case_match; try done. by apply write_output_frame.
Qed.

Lemma magick_pack_frame inputs out fs p :
  p ≠ out → (magick_pack env inputs out fs).2 !! p = fs !! p.
Proof.
  intros Hne. unfold magick_pack.
  repeat case_match; try done. by apply write_output_frame.
Qed.

Lemma exec_keeps_magick args inputs out p :
  split_last args = Some (inputs, out) → p ≠ out →
  exec_keeps env ("magick" :: args) p.
Proof.
  intros Hsplit Hne fs. cbn. destruct (on_path env "magick"); [|done].
  unfold run_tool. case_bool_decide; [by case_match|].
  rewrite bool_decide_true by done. rewrite Hsplit.
  repeat case_match; auto using magick_convert_frame, magick_pack_frame.
Qed.

Lemma exec_keeps_raster_cmd size p :
  p ≠ png_path size → exec_keeps env (raster_cmd size) p.
Proof. intros Hne. by eapply exec_keeps_magick. Qed.

Lemma exec_keeps_cp src dst p :
  p ≠ dst → p ≠ dst +:+ "/" +:+ basename src → exec_keeps env ["cp"; src; dst] p.
Proof.
  intros H1 H2 fs. rewrite exec_cp. case_match; [|done].
  unfold cp. repeat case_match; try done; by apply write_output_frame.
Qed.

Lemma exec_keeps_rm_rf q p :
  p ≠ q → under q p = false → exec_keeps env ["rm"; "-rf"; q] p.
Proof.
  intros H1 H2 fs. rewrite exec_rm_rf. case_match; [|done].
  cbn. destruct (fs !! p) as [n|] eqn:Hp.
  - apply map_lookup_filter_Some. split; [done|]. split; [done|].
    cbn [fst]. rewrite H2. by intros [].
  - apply map_lookup_filter_None. left. done.
Qed.

Lemma exec_keeps_iconutil dir p :
  (∀ stem, strip_suffix ".iconset" dir = Some stem → p ≠ stem +:+ ".icns") →
  exec_keeps env ["iconutil"; "-c"; "icns"; dir] p.
Proof.
  intros H fs. rewrite exec_iconutil. case_match; [|done].
  unfold iconutil_c_icns. repeat case_match; try done.
  apply write_output_frame. by apply H.
Qed.

Lemma keeps_subprocess_run argv p :
  exec_keeps env argv p → keeps p (subprocess_run env argv).
Proof.
  intros H fs. unfold subprocess_run. specialize (H fs).
  by destruct (exec env argv fs) as [st fs'].
Qed.

(** Running a command, by exit status. *)
Lemma subprocess_run_eq argv fs :
  subprocess_run env argv fs =
  Outcome
    (match (exec env argv fs).1 with
     | Succeeded => Ret tt
     | Failed => Raise (CalledProcessError argv)
     | NotFound => Raise (FileNotFoundError (default "" (head argv)))
     end)
    (exec env argv fs).2 [Spawn argv (exec env argv fs).1].
Proof. unfold subprocess_run. by destruct (exec env argv fs). Qed.

End exec_facts.

(** ** Stepping through a run *)

Ltac run_step :=
  cbv [mbind M_bind bind mret M_ret ret try_except for_ for_acc for_ret existing
       print print_exn print_after_blank emit path_exists subprocess_run
       on_called_process_error on_called_process_or_not_found];
  cbn [app andb orb negb fst snd head default].

(** ** The dependency prober *)

Lemma check_dependencies_run env fs :
  ∃ ev,
    check_dependencies env fs =
    Outcome
      (Ret (available env "magick" &&
            (available env "iconutil" || bool_decide (platform env ≠ "darwin"))))
      fs
      (Spawn ["magick"; "--version"] (probe_status env "magick") :: ev) ∧
    Forall (λ e, is_print e ∨
                 e = Spawn ["iconutil"; "--version"] (probe_status env "iconutil")) ev.
Proof.
  unfold check_dependencies, available, probe_status.
  change required_tools with
    [("magick", "ImageMagick (brew install imagemagick)");
     ("iconutil", "macOS iconutil (built-in on macOS)")].
  run_step. rewrite exec_version.
  change (bool_decide ("magick" = "iconutil")) with false.
  change (bool_decide ("iconutil" = "iconutil")) with true.
  destruct (on_path env "magick"), (version_ok env "magick"); run_step;
    rewrite exec_version;
    destruct (on_path env "iconutil"), (version_ok env "iconutil"); run_step;
    destruct (bool_decide (platform env ≠ "darwin")); run_step;
    (eexists; split; [reflexivity|]);
    repeat (apply Forall_cons; split; [first [by left | by right]|]);
    by apply Forall_nil.
Qed.

Lemma bind_outcome {A B} (m : M A) (k : A → M B) fs r fs1 ev :
  m fs = Outcome r fs1 ev →
  (m ≫= k) fs =
  match r with
  | Ret a => prepend ev (k a fs1)
  | Raise e => Outcome (Raise e) fs1 ev
  end.
Proof. intros H. rewrite bind_run, H. by destruct r. Qed.

Lemma prepend_prepend {A} ev1 ev2 (o : outcome A) :
  prepend ev1 (prepend ev2 o) = prepend (ev1 ++ ev2) o.
Proof. unfold prepend. cbn. by rewrite app_assoc. Qed.

Lemma prepend_outcome {A} ev (r : res A) fs ev' :
  prepend ev (Outcome r fs ev') = Outcome r fs (ev ++ ev').
Proof. reflexivity. Qed.

Lemma keeps_all_eq {A} (m : M A) fs :
  (∀ p, keeps p m) → fs_after (m fs) = fs.
Proof. intros H. apply map_eq. intros p. apply H. Qed.

(** ** The directory initializer *)

Lemma mkdir_only_new_dirs q fs :
  only_new_dirs [q] fs (fs_after (mkdir_exist_ok q fs)).
Proof.
  intros p. unfold mkdir_exist_ok.
  destruct (decide (p = q)) as [->|Hne].
  - repeat case_match; cbn; auto; right; rewrite lookup_insert_eq;
      (split; [by left|done]).
  - left. repeat case_match; cbn; try done; by rewrite lookup_insert_ne.
Qed.

Lemma for_mkdir_only_new_dirs l fs :
  only_new_dirs l fs (fs_after (for_ l mkdir_exist_ok fs)).
Proof.
  revert fs. induction l as [|q l IH]; intros fs p; cbn; [by left|].
  rewrite bind_run. destruct (mkdir_only_new_dirs q fs p) as [H1|(H1 & H2 & H3)].
  - destruct (result (mkdir_exist_ok q fs)); cbn; [|by left].
    destruct (IH (fs_after (mkdir_exist_ok q fs)) p) as [H4|(H4 & H5 & H6)].
    + left. congruence.
    + right. split; [by right|]. split; congruence.
  - apply list_elem_of_singleton in H1 as ->.
    destruct (result (mkdir_exist_ok q fs)); cbn.
    + destruct (IH (fs_after (mkdir_exist_ok q fs)) q) as [H4|(H4 & H5 & H6)];
        [|congruence].
      right. split; [by left|]. split; congruence.
    + right. split; [by left|done].
Qed.

Lemma for_mkdir_events l fs :
  events (for_ l mkdir_exist_ok fs) `prefix_of` (Mkdir <$> l) ∧
  (result (for_ l mkdir_exist_ok fs) = Ret tt →
   events (for_ l mkdir_exist_ok fs) = Mkdir <$> l).
Proof.
  revert fs. induction l as [|q l IH]; intros fs; cbn; [by split|].
  rewrite bind_run.
  assert (events (mkdir_exist_ok q fs) = [Mkdir q]) as Hev.
  { unfold mkdir_exist_ok. by repeat case_match. }
  destruct (result (mkdir_exist_ok q fs)) as [[]|e]; cbn; rewrite Hev; cbn.
  - destruct (IH (fs_after (mkdir_exist_ok q fs))) as [H1 H2]. split.
    + by apply prefix_cons.
    + intros H. by rewrite H2.
  - split; [|done]. apply prefix_cons, prefix_nil.
Qed.

Lemma create_directories_eq : create_directories = for_ ["icons"; "icons/png"; "build"] mkdir_exist_ok.
Proof. reflexivity. Qed.

(** ** The raster generator without its source *)

Lemma generate_png_sizes_for_no_svg env sizes fs :
  fs !! svg_file = None →
  generate_png_sizes_for env sizes fs =
  Outcome (Ret false) fs [Print FAIL ("SVG file not found: " +:+ svg_file)].
Proof.
  intros H. unfold generate_png_sizes_for.
  erewrite bind_outcome by reflexivity. cbn.
  unfold exists_. rewrite bool_decide_false; [done|].
  rewrite H. by intros [? ?].
Qed.

Lemma main_prober_step env fs :
  ∃ ev,
    check_dependencies env fs =
      Outcome (Ret (available env "magick" &&
                    (available env "iconutil" || bool_decide (platform env ≠ "darwin"))))
              fs ev ∧
    Forall mutation_free ev.
Proof.
  destruct (check_dependencies_run env fs) as (ev & Heq & Hev).
  eexists. split; [exact Heq|].
  apply Forall_cons. split; [by right|].
  eapply Forall_impl; [exact Hev|]. intros e [H| ->]; [by left|by right].
Qed.

Lemma main_without_dependencies env fs ev :
  check_dependencies env fs = Outcome (Ret false) fs ev →
  main env fs =
  Outcome (Ret tt) fs
    (banner ++ ev ++
     [Print PLAIN ""; Print FAIL "Please install required dependencies and try again"]).
Proof.
  intros H. unfold main.
  erewrite bind_outcome by reflexivity. cbn [prepend].
  erewrite bind_outcome by reflexivity. cbn [prepend].
  erewrite bind_outcome by exact H. done.
Qed.

Lemma main_with_dependencies env fs ev :
  check_dependencies env fs = Outcome (Ret true) fs ev →
  main env fs =
  prepend (banner ++ ev)
    ((create_directories;;
      generated ← generate_png_sizes env;
      if negb generated then print FAIL "Failed to generate PNG files"
      else
        create_icns_file env;; create_ico_file env;; create_favicon_files env;;
        update_electron_config;; print_summary) fs).
Proof.
  intros H. unfold main.
  erewrite bind_outcome by reflexivity. cbn [prepend].
  erewrite bind_outcome by reflexivity. cbn [prepend].
  erewrite bind_outcome by exact H.
  cbn [negb]. cbv iota. by rewrite !prepend_prepend.
Qed.

(** C8. When the host is not macOS, the macOS bundle assembler only prints
    that it skips the step: the file system is unchanged, no process is
    spawned, no directory is made, no file is opened, and the result is
    [True]. *)
Theorem create_icns_file_off_mac env fs :
  platform env ≠ "darwin" →
  create_icns_file env fs =
  Outcome (Ret true) fs [Print INFO "Skipping .icns creation (not on macOS)"].
Proof.
  intros H. unfold create_icns_file. by rewrite bool_decide_true.
Qed.

Lemma create_icns_file_off_mac_witness :
  platform linux_host ≠ "darwin" ∧
  create_icns_file linux_host with_svg =
  Outcome (Ret true) with_svg [Print INFO "Skipping .icns creation (not on macOS)"].
Proof.
  assert (platform linux_host ≠ "darwin") as H by (vm_compute; discriminate).
  split; [exact H|]. exact (create_icns_file_off_mac linux_host with_svg H).
Defined.

(** C6. When a mandatory tool is missing (its version probe does not
    succeed), the pipeline ends right after reporting it: the file system
    is the one it started with, and the run consists of printed lines and
    version probes only. *)
Theorem missing_dependency_aborts env fs tool :
  tool ∈ required_tools.*1 →
  mandatory env tool = true →
  available env tool = false →
  result (main env fs) = Ret tt ∧
  fs_after (main env fs) = fs ∧
  Forall mutation_free (events (main env fs)) ∧
  last (events (main env fs)) =
    Some (Print FAIL "Please install required dependencies and try again").
Proof.
  intros Htool Hmand Hmiss.
  destruct (main_prober_step env fs) as (ev & Heq & Hev).
  assert (available env "magick" &&
          (available env "iconutil" || bool_decide (platform env ≠ "darwin")) = false)
    as Hfalse.
  { change (required_tools.*1) with ["magick"; "iconutil"] in Htool.
    apply elem_of_cons in Htool as [->|Htool].
    - by rewrite Hmiss.
    - apply list_elem_of_singleton in Htool as ->. rewrite Hmiss.
      unfold mandatory in Hmand. rewrite bool_decide_true in Hmand by done.
      cbn in Hmand. apply negb_true_iff in Hmand. rewrite Hmand.
      apply andb_false_r. }
  rewrite Hfalse in Heq.
  rewrite (main_without_dependencies _ _ _ Heq). cbn [result fs_after events].
  split; [done|]. split; [done|]. split.
  - apply Forall_app. split; [repeat constructor; by left|].
    apply Forall_app. split; [done|]. repeat constructor; by left.
  -     change [Print PLAIN ""; Print FAIL "Please install required dependencies and try again"]
      with ([Print PLAIN ""] ++ [Print FAIL "Please install required dependencies and try again"]).
    rewrite !app_assoc. apply last_snoc.
Qed.

Lemma missing_dependency_aborts_witness :
  "magick" ∈ required_tools.*1 ∧
  mandatory bare_host "magick" = true ∧
  available bare_host "magick" = false ∧
  result (main bare_host with_svg) = Ret tt ∧
  fs_after (main bare_host with_svg) = with_svg ∧
  Forall mutation_free (events (main bare_host with_svg)) ∧
  last (events (main bare_host with_svg)) =
    Some (Print FAIL "Please install required dependencies and try again").
Proof.
  assert ("magick" ∈ required_tools.*1) as H1 by (vm_compute; left).
  assert (mandatory bare_host "magick" = true) as H2 by reflexivity.
  assert (available bare_host "magick" = false) as H3 by reflexivity.
  split; [exact H1|]. split; [exact H2|]. split; [exact H3|].
  exact (missing_dependency_aborts bare_host with_svg "magick" H1 H2 H3).
Defined.

(** C1, counterexample.  On a host where the rasterizer is installed, the
    run on an empty directory makes [icons], [icons/png] and [build] first
    and reports the missing source only afterwards. *)
Lemma svg_absent_directories_come_first :
  (∅ : FS) !! svg_file = None ∧
  events (main linux_host ∅) =
    banner ++
    [Spawn ["magick"; "--version"] Succeeded; Print OK "magick is available";
     Spawn ["iconutil"; "--version"] NotFound;
     Print INFO "iconutil not available (not on macOS)";
     Mkdir "icons"; Mkdir "icons/png"; Mkdir "build";
     Print FAIL "SVG file not found: prestige-ai-logo.svg";
     Print FAIL "Failed to generate PNG files"] ∧
  fs_after (main linux_host ∅) !! "icons" = Some Dir ∧
  ¬ svg_absent_fails_before_mkdir.
Proof.
  split; [done|]. split; [by vm_compute|]. split; [by vm_compute|].
  intros H. specialize (H linux_host ∅ eq_refl). vm_compute in H. discriminate.
Qed.

(** ** Size-derived names are injective *)

Lemma pretty_N_go_no_x (x : N) s : no_x s → no_x (pretty_N_go x s).
Proof.
  revert s. induction (N.lt_wf_0 x) as [x _ IH]; intros s Hs.
  assert (x = 0 ∨ 0 < x)%N as [->|?] by lia.
  - by rewrite pretty_N_go_0.
  - rewrite pretty_N_go_step by done. apply IH.
    { by apply N.div_lt. }
    split; [|done]. unfold pretty_N_char. by repeat case_match.
Qed.

Lemma pretty_Z_no_x (z : Z) : no_x (pretty z).
Proof.
  assert (∀ n : N, no_x (pretty n)) as HN.
  { intros n. unfold pretty, pretty_N. case_decide; [by cbn|].
    by apply pretty_N_go_no_x. }
  destruct z as [|p|p]; [by cbn|apply HN|].
  split; [done|apply HN].
Qed.

Lemma no_x_split s1 s2 t1 t2 :
  no_x s1 → no_x s2 → s1 +:+ String "x" t1 = s2 +:+ String "x" t2 → s1 = s2.
Proof.
  revert s2. induction s1 as [|c s1 IH]; intros [|d s2]; cbn.
  - done.
  - intros _ [Hd _] [= <- _]. done.
  - intros [Hc _] _ [= -> _]. done.
  - intros [_ H1] [_ H2] [= -> Heq]. f_equal. by apply IH.
Qed.

#[global] Instance geometry_inj : Inj (=) (=) geometry.
Proof.
  intros a b H. unfold geometry in H.
  apply no_x_split in H; auto using pretty_Z_no_x.
  by apply (inj pretty).
Qed.

#[global] Instance png_path_inj : Inj (=) (=) png_path.
Proof.
  intros a b H. unfold png_path in H.
  apply (inj (String.app "icons/png/icon-")) in H.
  apply no_x_split in H; auto using pretty_Z_no_x.
  by apply (inj pretty).
Qed.

#[global] Instance raster_cmd_inj : Inj (=) (=) raster_cmd.
Proof. intros a b [= H _]. by apply (inj geometry). Qed.

Lemma png_path_not_svg size : png_path size ≠ svg_file.
Proof. unfold png_path. cbn. discriminate. Qed.

(** ** The raster generator *)

Lemma generate_png_sizes_for_svg env sizes fs :
  is_Some (fs !! svg_file) →
  generate_png_sizes_for env sizes fs =
  prepend [Print WORK "Generating PNG files..."]
    ((r ← for_ret sizes (raster_step env);
      match r with Some b => mret b | None => mret true end) fs).
Proof.
  intros H. unfold generate_png_sizes_for.
  erewrite bind_outcome by reflexivity. cbn [prepend app].
  unfold exists_. rewrite bool_decide_true by done. cbn [negb].
  erewrite bind_outcome by reflexivity. reflexivity.
Qed.

Lemma raster_step_run env size fs :
  raster_step env size fs =
  match exec env (raster_cmd size) fs with
  | (Succeeded, fs') => Outcome (Ret None) fs' (raster_ok_events size)
  | (Failed, fs') => Outcome (Ret (Some false)) fs' (raster_failed_events size)
  | (NotFound, fs') =>
      Outcome (Raise (FileNotFoundError "magick")) fs' [Spawn (raster_cmd size) NotFound]
  end.
Proof.
  unfold raster_step. run_step.
  by destruct (exec env (raster_cmd size) fs) as [[] fs'].
Qed.

Lemma exec_raster_cmd_cases env size fs :
  (∃ png, rasterized env fs size png ∧
          exec env (raster_cmd size) fs = (Succeeded, <[png_path size := File png]> fs)) ∨
  (∃ st, st ≠ Succeeded ∧ exec env (raster_cmd size) fs = (st, fs)).
Proof.
  rewrite exec_raster_cmd. destruct (on_path env "magick"); [|right; by exists NotFound].
  unfold magick_convert, read_file, write_output.
  destruct (fs !! svg_file) as [[svg|]|] eqn:Hsvg; try (right; by exists Failed).
  destruct (rasterize env svg (geometry size)) as [png|] eqn:Hpng;
    [|right; by exists Failed].
  destruct (writable fs (png_path size)); [|right; by exists Failed].
  left. exists png. split; [by exists svg|done].
Qed.

Lemma rasterized_insert env fs size png s c :
  rasterized env (<[png_path s := c]> fs) size png ↔ rasterized env fs size png.
Proof.
  unfold rasterized. rewrite lookup_insert_ne by apply png_path_not_svg. done.
Qed.

Lemma rasterized_functional env fs size png1 png2 :
  rasterized env fs size png1 → rasterized env fs size png2 → png1 = png2.
Proof. intros (svg1 & H1 & H2) (svg2 & H3 & H4). congruence. Qed.

Lemma rasters_written_cons env fs s png l fs' :
  rasterized env fs s png →
  rasters_written env (<[png_path s := File png]> fs) l fs' →
  rasters_written env fs (s :: l) fs'.
Proof.
  intros Hs [Hframe Hfiles]. split.
  - intros p Hp. rewrite fmap_cons, not_elem_of_cons in Hp.
    destruct Hp as [Hne Hp]. rewrite Hframe by done. by rewrite lookup_insert_ne.
  - intros size Hsize. destruct (decide (size ∈ l)) as [Hin|Hnin].
    + destruct (Hfiles size Hin) as (png' & H1 & H2). exists png'.
      split; [|done]. by apply rasterized_insert in H1.
    + apply elem_of_cons in Hsize as [->|]; [|done]. exists png.
      split; [done|]. rewrite Hframe.
      * apply lookup_insert_eq.
      * intros Hin. apply list_elem_of_fmap in Hin as (s' & Heq & Hs').
        apply (inj png_path) in Heq. by subst.
Qed.

Lemma for_ret_raster env sizes fs :
  ∃ pre post,
    sizes = pre ++ post ∧
    rasters_written env fs pre (fs_after (for_ret sizes (raster_step env) fs)) ∧
    ((post = [] ∧
      result (for_ret sizes (raster_step env) fs) = Ret None ∧
      events (for_ret sizes (raster_step env) fs) = concat (raster_ok_events <$> pre)) ∨
     (∃ s post', post = s :: post' ∧
      result (for_ret sizes (raster_step env) fs) = Ret (Some false) ∧
      events (for_ret sizes (raster_step env) fs) =
        concat (raster_ok_events <$> pre) ++ raster_failed_events s) ∨
     (∃ s post', post = s :: post' ∧
      result (for_ret sizes (raster_step env) fs) = Raise (FileNotFoundError "magick") ∧
      events (for_ret sizes (raster_step env) fs) =
        concat (raster_ok_events <$> pre) ++ [Spawn (raster_cmd s) NotFound])).
Proof.
  revert fs. induction sizes as [|s sizes IH]; intros fs.
  { exists [], []. split; [done|]. split; [by split; [|intros ? ?%elem_of_nil]|].
    left. by cbn. }
  cbn [for_ret]. rewrite bind_run, raster_step_run.
  destruct (exec_raster_cmd_cases env s fs) as [(png & Hpng & ->)|(st & Hst & ->)].
  - cbn [result fs_after events prepend].
    destruct (IH (<[png_path s := File png]> fs))
      as (pre & post & -> & Hwritten & Hcases).
    exists (s :: pre), post. split; [done|].
    split; [by eapply rasters_written_cons|].
    destruct Hcases as [(-> & Hr & He)|[(s' & post' & -> & Hr & He)|(s' & post' & -> & Hr & He)]].
    + left. by rewrite Hr, He.
    + right; left. exists s', post'. by rewrite Hr, He.
    + right; right. exists s', post'. by rewrite Hr, He.
  - exists [], (s :: sizes). split; [done|].
    destruct st; [|done|]; cbn [result fs_after events prepend].
    + split; [by split; [|intros ? ?%elem_of_nil]|].
      right; right. by exists s, sizes.
    + split; [by split; [|intros ? ?%elem_of_nil]|].
      right; left. by exists s, sizes.
Qed.

Lemma elem_of_raster_ok_events e l :
  e ∈ concat (raster_ok_events <$> l) →
  ∃ s, s ∈ l ∧ (e = Spawn (raster_cmd s) Succeeded ∨
                e = Print OK ("Generated " +:+ png_path s)).
Proof.
  induction l as [|s l IH]; cbn; [by intros ?%elem_of_nil|].
  rewrite !elem_of_cons. intros [->|[->|Hin]].
  - exists s. split; [by left|by left].
  - exists s. split; [by left|by right].
  - destruct (IH Hin) as (s' & Hs' & He). exists s'. split; [by right|done].
Qed.

Lemma generate_png_sizes_for_cases env sizes fs :
  is_Some (fs !! svg_file) →
  ∃ pre post,
    sizes = pre ++ post ∧
    rasters_written env fs pre (fs_after (generate_png_sizes_for env sizes fs)) ∧
    ((post = [] ∧
      result (generate_png_sizes_for env sizes fs) = Ret true ∧
      events (generate_png_sizes_for env sizes fs) =
        Print WORK "Generating PNG files..." :: concat (raster_ok_events <$> pre)) ∨
     (∃ s post', post = s :: post' ∧
      result (generate_png_sizes_for env sizes fs) = Ret false ∧
      events (generate_png_sizes_for env sizes fs) =
        Print WORK "Generating PNG files..." ::
        concat (raster_ok_events <$> pre) ++ raster_failed_events s) ∨
     (∃ s post', post = s :: post' ∧
      result (generate_png_sizes_for env sizes fs) = Raise (FileNotFoundError "magick") ∧
      events (generate_png_sizes_for env sizes fs) =
        Print WORK "Generating PNG files..." ::
        concat (raster_ok_events <$> pre) ++ [Spawn (raster_cmd s) NotFound])).
Proof.
  intros Hsvg. rewrite generate_png_sizes_for_svg by done.
  destruct (for_ret_raster env sizes fs) as (pre & post & -> & Hwritten & Hcases).
  exists pre, post. split; [done|]. rewrite bind_run.
  destruct Hcases as [(-> & Hr & He)|[(s & post' & -> & Hr & He)|(s & post' & -> & Hr & He)]];
    rewrite Hr; cbn [prepend result fs_after events mret M_ret ret app];
    rewrite He; (split; [done|]).
  - left. by rewrite app_nil_r.
  - right; left. exists s, post'. by rewrite app_nil_r.
  - right; right. by exists s, post'.
Qed.


(** ** The Windows bundle assembler *)

Lemma existing_run l fs :
  existing l fs = Outcome (Ret (List.filter (exists_ fs) l)) fs [].
Proof.
  induction l as [|f l IH]; [done|]. cbn [existing List.filter].
  erewrite bind_outcome by reflexivity. cbn [prepend app].
  erewrite bind_outcome by exact IH.
  unfold prepend. cbn. by destruct (exists_ fs f).
Qed.

Lemma ico_inputs_nil fs :
  ico_inputs fs = [] ↔ ∀ size, size ∈ ico_sizes → fs !! png_path size = None.
Proof.
  unfold ico_inputs. split.
  - intros H size Hsize.
    destruct (fs !! png_path size) as [n|] eqn:Hn; [|done]. exfalso.
    assert (In (png_path size) (List.filter (exists_ fs) (png_path <$> ico_sizes))) as Hin.
    { apply filter_In. split.
      - apply list_elem_of_In, list_elem_of_fmap. by exists size.
      - unfold exists_. apply bool_decide_eq_true. by rewrite Hn. }
    by rewrite H in Hin.
  - intros H. induction ico_sizes as [|s l IH]; [done|]. cbn.
    unfold exists_ at 1. rewrite bool_decide_false.
    + apply IH. intros size Hs. apply H. by right.
    + rewrite H by left. by intros [? ?].
Qed.

Lemma ico_inputs_are_rasters fs f :
  f ∈ ico_inputs fs → ∃ size, size ∈ ico_sizes ∧ f = png_path size ∧ is_Some (fs !! f).
Proof.
  unfold ico_inputs. intros Hin. apply list_elem_of_In, filter_In in Hin as [Hin Hex].
  apply list_elem_of_In, list_elem_of_fmap in Hin as (size & -> & Hsize).
  exists size. split; [done|]. split; [done|].
  unfold exists_ in Hex. by apply bool_decide_eq_true in Hex.
Qed.

Lemma exec_ico_cmd env fs :
  exec env (ico_cmd (ico_inputs fs)) fs =
  if on_path env "magick" then magick_pack env (ico_inputs fs) ico_file fs
  else (NotFound, fs).
Proof.
  apply exec_pack; [|done].
  intros (size & _ & Heq & _)%ico_inputs_are_rasters.
  unfold png_path in Heq. cbn in Heq. discriminate.
Qed.

Lemma create_ico_file_run env fs :
  create_ico_file env fs =
  if bool_decide (ico_inputs fs = []) then
    Outcome (Ret false) fs [Print FAIL "No PNG files found for .ico creation"]
  else
    match exec env (ico_cmd (ico_inputs fs)) fs with
    | (Succeeded, fs') =>
        Outcome (Ret true) fs'
          [Print WORK "Creating .ico file...";
           Spawn (ico_cmd (ico_inputs fs)) Succeeded;
           Print OK "Generated icons/prestige-ai.ico"]
    | (Failed, fs') =>
        Outcome (Ret false) fs'
          [Print WORK "Creating .ico file...";
           Spawn (ico_cmd (ico_inputs fs)) Failed;
           PrintExn FAIL "Failed to create .ico file"
             (CalledProcessError (ico_cmd (ico_inputs fs)))]
    | (NotFound, fs') =>
        Outcome (Raise (FileNotFoundError "magick")) fs'
          [Print WORK "Creating .ico file...";
           Spawn (ico_cmd (ico_inputs fs)) NotFound]
    end.
Proof.
  unfold create_ico_file.
  erewrite bind_outcome by apply existing_run. cbv iota.
  fold (ico_inputs fs).
  destruct (bool_decide (ico_inputs fs = [])); [done|].
  unfold ico_cmd, ico_file, prepend. run_step.
  by destruct (exec env _ fs) as [[] fs'].
Qed.

Lemma exec_pack_cases env inputs out fs :
  (∃ images ico,
     mapM (read_file fs) inputs = Some images ∧
     pack_icons env images = Some ico ∧
     magick_pack env inputs out fs = (Succeeded, <[out := File ico]> fs)) ∨
  magick_pack env inputs out fs = (Failed, fs).
Proof.
  unfold magick_pack, write_output.
  destruct (mapM (read_file fs) inputs) as [images|]; [|by right].
  destruct (pack_icons env images) as [ico|] eqn:Hico; [|by right].
  destruct (writable fs out); [|by right].
  left. by exists images, ico.
Qed.

Lemma some_ico_input fs :
  ico_inputs fs ≠ [] ↔ ∃ size, size ∈ ico_sizes ∧ is_Some (fs !! png_path size).
Proof.
  split.
  - destruct (ico_inputs fs) as [|f l] eqn:Heq; [done|]. intros _.
    destruct (ico_inputs_are_rasters fs f) as (size & Hsize & -> & Hsome).
    { rewrite Heq. left. }
    by exists size.
  - rewrite ico_inputs_nil. intros (size & Hsize & [n Hn]) H.
    by rewrite H in Hn.
Qed.

(** ** The favicon assembler *)

Lemma favicon_mappings_eq :
  favicon_mappings = [(icon32, "favicon.png"); (icon16, "favicon-16x16.png")].
Proof. reflexivity. Qed.

Lemma create_favicon_files_phases env :
  create_favicon_files env =
  (print WORK "Creating favicon files...";;
   (favicon_copy env icon32 "favicon.png";;
    favicon_copy env icon16 "favicon-16x16.png";;
    mret tt);;
   favicon_pack env).
Proof. reflexivity. Qed.

Lemma favicon_copy_run env source dest fs :
  favicon_copy env source dest fs =
  if exists_ fs source then
    Outcome (run_result "cp" ["cp"; source; dest] (exec env ["cp"; source; dest] fs).1)
      (exec env ["cp"; source; dest] fs).2
      (cp_events source dest (exec env ["cp"; source; dest] fs).1)
  else Outcome (Ret tt) fs [].
Proof.
  unfold favicon_copy. run_step. destruct (exists_ fs source); [|done].
  by destruct (exec env ["cp"; source; dest] fs) as [[] fs'].
Qed.

Lemma favicon_pack_run env fs :
  favicon_pack env fs =
  if exists_ fs icon16 && exists_ fs icon32 then
    match exec env favicon_ico_cmd fs with
    | (Succeeded, fs') =>
        Outcome (Ret tt) fs'
          [Spawn favicon_ico_cmd Succeeded; Print OK "Generated favicon.ico"]
    | (Failed, fs') =>
        Outcome (Ret tt) fs'
          [Spawn favicon_ico_cmd Failed;
           PrintExn FAIL "Failed to create favicon.ico"
             (CalledProcessError favicon_ico_cmd)]
    | (NotFound, fs') =>
        Outcome (Raise (FileNotFoundError "magick")) fs'
          [Spawn favicon_ico_cmd NotFound]
    end
  else Outcome (Ret tt) fs [].
Proof.
  unfold favicon_pack. run_step.
  destruct (exists_ fs icon16); [|done]. destruct (exists_ fs icon32); [|done].
  cbn [andb]. by destruct (exec env favicon_ico_cmd fs) as [[] fs'].
Qed.

Lemma exists_keeps {A} (m : M A) p fs :
  keeps p m → exists_ (fs_after (m fs)) p = exists_ fs p.
Proof. intros H. unfold exists_. by rewrite H. Qed.

Lemma keeps_favicon_copy env source dest p :
  p ≠ dest → p ≠ dest +:+ "/" +:+ basename source →
  keeps p (favicon_copy env source dest).
Proof.
  intros H1 H2. apply keeps_bind; [apply keeps_path_exists|].
  intros [|]; [|apply keeps_ret].
  apply keeps_bind; [|intros; apply keeps_print].
  by apply keeps_subprocess_run, exec_keeps_cp.
Qed.

Lemma keeps_favicon_pack env p : p ≠ "favicon.ico" → keeps p (favicon_pack env).
Proof.
  intros H. apply keeps_bind; [apply keeps_path_exists|]. intros has16.
  apply keeps_bind.
  { destruct has16; [apply keeps_path_exists|apply keeps_ret]. }
  intros [|]; [|apply keeps_ret].
  apply keeps_try_except.
  - apply keeps_bind; [|intros; apply keeps_print].
    apply keeps_subprocess_run. by eapply exec_keeps_magick.
  - intros [] k [=]; subst. apply keeps_print_exn.
Qed.

Lemma keeps_favicon_copies env p :
  p ∉ favicon_copy_targets →
  keeps p (favicon_copy env icon32 "favicon.png";;
           favicon_copy env icon16 "favicon-16x16.png";; mret tt).
Proof.
  unfold favicon_copy_targets. rewrite !not_elem_of_cons. intros (H1 & H2 & H3 & H4 & _).
  apply keeps_bind; [by apply keeps_favicon_copy|intros _].
  apply keeps_bind; [by apply keeps_favicon_copy|intros _]. apply keeps_ret.
Qed.

Lemma keeps_create_favicon_files env p :
  p ∉ "favicon.ico" :: favicon_copy_targets → keeps p (create_favicon_files env).
Proof.
  rewrite not_elem_of_cons. intros [H1 H2]. rewrite create_favicon_files_phases.
  apply keeps_bind; [apply keeps_print|intros _].
  apply keeps_bind; [by apply keeps_favicon_copies|intros _].
  by apply keeps_favicon_pack.
Qed.

Lemma exec_cp_succeeded env src dst fs fs' :
  exec env ["cp"; src; dst] fs = (Succeeded, fs') →
  ∃ c, fs !! src = Some (File c) ∧
       fs' = <[(if is_dir fs dst then dst +:+ "/" +:+ basename src else dst) := File c]> fs.
Proof.
  rewrite exec_cp. destruct (on_path env "cp"); [|done].
  unfold cp, read_file. destruct (fs !! src) as [[c|]|]; try done.
  intros H%write_output_succeeded. by exists c.
Qed.

(** One copy of the loop, by cases. *)
Lemma favicon_copy_cases env source dest fs :
  (exists_ fs source = false ∧
   favicon_copy env source dest fs = Outcome (Ret tt) fs []) ∨
  (exists_ fs source = true ∧ ∃ c,
   fs !! source = Some (File c) ∧
   favicon_copy env source dest fs =
     Outcome (Ret tt)
       (<[(if is_dir fs dest then dest +:+ "/" +:+ basename source else dest) := File c]> fs)
       [Spawn ["cp"; source; dest] Succeeded; Print OK ("Generated " +:+ dest)]) ∨
  (exists_ fs source = true ∧ ∃ st e fs',
   st ≠ Succeeded ∧
   favicon_copy env source dest fs =
     Outcome (Raise e) fs' [Spawn ["cp"; source; dest] st]).
Proof.
  rewrite favicon_copy_run. destruct (exists_ fs source); [|by left]. right.
  destruct (exec env ["cp"; source; dest] fs) as [[] fs'] eqn:Hexec; cbn.
  - right. split; [done|]. by eexists NotFound, _, _.
  - left. split; [done|]. apply exec_cp_succeeded in Hexec as (c & Hc & ->).
    by exists c.
  - right. split; [done|]. by eexists Failed, _, _.
Qed.

Lemma emits_favicon_copy (P : event → Prop) env source dest :
  (∀ st, P (Spawn ["cp"; source; dest] st)) → P (Print OK ("Generated " +:+ dest)) →
  emits P (favicon_copy env source dest).
Proof.
  intros H1 H2. apply emits_bind; [apply emits_path_exists|].
  intros [|]; [|apply emits_ret].
  apply emits_bind; [by apply emits_subprocess_run|intros _; by apply emits_print].
Qed.

Lemma emits_favicon_pack (P : event → Prop) env :
  (∀ st, P (Spawn favicon_ico_cmd st)) →
  (∀ e, is_print e → e ≠ completion → P e) →
  emits P (favicon_pack env).
Proof.
  intros H1 H2. apply emits_bind; [apply emits_path_exists|]. intros has16.
  apply emits_bind.
  { destruct has16; [apply emits_path_exists|apply emits_ret]. }
  intros [|]; [|apply emits_ret].
  apply emits_try_except.
  - apply emits_bind; [by apply emits_subprocess_run|].
    intros _. by apply emits_print, H2.
  - intros [] k [=]; subst. by apply emits_print_exn, H2.
Qed.

Lemma emits_create_favicon_files (P : event → Prop) env :
  (∀ st, P (Spawn cp32 st)) → (∀ st, P (Spawn cp16 st)) →
  (∀ st, P (Spawn favicon_ico_cmd st)) →
  (∀ e, is_print e → e ≠ completion → P e) →
  emits P (create_favicon_files env).
Proof.
  intros H1 H2 H3 H4. rewrite create_favicon_files_phases.
  apply emits_bind; [by apply emits_print, H4|intros _].
  apply emits_bind; [|intros _; by apply emits_favicon_pack].
  apply emits_bind; [apply emits_favicon_copy; [done|by apply H4]|intros _].
  apply emits_bind; [apply emits_favicon_copy; [done|by apply H4]|intros _].
  apply emits_ret.
Qed.

Lemma copied_lookup_ne fs src dst p :
  p ≠ dst → p ≠ dst +:+ "/" +:+ basename src → copied fs src dst !! p = fs !! p.
Proof.
  intros H1 H2. unfold copied, copy_target.
  repeat case_match; try done; by rewrite lookup_insert_ne.
Qed.

Lemma favicon_copy_returns_or_raises env source dest fs :
  (fs !! source ≠ Some Dir ∧
   favicon_copy env source dest fs =
     Outcome (Ret tt) (copied fs source dest) (copy_ok_events fs source dest)) ∨
  (∃ st e fs', st ≠ Succeeded ∧
   favicon_copy env source dest fs =
     Outcome (Raise e) fs' [Spawn ["cp"; source; dest] st]).
Proof.
  destruct (favicon_copy_cases env source dest fs)
    as [[Hex ->]|[(Hex & c & Hc & ->)|(Hex & st & e & fs' & Hst & ->)]].
  - left. unfold copy_ok_events. rewrite Hex.
    unfold exists_ in Hex. apply bool_decide_eq_false in Hex.
    assert (fs !! source = None) as Hnone.
    { destruct (fs !! source) eqn:E; [|done]. by destruct Hex. }
    unfold copied. by rewrite Hnone.
  - left. unfold copy_ok_events. rewrite Hex.
    unfold copied, copy_target. rewrite Hc. done.
  - right. by exists st, e, fs'.
Qed.

Ltac solve_events :=
  repeat first
    [ apply Forall_nil_2
    | apply Forall_app; split
    | apply Forall_cons; split;
        [solve [ by left | right; by left | right; by right
               | right; eexists; by left | right; eexists; by right ]|] ].

Lemma create_favicon_files_cases env fs :
  (∃ e st args ev fs',
     create_favicon_files env fs = Outcome (Raise e) fs' ev ∧
     st ≠ Succeeded ∧ Spawn ("cp" :: args) st ∈ ev ∧
     Forall (λ e, is_print e ∨ cp_spawn e) ev) ∨
  (∃ ev,
     create_favicon_files env fs =
       prepend ev
         (favicon_pack env
            (copied (copied fs icon32 "favicon.png") icon16 "favicon-16x16.png")) ∧
     Forall (λ e, is_print e ∨ e = Spawn cp32 Succeeded ∨ e = Spawn cp16 Succeeded) ev ∧
     (is_Some (fs !! icon32) →
      Spawn cp32 Succeeded ∈ ev ∧ ∃ c, fs !! icon32 = Some (File c)) ∧
     (is_Some (fs !! icon16) →
      Spawn cp16 Succeeded ∈ ev ∧ ∃ c, fs !! icon16 = Some (File c))).
Proof.
  rewrite create_favicon_files_phases.
  erewrite bind_outcome by reflexivity. cbv iota.
  rewrite (bind_run (_ ≫= _)), (bind_run (favicon_copy env icon32 "favicon.png")).
  destruct (favicon_copy_returns_or_raises env icon32 "favicon.png" fs)
    as [[H32 ->]|(st & e & fs' & Hst & ->)]; cbn [result fs_after events].
  2:{ left. eexists e, st, [icon32; "favicon.png"], _, fs'.
      split; [reflexivity|]. split; [done|]. split.
      - right; left.
      - solve_events. }
  rewrite (bind_run (favicon_copy env icon16 "favicon-16x16.png")).
  set (fs1 := copied fs icon32 "favicon.png").
  assert (fs1 !! icon16 = fs !! icon16) as H16eq by by apply copied_lookup_ne.
  destruct (favicon_copy_returns_or_raises env icon16 "favicon-16x16.png" fs1)
    as [[H16 ->]|(st & e & fs' & Hst & ->)]; cbn [result fs_after events].
  2:{ left. eexists e, st, [icon16; "favicon-16x16.png"], _, fs'.
      split; [reflexivity|]. split; [done|]. split.
      - cbn. rewrite !elem_of_cons, !elem_of_app, !elem_of_cons.
        right. right. by left.
      - cbn. unfold copy_ok_events. destruct (exists_ fs icon32); solve_events. }
  right.
  exists (Print WORK "Creating favicon files..." ::
          copy_ok_events fs icon32 "favicon.png" ++
          copy_ok_events fs1 icon16 "favicon-16x16.png").
  split; [|split; [|split]].
  - unfold prepend. cbn [result fs_after events mret M_ret ret app].
    by rewrite app_nil_r.
  - unfold copy_ok_events.
    destruct (exists_ fs icon32), (exists_ fs1 icon16); solve_events.
  - intros Hsome. unfold copy_ok_events.
    assert (exists_ fs icon32 = true) as ->.
    { unfold exists_. by apply bool_decide_eq_true. }
    split; [cbn; right; left|].
    destruct Hsome as [[c|] Hn]; [by exists c|done].
  - intros Hsome. unfold copy_ok_events.
    assert (exists_ fs1 icon16 = true) as ->.
    { unfold exists_. apply bool_decide_eq_true. by rewrite H16eq. }
    split.
    + rewrite !elem_of_cons, !elem_of_app, !elem_of_cons.
      right. right. by left.
    + rewrite H16eq in H16. destruct Hsome as [[c|] Hn]; [by exists c|done].
Qed.

Ltac by_compute := apply (bool_decide_unpack _); vm_compute; exact I.

Lemma copied_twice_lookup fs p :
  p ∉ favicon_copy_targets →
  copied (copied fs icon32 "favicon.png") icon16 "favicon-16x16.png" !! p = fs !! p.
Proof.
  unfold favicon_copy_targets. rewrite !not_elem_of_cons.
  intros (H1 & H2 & H3 & H4 & _). by rewrite !copied_lookup_ne.
Qed.

Lemma not_ico_spawn_in_copies ev st :
  Forall (λ e, is_print e ∨ cp_spawn e) ev → Spawn favicon_ico_cmd st ∉ ev.
Proof.
  intros Hall Hin. rewrite Forall_forall in Hall.
  destruct (Hall _ Hin) as [[]|(st' & [[=]|[=]])].
Qed.

Lemma copies_ok_weaken ev :
  Forall (λ e, is_print e ∨ e = Spawn cp32 Succeeded ∨ e = Spawn cp16 Succeeded) ev →
  Forall (λ e, is_print e ∨ cp_spawn e) ev.
Proof.
  intros Hall. eapply Forall_impl; [exact Hall|].
  intros e [H|[->| ->]]; [by left|right..];
    exists Succeeded; [by left|by right].
Qed.

Lemma exec_favicon_ico env fs :
  exec env favicon_ico_cmd fs =
  if on_path env "magick"
  then magick_pack env [icon16; icon32] "favicon.ico" fs
  else (NotFound, fs).
Proof.
  apply (exec_pack env [icon16; icon32] "favicon.ico"); [|done].
  rewrite !elem_of_cons, elem_of_nil. intros [[=]|[[=]|[]]].
Qed.

Lemma copied_lookup_target fs src dst c :
  fs !! src = Some (File c) → fs !! dst ≠ Some Dir →
  copied fs src dst !! dst = Some (File c).
Proof.
  intros Hsrc Hdst. unfold copied, copy_target, is_dir. rewrite Hsrc.
  rewrite bool_decide_false by done. apply lookup_insert_eq.
Qed.

(** ** The macOS bundle assembler *)

Lemma create_icns_file_on_mac env :
  platform env = "darwin" →
  create_icns_file env =
  (mkdir_exist_ok iconset_dir;;
   print WORK "Creating .icns file...";;
   icns_copies env;;
   icns_bundle env).
Proof.
  intros H. unfold create_icns_file. rewrite bool_decide_false; [done|].
  by intros [].
Qed.

Lemma icns_bundle_run env fs :
  icns_bundle env fs =
  match exec env iconutil_cmd fs with
  | (Succeeded, fs') =>
      match exec env rm_cmd fs' with
      | (Succeeded, fs'') =>
          Outcome (Ret true) fs''
            [Spawn iconutil_cmd Succeeded; Print OK "Generated icons/prestige-ai.icns";
             Spawn rm_cmd Succeeded]
      | (Failed, fs'') =>
          Outcome (Ret false) fs''
            [Spawn iconutil_cmd Succeeded; Print OK "Generated icons/prestige-ai.icns";
             Spawn rm_cmd Failed;
             PrintExn FAIL "Failed to create .icns file" (CalledProcessError rm_cmd)]
      | (NotFound, fs'') =>
          Outcome (Raise (FileNotFoundError "rm")) fs''
            [Spawn iconutil_cmd Succeeded; Print OK "Generated icons/prestige-ai.icns";
             Spawn rm_cmd NotFound]
      end
  | (Failed, fs') =>
      Outcome (Ret false) fs'
        [Spawn iconutil_cmd Failed;
         PrintExn FAIL "Failed to create .icns file" (CalledProcessError iconutil_cmd)]
  | (NotFound, fs') =>
      Outcome (Raise (FileNotFoundError "iconutil")) fs' [Spawn iconutil_cmd NotFound]
  end.
Proof.
  unfold icns_bundle. run_step.
  destruct (exec env iconutil_cmd fs) as [[] fs']; try done.
  by destruct (exec env rm_cmd fs') as [[] fs''].
Qed.

Lemma exec_iconutil_not_succeeded env dir fs :
  (exec env ["iconutil"; "-c"; "icns"; dir] fs).1 ≠ Succeeded →
  (exec env ["iconutil"; "-c"; "icns"; dir] fs).2 = fs.
Proof.
  rewrite exec_iconutil. destruct (on_path env "iconutil"); [|done].
  unfold iconutil_c_icns, write_output. by repeat case_match.
Qed.

Lemma iconset_entry_ne filename : iconset_dir ≠ iconset_dir +:+ "/" +:+ filename.
Proof. cbn. discriminate. Qed.

Lemma iconset_entry_ne' filename s :
  iconset_dir ≠ (iconset_dir +:+ "/" +:+ filename) +:+ "/" +:+ s.
Proof. cbn. discriminate. Qed.

Lemma keeps_icns_copies env : keeps iconset_dir (icns_copies env).
Proof.
  apply keeps_for_. intros [size filenames] _.
  apply keeps_bind; [apply keeps_path_exists|]. intros [|]; [|apply keeps_ret].
  apply keeps_for_. intros filename _.
  apply keeps_subprocess_run, exec_keeps_cp.
  - apply iconset_entry_ne.
  - apply iconset_entry_ne'.
Qed.

Lemma emits_icns_copies env : emits is_cp_spawn (icns_copies env).
Proof.
  apply emits_for_. intros [size filenames] _.
  apply emits_bind; [apply emits_path_exists|]. intros [|]; [|apply emits_ret].
  apply emits_for_. intros filename _. by apply emits_subprocess_run.
Qed.

Lemma mkdir_returns p fs :
  result (mkdir_exist_ok p fs) = Ret tt →
  fs_after (mkdir_exist_ok p fs) !! p = Some Dir.
Proof.
  unfold mkdir_exist_ok.
  repeat case_match; cbn; try done; intros _; apply lookup_insert_eq.
Qed.

Lemma mkdir_events p fs : events (mkdir_exist_ok p fs) = [Mkdir p].
Proof. unfold mkdir_exist_ok. by repeat case_match. Qed.

(** When the bundler exits with a non-zero status the assembler returns
    [False] and the staging directory is still there: the cleanup sits
    inside the [try] block, after the bundler call, and the handler does not
    repeat it. *)
Lemma create_icns_file_bundler_failure env fs :
  platform env = "darwin" →
  Spawn iconutil_cmd Failed ∈ events (create_icns_file env fs) →
  result (create_icns_file env fs) = Ret false ∧
  fs_after (create_icns_file env fs) !! iconset_dir = Some Dir ∧
  ∀ st, Spawn rm_cmd st ∉ events (create_icns_file env fs).
Proof.
  intros Hmac. rewrite (create_icns_file_on_mac _ Hmac).
  rewrite bind_run, mkdir_events.
  destruct (result (mkdir_exist_ok iconset_dir fs)) as [[]|e] eqn:Hmk.
  2:{ cbn. intros Hin. apply list_elem_of_singleton in Hin. discriminate. }
  apply mkdir_returns in Hmk. set (fs1 := fs_after (mkdir_exist_ok iconset_dir fs)) in *.
  erewrite bind_outcome by reflexivity. cbv iota.
  rewrite bind_run.
  pose proof (emits_icns_copies env fs1) as Hcp. rewrite Forall_forall in Hcp.
  pose proof (keeps_icns_copies env fs1) as Hkeep.
  set (o2 := icns_copies env fs1) in *.
  assert (∀ st post,
            Spawn iconutil_cmd st ∈ [Mkdir iconset_dir] ++
              [Print WORK "Creating .icns file..."] ++ events o2 ++ post →
            Spawn iconutil_cmd st ∈ post) as Hpost.
  { intros st post. rewrite !elem_of_app, !list_elem_of_singleton.
    intros [[=]|[[=]|[Hin|Hin]]]; [by destruct (Hcp _ Hin)|done]. }
  assert (∀ st post,
            Spawn rm_cmd st ∈ [Mkdir iconset_dir] ++
              [Print WORK "Creating .icns file..."] ++ events o2 ++ post →
            Spawn rm_cmd st ∈ post) as Hpost'.
  { intros st post. rewrite !elem_of_app, !list_elem_of_singleton.
    intros [[=]|[[=]|[Hin|Hin]]]; [by destruct (Hcp _ Hin)|done]. }
  destruct (result o2) as [[]|e].
  2:{ cbn [prepend events]. intros Hin.
      rewrite <- (app_nil_r (events o2)) in Hin. by apply Hpost, elem_of_nil in Hin. }
  rewrite icns_bundle_run.
  pose proof (exec_iconutil_not_succeeded env iconset_dir (fs_after o2)) as Hfail.
  fold iconutil_cmd in Hfail.
  destruct (exec env iconutil_cmd (fs_after o2)) as [[] fs3]; cbn [fst snd] in Hfail.
  - cbn [prepend events]. intros Hin%Hpost.
    apply list_elem_of_singleton in Hin. discriminate.
  - destruct (exec env rm_cmd fs3) as [[] fs4]; cbn [prepend events];
      intros Hin%Hpost; exfalso; revert Hin; by_compute.
  - intros _. cbn [prepend events result fs_after].
    rewrite Hfail by done. split; [done|]. split; [congruence|].
    intros st Hin%Hpost'. revert Hin.
    rewrite !elem_of_cons, elem_of_nil. by intros [[=]|[[=]|[]]].
Qed.

(** ** Frames and traces of the pipeline stages *)

Lemma prefix_app s t : String.prefix s (s +:+ t) = true.
Proof.
  induction s as [|c s IH]; [by destruct t|].
  change (String c s +:+ t) with (String c (s +:+ t)). cbn [String.prefix].
  by destruct (ascii_dec c c).
Qed.

Lemma string_app_assoc (a b c : string) : a +:+ b +:+ c = (a +:+ b) +:+ c.
Proof.
  induction a as [|x a IH]; [done|].
  change (String x (a +:+ b +:+ c) = String x ((a +:+ b) +:+ c)). by rewrite IH.
Qed.

Lemma under_entry d rest : under d (d +:+ "/" +:+ rest) = true.
Proof. unfold under. rewrite string_app_assoc. apply prefix_app. Qed.

Lemma not_under_ne d p rest : under d p = false → p ≠ d +:+ "/" +:+ rest.
Proof. intros H ->. by rewrite under_entry in H. Qed.

Lemma keeps_check_dependencies env p : keeps p (check_dependencies env).
Proof.
  intros fs. destruct (check_dependencies_run env fs) as (ev & -> & _). done.
Qed.

Lemma keeps_create_directories p : p ∉ output_dirs → keeps p create_directories.
Proof.
  intros H. apply keeps_for_. intros d Hd. apply keeps_mkdir. by intros ->.
Qed.

Lemma keeps_generate_png_sizes_for env l p :
  p ∉ png_path <$> l → keeps p (generate_png_sizes_for env l).
Proof.
  intros H. apply keeps_bind; [apply keeps_path_exists|]. intros found.
  destruct (negb found).
  { apply keeps_bind; [apply keeps_print|intros; apply keeps_ret]. }
  apply keeps_bind; [apply keeps_print|intros _].
  apply keeps_bind; [|by intros [|]; apply keeps_ret].
  apply keeps_for_ret. intros size Hsize. apply keeps_try_except.
  - apply keeps_bind; [|intros _; apply keeps_bind;
                         [apply keeps_print|intros; apply keeps_ret]].
    apply keeps_subprocess_run, exec_keeps_raster_cmd.
    intros ->. apply H, list_elem_of_fmap. by exists size.
  - intros [] k [=]; subst.
    apply keeps_bind; [apply keeps_print_exn|intros; apply keeps_ret].
Qed.

Lemma keeps_icns_bundle env p :
  p ≠ iconset_dir → under iconset_dir p = false → p ≠ "icons/prestige-ai.icns" →
  keeps p (icns_bundle env).
Proof.
  intros H1 H2 H3. apply keeps_try_except.
  - apply keeps_bind.
    { apply keeps_subprocess_run, exec_keeps_iconutil. by intros stem [= <-]. }
    intros _. apply keeps_bind; [apply keeps_print|intros _].
    apply keeps_bind; [|intros; apply keeps_ret].
    by apply keeps_subprocess_run, exec_keeps_rm_rf.
  - intros [] k [=]; subst.
    apply keeps_bind; [apply keeps_print_exn|intros; apply keeps_ret].
Qed.

Lemma keeps_icns_copies_outside env p :
  under iconset_dir p = false → keeps p (icns_copies env).
Proof.
  intros H. apply keeps_for_. intros [size filenames] _.
  apply keeps_bind; [apply keeps_path_exists|]. intros [|]; [|apply keeps_ret].
  apply keeps_for_. intros filename _.
  apply keeps_subprocess_run, exec_keeps_cp.
  - by apply not_under_ne.
  - rewrite <- !string_app_assoc. by apply not_under_ne.
Qed.

Lemma keeps_create_icns_file env p :
  p ≠ iconset_dir → under iconset_dir p = false → p ≠ "icons/prestige-ai.icns" →
  keeps p (create_icns_file env).
Proof.
  intros H1 H2 H3. unfold create_icns_file. case_bool_decide.
  { apply keeps_bind; [apply keeps_print|intros; apply keeps_ret]. }
  apply keeps_bind; [by apply keeps_mkdir|intros _].
  apply keeps_bind; [apply keeps_print|intros _].
  apply keeps_bind; [by apply keeps_icns_copies_outside|intros _].
  by apply keeps_icns_bundle.
Qed.

Lemma keeps_create_ico_file env p : p ≠ ico_file → keeps p (create_ico_file env).
Proof.
  intros H. apply keeps_bind; [apply keeps_existing|]. intros files.
  case_bool_decide.
  { apply keeps_bind; [apply keeps_print|intros; apply keeps_ret]. }
  apply keeps_bind; [apply keeps_print|intros _].
  apply keeps_try_except.
  - apply keeps_bind; [|intros _; apply keeps_bind;
                         [apply keeps_print|intros; apply keeps_ret]].
    apply keeps_subprocess_run.
    eapply exec_keeps_magick; [apply split_last_snoc|done].
  - intros [] k [=]; subst.
    apply keeps_bind; [apply keeps_print_exn|intros; apply keeps_ret].
Qed.

Lemma keeps_update_electron_config p :
  p ≠ "electron-build-config.txt" → keeps p update_electron_config.
Proof.
  intros H. apply keeps_bind; [apply keeps_print|intros _].
  apply keeps_bind; [by apply keeps_open_write|intros; apply keeps_print].
Qed.

Lemma keeps_print_summary p : keeps p print_summary.
Proof. by intros fs. Qed.

Lemma keeps_main_tail env p : tail_untouched p → keeps p (main_tail env).
Proof.
  intros (H1 & H2 & H3 & H4 & H5 & H6).
  apply keeps_bind; [by apply keeps_create_icns_file|intros _].
  apply keeps_bind; [by apply keeps_create_ico_file|intros _].
  apply keeps_bind; [by apply keeps_create_favicon_files|intros _].
  apply keeps_bind; [by apply keeps_update_electron_config|intros _].
  apply keeps_print_summary.
Qed.

Lemma tail_untouched_png size : size ∈ sizes → tail_untouched (png_path size).
Proof.
  unfold sizes. rewrite !elem_of_cons, elem_of_nil.
  intros [->|[->|[->|[->|[->|[->|[->|[->|[]]]]]]]]];
    repeat split; by_compute.
Qed.

Lemma tail_untouched_svg : tail_untouched svg_file.
Proof. repeat split; by_compute. Qed.

Lemma raster_cmd_last size : last (raster_cmd size) = Some (png_path size).
Proof. reflexivity. Qed.

Lemma aside_spawn_by_last argv out st :
  last argv = Some out → (∀ size, out ≠ png_path size) → aside (Spawn argv st).
Proof.
  intros Hlast Hout size ->. rewrite raster_cmd_last in Hlast.
  injection Hlast as <-. by apply (Hout size).
Qed.

Lemma not_png_path (p : string) :
  String.prefix "icons/png/icon-" p = false → ∀ size, p ≠ png_path size.
Proof.
  intros H size ->. unfold png_path in H. by rewrite prefix_app in H.
Qed.

Lemma emits_aside_check_dependencies env : emits aside (check_dependencies env).
Proof.
  apply emits_bind.
  - apply emits_for_acc. intros [tool info] missing _.
    assert (∀ st, aside (Spawn [tool; "--version"] st)) as Hprobe.
    { intros st. eapply aside_spawn_by_last; [done|]. by apply not_png_path. }
    apply emits_try_except.
    + apply emits_bind; [by apply emits_subprocess_run|intros _].
      apply emits_bind; [by apply emits_print|intros; apply emits_ret].
    + intros [] k [=]; subst; case_match;
        try apply emits_ret;
        (apply emits_bind; [by apply emits_print|intros; apply emits_ret]).
  - intros missing. case_bool_decide; [|apply emits_ret].
    apply emits_bind; [by apply emits_print_after_blank|intros _].
    apply emits_bind; [|intros; apply emits_ret].
    apply emits_for_. intros tool _. by apply emits_print.
Qed.

Lemma emits_aside_create_directories : emits aside create_directories.
Proof. apply emits_for_. intros d _. by apply emits_mkdir. Qed.

Lemma emits_not_completion_generate env l :
  emits (λ e, e ≠ completion) (generate_png_sizes_for env l).
Proof.
  apply emits_bind; [apply emits_path_exists|]. intros found.
  destruct (negb found).
  { apply emits_bind; [by apply emits_print|intros; apply emits_ret]. }
  apply emits_bind; [by apply emits_print|intros _].
  apply emits_bind; [|by intros [|]; apply emits_ret].
  apply emits_for_ret. intros size Hsize. apply emits_try_except.
  - apply emits_bind; [by apply emits_subprocess_run|intros _].
    apply emits_bind; [by apply emits_print|intros; apply emits_ret].
  - intros [] k [=]; subst.
    apply emits_bind; [by apply emits_print_exn|intros; apply emits_ret].
Qed.

Lemma emits_aside_create_icns_file env : emits aside (create_icns_file env).
Proof.
  unfold create_icns_file. case_bool_decide.
  { apply emits_bind; [by apply emits_print|intros; apply emits_ret]. }
  apply emits_bind; [by apply emits_mkdir|intros _].
  apply emits_bind; [by apply emits_print|intros _].
  apply emits_bind.
  - apply emits_for_. intros [size filenames] _.
    apply emits_bind; [apply emits_path_exists|]. intros [|]; [|apply emits_ret].
    apply emits_for_. intros filename _. apply emits_subprocess_run. intros st.
    eapply aside_spawn_by_last; [done|]. apply not_png_path.
    unfold iconset_dir. by vm_compute.
  - intros _. apply emits_try_except.
    + apply emits_bind.
      { apply emits_subprocess_run. intros st.
        eapply aside_spawn_by_last; [done|]. by apply not_png_path. }
      intros _. apply emits_bind; [by apply emits_print|intros _].
      apply emits_bind; [|intros; apply emits_ret].
      apply emits_subprocess_run. intros st.
      eapply aside_spawn_by_last; [done|]. by apply not_png_path.
    + intros [] k [=]; subst.
      apply emits_bind; [by apply emits_print_exn|intros; apply emits_ret].
Qed.

Lemma emits_aside_create_ico_file env : emits aside (create_ico_file env).
Proof.
  apply emits_bind; [apply emits_existing|]. intros files.
  case_bool_decide.
  { apply emits_bind; [by apply emits_print|intros; apply emits_ret]. }
  apply emits_bind; [by apply emits_print|intros _].
  apply emits_try_except.
  - apply emits_bind; [|intros _; apply emits_bind;
                         [by apply emits_print|intros; apply emits_ret]].
    apply emits_subprocess_run. intros st.
    eapply (aside_spawn_by_last _ ico_file).
    + change (["magick"] ++ files ++ ["icons/prestige-ai.ico"])
        with (("magick" :: files) ++ [ico_file]). apply last_snoc.
    + by apply not_png_path.
  - intros [] k [=]; subst.
    apply emits_bind; [by apply emits_print_exn|intros; apply emits_ret].
Qed.

Lemma emits_aside_create_favicon_files env : emits aside (create_favicon_files env).
Proof.
  apply emits_create_favicon_files.
  - intros st. eapply aside_spawn_by_last; [done|]. by apply not_png_path.
  - intros st. eapply aside_spawn_by_last; [done|]. by apply not_png_path.
  - intros st. eapply aside_spawn_by_last; [done|]. by apply not_png_path.
  - by intros [].
Qed.

Lemma emits_aside_update_electron_config : emits aside update_electron_config.
Proof.
  apply emits_bind; [by apply emits_print|intros _].
  apply emits_bind; [by apply emits_open_write|intros; by apply emits_print].
Qed.

(** ** The shape of a run of [main] *)

Lemma emits_aside_main_tail_steps env fs :
  ∀ e, e ∈ events (main_tail env fs) →
       (∀ size st, e ≠ Spawn (raster_cmd size) st).
Proof.
  assert (emits (λ e, ∀ size st, e ≠ Spawn (raster_cmd size) st) (main_tail env)) as H.
  { assert (∀ e, aside e → ∀ size st, e ≠ Spawn (raster_cmd size) st) as Hweak.
    { intros e He size st ->. by apply (He size). }
    assert (∀ A (m : M A), emits aside m →
              emits (λ e, ∀ size st, e ≠ Spawn (raster_cmd size) st) m) as Hlift.
    { intros A m Hm fs'. eapply Forall_impl; [apply Hm|done]. }
    apply emits_bind; [apply Hlift, emits_aside_create_icns_file|intros _].
    apply emits_bind; [apply Hlift, emits_aside_create_ico_file|intros _].
    apply emits_bind; [apply Hlift, emits_aside_create_favicon_files|intros _].
    apply emits_bind; [apply Hlift, emits_aside_update_electron_config|intros _].
    intros fs'. cbn. repeat constructor; by intros. }
  intros e He. specialize (H fs). rewrite Forall_forall in H. by apply H.
Qed.

Lemma banner_aside : Forall aside banner.
Proof. by repeat constructor. Qed.

Lemma main_cases env fs :
  (Forall aside (events (main env fs))) ∨
  (∃ ev0 fs0,
     Forall aside ev0 ∧ fs0 !! svg_file = fs !! svg_file ∧
     ((result (generate_png_sizes env fs0) ≠ Ret true ∧
       ∃ ev1, Forall aside ev1 ∧
         events (main env fs) = ev0 ++ events (generate_png_sizes env fs0) ++ ev1 ∧
         fs_after (main env fs) = fs_after (generate_png_sizes env fs0)) ∨
      (result (generate_png_sizes env fs0) = Ret true ∧
       main env fs =
         prepend (ev0 ++ events (generate_png_sizes env fs0))
           (main_tail env (fs_after (generate_png_sizes env fs0)))))).
Proof.
  destruct (check_dependencies_run env fs) as (ev' & Heq & _).
  set (ev := Spawn ["magick"; "--version"] (probe_status env "magick") :: ev') in *.
  pose proof (emits_aside_check_dependencies env fs) as Hev.
  rewrite Heq in Hev. cbn [events] in Hev.
  destruct (available env "magick" &&
            (available env "iconutil" || bool_decide (platform env ≠ "darwin"))).
  2:{ left. rewrite (main_without_dependencies _ _ _ Heq). cbn [events].
      apply Forall_app. split; [apply banner_aside|].
      apply Forall_app. split; [done|]. by repeat constructor. }
  rewrite (main_with_dependencies _ _ _ Heq).
  rewrite bind_run.
  pose proof (emits_aside_create_directories fs) as Hd.
  assert (fs_after (create_directories fs) !! svg_file = fs !! svg_file) as Hsvg.
  { apply keeps_create_directories. by_compute. }
  destruct (result (create_directories fs)) as [[]|e].
  2:{ left. cbn [prepend events].
      apply Forall_app. split; [|done].
      apply Forall_app. split; [apply banner_aside|done]. }
  right. exists ((banner ++ ev) ++ events (create_directories fs)),
               (fs_after (create_directories fs)).
  split; [|split; [done|]].
  { apply Forall_app. split; [|done].
    apply Forall_app. split; [apply banner_aside|done]. }
  rewrite bind_run.
  destruct (result (generate_png_sizes env (fs_after (create_directories fs))))
    as [[|]|e] eqn:Hg.
  - right. split; [done|]. cbn [negb]. fold (main_tail env).
    by rewrite !prepend_prepend.
  - left. split; [done|]. exists [Print FAIL "Failed to generate PNG files"].
    split; [by repeat constructor|]. cbn [negb prepend events fs_after print emit].
    split; [|done]. by rewrite <- !app_assoc.
  - left. split; [done|]. exists []. split; [constructor|].
    cbn [prepend events fs_after]. split; [|done]. by rewrite app_nil_r, <- !app_assoc.
Qed.

(** ** Which rasters a run generates *)

Lemma aside_not_generated ev size :
  Forall aside ev → Spawn (raster_cmd size) Succeeded ∉ ev.
Proof.
  intros Hall Hin. rewrite Forall_forall in Hall. by apply (Hall _ Hin size).
Qed.

Lemma aside_not_completion ev : Forall aside ev → completion ∉ ev.
Proof. intros Hall Hin. rewrite Forall_forall in Hall. by apply (Hall _ Hin). Qed.

Lemma raster_ok_events_elem size l :
  size ∈ l → Spawn (raster_cmd size) Succeeded ∈ concat (raster_ok_events <$> l).
Proof.
  induction l as [|s l IH]; [by intros ?%elem_of_nil|].
  intros [->|Hin]%elem_of_cons; cbn; [left|]. right. right. by apply IH.
Qed.

Lemma generated_in_raster_stage env l fs size :
  generated (generate_png_sizes_for env l fs) size →
  size ∈ l ∧
  ∃ png, rasterized env fs size png ∧
         fs_after (generate_png_sizes_for env l fs) !! png_path size = Some (File png).
Proof.
  unfold generated. destruct (fs !! svg_file) as [n|] eqn:Hsvg.
  2:{ rewrite generate_png_sizes_for_no_svg by done. cbn.
      intros Hin%list_elem_of_singleton. discriminate. }
  destruct (generate_png_sizes_for_cases env l fs) as
    (pre & post & -> & [Hframe Hfiles] & Hcases); [by rewrite Hsvg|].
  assert (Spawn (raster_cmd size) Succeeded ∈ concat (raster_ok_events <$> pre) →
          size ∈ pre) as Hin_pre.
  { intros (s & Hs & [Heq|[=]])%elem_of_raster_ok_events.
    assert (size = s) as -> by (apply (inj raster_cmd); congruence). done. }
  intros Hin. assert (size ∈ pre) as Hsize.
  { destruct Hcases as [(-> & Hr & He)|[(s & post' & -> & Hr & He)|(s & post' & -> & Hr & He)]];
      rewrite He in Hin; apply elem_of_cons in Hin as [[=]|Hin]; [by apply Hin_pre|..];
      (apply elem_of_app in Hin as [Hin|Hin]; [by apply Hin_pre|]);
      exfalso; revert Hin; unfold raster_failed_events;
      rewrite ?elem_of_cons, elem_of_nil; intros Hin; decompose [or] Hin;
      congruence. }
  split; [apply elem_of_app; by left|]. by apply Hfiles.
Qed.

Lemma raster_stage_generates_all env l fs :
  result (generate_png_sizes_for env l fs) = Ret true →
  ∀ size, size ∈ l → generated (generate_png_sizes_for env l fs) size.
Proof.
  unfold generated. destruct (fs !! svg_file) as [n|] eqn:Hsvg.
  2:{ by rewrite generate_png_sizes_for_no_svg by done. }
  destruct (generate_png_sizes_for_cases env l fs) as
    (pre & post & -> & _ & Hcases); [by rewrite Hsvg|].
  destruct Hcases as [(-> & Hr & He)|[(s & post' & -> & Hr & He)|(s & post' & -> & Hr & He)]];
    rewrite Hr; [|done..].
  intros _ size Hsize. rewrite He. right. apply raster_ok_events_elem.
  by rewrite app_nil_r in Hsize.
Qed.

Lemma rasterized_same_svg env fs fs' size png :
  fs !! svg_file = fs' !! svg_file →
  rasterized env fs size png → rasterized env fs' size png.
Proof. intros H (svg & H1 & H2). exists svg. by rewrite <- H. Qed.

(** What one run leaves for a size it generated. *)
Lemma generated_png_in_final_fs env fs size :
  generated (main env fs) size →
  size ∈ sizes ∧
  ∃ png, rasterized env fs size png ∧
         fs_after (main env fs) !! png_path size = Some (File png).
Proof.
  unfold generated.
  destruct (main_cases env fs)
    as [Hall|(ev0 & fs0 & Hev0 & Hsvg & [(Hr & ev1 & Hev1 & He & Hfs)|(Hr & Heq)])].
  - intros Hin. by destruct (aside_not_generated _ size Hall).
  - rewrite He, Hfs, !elem_of_app.
    intros [Hin|[Hin|Hin]];
      [by destruct (aside_not_generated _ size Hev0)| |
       by destruct (aside_not_generated _ size Hev1)].
    destruct (generated_in_raster_stage env sizes fs0 size Hin)
      as (Hsize & png & Hpng & Hfile).
    split; [done|]. exists png. split; [|done].
    by eapply rasterized_same_svg.
  - rewrite Heq. cbn [prepend events fs_after]. rewrite !elem_of_app.
    intros [[Hin|Hin]|Hin];
      [by destruct (aside_not_generated _ size Hev0)| |
       by destruct (emits_aside_main_tail_steps env _ _ Hin size Succeeded)].
    destruct (generated_in_raster_stage env sizes fs0 size Hin)
      as (Hsize & png & Hpng & Hfile).
    split; [done|]. exists png. split; [by eapply rasterized_same_svg|].
    rewrite keeps_main_tail by by apply tail_untouched_png. done.
Qed.

(** A run that reaches the completion line generated every size. *)
Lemma completes_generates_all env fs :
  completes (main env fs) → ∀ size, size ∈ sizes → generated (main env fs) size.
Proof.
  unfold completes, generated.
  destruct (main_cases env fs)
    as [Hall|(ev0 & fs0 & Hev0 & Hsvg & [(Hr & ev1 & Hev1 & He & Hfs)|(Hr & Heq)])].
  - intros Hin. by destruct (aside_not_completion _ Hall).
  - rewrite He, !elem_of_app.
    intros [Hin|[Hin|Hin]];
      [by destruct (aside_not_completion _ Hev0)| |
       by destruct (aside_not_completion _ Hev1)].
    pose proof (emits_not_completion_generate env sizes fs0) as Hg.
    rewrite Forall_forall in Hg. by destruct (Hg _ Hin).
  - intros _ size Hsize. rewrite Heq. cbn [prepend events].
    apply elem_of_app. left. apply elem_of_app. right.
    by apply raster_stage_generates_all.
Qed.

(** C10. Two runs of the pipeline on the same host (the tools are
    functions of their inputs) whose source images are the same produce the
    same PNG outputs, whatever else differs between the directories they
    start in: a size that both runs generate ends with the same bytes at
    [icons/png/icon-{size}x{size}.png] in both, namely the rasterization of
    the source at that size; only configured sizes are ever generated; and
    when both runs go through to completion, both generate every configured
    size, so the two sets of generated files coincide. *)
Theorem png_outputs_deterministic env fs fs' :
  fs !! svg_file = fs' !! svg_file →
  (∀ size, generated (main env fs) size → generated (main env fs') size →
     size ∈ sizes ∧
     ∃ png, rasterized env fs size png ∧
            fs_after (main env fs) !! png_path size = Some (File png) ∧
            fs_after (main env fs') !! png_path size = Some (File png)) ∧
  (completes (main env fs) → completes (main env fs') →
   ∀ size, size ∈ sizes →
     generated (main env fs) size ∧ generated (main env fs') size ∧
     fs_after (main env fs) !! png_path size =
       fs_after (main env fs') !! png_path size).
Proof.
  intros Hsvg.
  assert (∀ size, generated (main env fs) size → generated (main env fs') size →
     size ∈ sizes ∧
     ∃ png, rasterized env fs size png ∧
            fs_after (main env fs) !! png_path size = Some (File png) ∧
            fs_after (main env fs') !! png_path size = Some (File png)) as Hsame.
  { intros size H1 H2.
    destruct (generated_png_in_final_fs env fs size H1) as (Hsize & png & Hpng & Hfile).
    destruct (generated_png_in_final_fs env fs' size H2) as (_ & png' & Hpng' & Hfile').
    split; [done|]. exists png. split; [done|]. split; [done|].
    apply (rasterized_same_svg _ _ fs) in Hpng'; [|done].
    by rewrite (rasterized_functional _ _ _ _ _ Hpng Hpng'). }
  split; [exact Hsame|].
  intros Hc Hc' size Hsize.
  pose proof (completes_generates_all env fs Hc size Hsize) as H1.
  pose proof (completes_generates_all env fs' Hc' size Hsize) as H2.
  split; [done|]. split; [done|].
  destruct (Hsame size H1 H2) as (_ & png & _ & -> & ->). done.
Qed.

Lemma keeps_main_svg env : keeps svg_file (main env).
Proof.
  apply keeps_bind; [apply keeps_print|intros _].
  apply keeps_bind; [apply keeps_print|intros _].
  apply keeps_bind; [apply keeps_check_dependencies|intros deps].
  destruct (negb deps); [apply keeps_print_after_blank|].
  apply keeps_bind; [apply keeps_create_directories; by_compute|intros _].
  apply keeps_bind; [apply keeps_generate_png_sizes_for; by_compute|intros generated].
  destruct (negb generated); [apply keeps_print|].
  apply (keeps_main_tail env), tail_untouched_svg.
Qed.

(** Running the pipeline again in the directory the first run left: when
    both runs complete, the second run rewrites every PNG with the bytes it
    already had. *)
Corollary rerun_same_pngs env fs :
  completes (main env fs) →
  completes (main env (fs_after (main env fs))) →
  ∀ size, size ∈ sizes →
    fs_after (main env (fs_after (main env fs))) !! png_path size =
    fs_after (main env fs) !! png_path size.
Proof.
  intros H1 H2 size Hsize.
  assert (fs !! svg_file = fs_after (main env fs) !! svg_file) as Hsvg
    by (symmetry; apply keeps_main_svg).
  pose proof (completes_generates_all env fs H1 size Hsize) as G1.
  pose proof (completes_generates_all env _ H2 size Hsize) as G2.
  destruct (generated_png_in_final_fs env fs size G1) as (_ & png & Hpng & ->).
  destruct (generated_png_in_final_fs env _ size G2) as (_ & png' & Hpng' & ->).
  apply (rasterized_same_svg _ _ fs) in Hpng'; [|done].
  by rewrite (rasterized_functional _ _ _ _ _ Hpng Hpng').
Qed.

(** ** The assemblers are isolated from one another *)

Lemma events_bind_first {A B} (m : M A) (k : A → M B) fs e :
  e ∈ events (m fs) → e ∈ events ((m ≫= k) fs).
Proof.
  intros H. rewrite bind_run. destruct (result (m fs)); cbn; [|done].
  apply elem_of_app. by left.
Qed.

Lemma create_icns_file_starts env fs :
  Print INFO "Skipping .icns creation (not on macOS)" ∈ events (create_icns_file env fs) ∨
  Mkdir iconset_dir ∈ events (create_icns_file env fs).
Proof.
  unfold create_icns_file. case_bool_decide.
  - left. cbn. left.
  - right. apply events_bind_first. rewrite mkdir_events. left.
Qed.

Lemma create_ico_file_starts env fs :
  Print FAIL "No PNG files found for .ico creation" ∈ events (create_ico_file env fs) ∨
  Print WORK "Creating .ico file..." ∈ events (create_ico_file env fs).
Proof.
  rewrite create_ico_file_run. case_bool_decide; [left; left|right].
  destruct (exec env _ fs) as [[] fs']; left.
Qed.

Lemma create_favicon_files_starts env fs :
  Print WORK "Creating favicon files..." ∈ events (create_favicon_files env fs).
Proof. rewrite create_favicon_files_phases. apply events_bind_first. left. Qed.

Lemma update_electron_config_starts fs :
  Print WORK "Updating Electron configuration..." ∈ events (update_electron_config fs).
Proof. apply events_bind_first. left. Qed.

(** ** Sample hosts and trees for running the model *)

Lemma spawns_succeed ev :
  Forall (λ e, match e with Spawn _ st => st = Succeeded | _ => True end) ev →
  ∀ argv st, Spawn argv st ∈ ev → st = Succeeded.
Proof. intros H argv st Hin. rewrite Forall_forall in H. exact (H _ Hin). Qed.

Lemma copies_succeed ev :
  Forall (λ e, match e with Spawn _ st => st = Succeeded | _ => True end) ev →
  ∀ args st, Spawn ("cp" :: args) st ∈ ev → st = Succeeded.
Proof. intros H args st Hin. rewrite Forall_forall in H. exact (H _ Hin). Qed.

Ltac all_events := vm_compute; repeat constructor.

Example png_path_16 : png_path 16 = "icons/png/icon-16x16.png".
Proof. reflexivity. Qed.

Example raster_cmd_1024 :
  raster_cmd 1024 =
  ["magick"; "-background"; "none"; "-size"; "1024x1024";
   "prestige-ai-logo.svg"; "icons/png/icon-1024x1024.png"].
Proof. reflexivity. Qed.


Lemma png_outputs_deterministic_witness :
  with_svg !! svg_file = rerun_tree !! svg_file ∧
  completes (main linux_host with_svg) ∧
  completes (main linux_host rerun_tree) ∧
  ∀ size, size ∈ sizes →
    fs_after (main linux_host with_svg) !! png_path size =
    fs_after (main linux_host rerun_tree) !! png_path size.
Proof.
  assert (with_svg !! svg_file = rerun_tree !! svg_file) as Hsvg
    by (vm_compute; reflexivity).
  assert (completes (main linux_host with_svg)) as H1
    by (unfold completes; by_compute).
  assert (completes (main linux_host rerun_tree)) as H2
    by (unfold completes; by_compute).
  split; [exact Hsvg|]. split; [exact H1|]. split; [exact H2|].
  intros size Hsize.
  exact (proj2 (proj2
    (proj2 (png_outputs_deterministic linux_host with_svg rerun_tree Hsvg)
       H1 H2 size Hsize))).
Defined.

(** The success path of the macOS assembler does remove the staging
    directory. *)
Lemma create_icns_file_success_cleans_up :
  result (create_icns_file mac_host small_tree) = Ret true ∧
  Spawn rm_cmd Succeeded ∈ events (create_icns_file mac_host small_tree) ∧
  fs_after (create_icns_file mac_host small_tree) !! iconset_dir = None ∧
  fs_after (create_icns_file mac_host small_tree) !! "icons/prestige-ai.icns" =
    Some (File "ICNS of 3").
Proof.
  split; [vm_compute; reflexivity|]. split; [by_compute|].
  split; vm_compute; reflexivity.
Qed.

(** C2, on the failing input.  On macOS, with the two small rasters in
    place and a bundler that exits with a non-zero status, the assembler
    returns [False], never spawns [rm], and leaves the staging directory and
    the aliases copied into it behind. *)
Theorem iconset_left_behind_when_bundler_fails :
  platform mac_host_bad_iconutil = "darwin" ∧
  Spawn iconutil_cmd Failed ∈ events (create_icns_file mac_host_bad_iconutil small_tree) ∧
  result (create_icns_file mac_host_bad_iconutil small_tree) = Ret false ∧
  fs_after (create_icns_file mac_host_bad_iconutil small_tree) !! iconset_dir = Some Dir ∧
  fs_after (create_icns_file mac_host_bad_iconutil small_tree)
    !! "icons/prestige-ai.iconset/icon_16x16.png" = Some (File "png16") ∧
  ∀ st, Spawn rm_cmd st ∉ events (create_icns_file mac_host_bad_iconutil small_tree).
Proof.
  assert (platform mac_host_bad_iconutil = "darwin") as Hmac by reflexivity.
  assert (Spawn iconutil_cmd Failed ∈
            events (create_icns_file mac_host_bad_iconutil small_tree)) as Hfail
    by by_compute.
  destruct (create_icns_file_bundler_failure _ _ Hmac Hfail) as (Hr & Hdir & Hrm).
  split; [done|]. split; [done|]. split; [done|]. split; [done|].
  split; [vm_compute; reflexivity|done].
Qed.

(** * Further properties of the two scripts *)

(** ** The dependency prober, in full *)

Lemma forall_required_tools (P : string → Prop) :
  (∀ tool, tool ∈ required_tools.*1 → P tool) ↔ P "magick" ∧ P "iconutil".
Proof.
  change (required_tools.*1) with ["magick"; "iconutil"]. split.
  - intros H. split; apply H; [left|right; left].
  - intros [H1 H2] tool. rewrite !elem_of_cons, elem_of_nil.
    by intros [->|[->|[]]].
Qed.

Ltac probe_cases env :=
  unfold check_dependencies, mandatory, available;
  change required_tools with
    [("magick", "ImageMagick (brew install imagemagick)");
     ("iconutil", "macOS iconutil (built-in on macOS)")];
  run_step; rewrite exec_version;
  change (bool_decide ("magick" = "iconutil")) with false;
  change (bool_decide ("iconutil" = "iconutil")) with true;
  destruct (on_path env "magick"), (version_ok env "magick"); run_step;
  rewrite exec_version;
  destruct (on_path env "iconutil"), (version_ok env "iconutil"); run_step;
  destruct (bool_decide (platform env ≠ "darwin")); run_step.

(** X1. Whenever the dependency prober returns, it has left the file system
    as it was, it has probed both tools, [magick] first and [iconutil]
    second, and its result is [True] exactly when every mandatory tool is
    available ([iconutil] is mandatory on macOS only). *)
Theorem check_dependencies_verdict env fs b :
  result (check_dependencies env fs) = Ret b →
  fs_after (check_dependencies env fs) = fs ∧
  (b = true ↔
   ∀ tool, tool ∈ required_tools.*1 →
     mandatory env tool = true → available env tool = true) ∧
  spawned (events (check_dependencies env fs)) =
    [["magick"; "--version"]; ["iconutil"; "--version"]].
Proof.
  rewrite forall_required_tools.
  probe_cases env; cbn [result fs_after events]; intros [= <-];
    (split; [done|]); (split; [|done]); cbn;
    (split;
     [ first [by intros [=] | intros _; split; first [done | by intros [=]]]
     | intros [H1 H2];
       first [done | by specialize (H1 eq_refl) | by specialize (H2 eq_refl)] ]).
Qed.

Lemma check_dependencies_verdict_witness :
  result (check_dependencies linux_host with_svg) = Ret true ∧
  fs_after (check_dependencies linux_host with_svg) = with_svg ∧
  (∀ tool, tool ∈ required_tools.*1 →
     mandatory linux_host tool = true → available linux_host tool = true) ∧
  result (check_dependencies bare_host with_svg) = Ret false ∧
  ¬ (∀ tool, tool ∈ required_tools.*1 →
       mandatory bare_host tool = true → available bare_host tool = true).
Proof.
  assert (result (check_dependencies linux_host with_svg) = Ret true) as H1
    by (vm_compute; reflexivity).
  assert (result (check_dependencies bare_host with_svg) = Ret false) as H2
    by (vm_compute; reflexivity).
  pose proof (check_dependencies_verdict linux_host with_svg true H1) as (Hfs & Hiff & _).
  pose proof (check_dependencies_verdict bare_host with_svg false H2) as (_ & Hiff' & _).
  split; [exact H1|]. split; [exact Hfs|]. split; [exact (proj1 Hiff eq_refl)|].
  split; [exact H2|]. intros Hall. by apply Hiff' in Hall.
Defined.

(** X2. Every tool of the table gets exactly one verdict line: the check
    mark when its probe succeeds, the information line when it is missing
    but not mandatory ([iconutil] off macOS), and otherwise its entry with
    the install hint in the list of missing tools. *)
Theorem check_dependencies_reports env fs tool install_info :
  (tool, install_info) ∈ required_tools →
  (Print OK (tool +:+ " is available") ∈ events (check_dependencies env fs) ↔
   available env tool = true) ∧
  (Print INFO (tool +:+ " not available (not on macOS)")
     ∈ events (check_dependencies env fs) ↔
   available env tool = false ∧ mandatory env tool = false) ∧
  (Print PLAIN ("   " +:+ tool +:+ " - Install: " +:+ install_info)
     ∈ events (check_dependencies env fs) ↔
   available env tool = false ∧ mandatory env tool = true).
Proof.
  change required_tools with
    [("magick", "ImageMagick (brew install imagemagick)");
     ("iconutil", "macOS iconutil (built-in on macOS)")].
  rewrite !elem_of_cons, elem_of_nil. intros [[= -> ->]|[[= -> ->]|[]]];
    probe_cases env; cbn [events]; by_compute.
Qed.

Lemma check_dependencies_reports_witness :
  ("iconutil", "macOS iconutil (built-in on macOS)") ∈ required_tools ∧
  Print INFO "iconutil not available (not on macOS)"
    ∈ events (check_dependencies linux_host with_svg).
Proof.
  assert (("iconutil", "macOS iconutil (built-in on macOS)") ∈ required_tools) as H
    by (vm_compute; right; left).
  split; [exact H|].
  apply (proj1 (proj2 (check_dependencies_reports linux_host with_svg _ _ H))).
  split; reflexivity.
Defined.

(** ** The directory initializer, in full *)

Lemma mkdir_ok p fs :
  (∀ c, fs !! p ≠ Some (File c)) → parent_is_dir fs p = true →
  mkdir_exist_ok p fs = Outcome (Ret tt) (<[p := Dir]> fs) [Mkdir p].
Proof.
  intros Hfile Hparent. unfold mkdir_exist_ok, parent_is_dir, is_dir in *.
  destruct (fs !! p) as [[c|]|] eqn:Hp; [by destruct (Hfile c)|by rewrite insert_id|].
  destruct (split_last_slash p) as [[d b]|]; [|done].
  case_bool_decide; [done|]. cbn in Hparent.
  apply bool_decide_eq_true in Hparent. by rewrite Hparent.
Qed.

Lemma mkdir_blocked p c fs :
  fs !! p = Some (File c) →
  mkdir_exist_ok p fs = Outcome (Raise (FileExistsError p)) fs [Mkdir p].
Proof. intros H. unfold mkdir_exist_ok. by rewrite H. Qed.

Lemma parent_of_child fs d b :
  split_last_slash (d +:+ "/" +:+ b) = Some (d, b) →
  is_dir fs d = true → parent_is_dir fs (d +:+ "/" +:+ b) = true.
Proof.
  intros Hsplit Hdir. unfold parent_is_dir. rewrite Hsplit, Hdir.
  apply orb_true_r.
Qed.

Lemma create_directories_run fs :
  (∀ d c, d ∈ output_dirs → fs !! d ≠ Some (File c)) →
  create_directories fs =
  Outcome (Ret tt)
    (<["build" := Dir]> (<["icons/png" := Dir]> (<["icons" := Dir]> fs)))
    (Mkdir <$> output_dirs).
Proof.
  intros H. unfold create_directories. cbn [for_].
  erewrite bind_outcome.
  2:{ apply mkdir_ok; [|done]. intros c. apply H. by_compute. }
  cbv iota. erewrite bind_outcome.
  2:{ apply mkdir_ok.
      - intros c. rewrite lookup_insert_ne by done. apply H. by_compute.
      - apply (parent_of_child _ "icons" "png"); [done|].
        unfold is_dir. apply bool_decide_eq_true, lookup_insert_eq. }
  cbv iota. erewrite bind_outcome.
  2:{ apply mkdir_ok; [|done]. intros c. rewrite !lookup_insert_ne by done.
      apply H. by_compute. }
  reflexivity.
Qed.

Lemma for_mkdir_returns l fs :
  result (for_ l mkdir_exist_ok fs) = Ret tt →
  ∀ d, d ∈ l → fs_after (for_ l mkdir_exist_ok fs) !! d = Some Dir.
Proof.
  revert fs. induction l as [|q l IH]; intros fs; [by intros _ d ?%elem_of_nil|].
  cbn [for_]. rewrite bind_run.
  destruct (result (mkdir_exist_ok q fs)) as [[]|e] eqn:Hq; [|done].
  cbn [prepend result fs_after]. intros Hr d [->|Hd]%elem_of_cons.
  - apply mkdir_returns in Hq.
    destruct (for_mkdir_only_new_dirs l (fs_after (mkdir_exist_ok q fs)) q)
      as [->|(_ & _ & ->)]; done.
  - by apply IH.
Qed.

Lemma for_mkdir_again l fs :
  (∀ d, d ∈ l → fs !! d = Some Dir) →
  for_ l mkdir_exist_ok fs = Outcome (Ret tt) fs (Mkdir <$> l).
Proof.
  induction l as [|q l IH]; intros H; [done|]. cbn [for_].
  erewrite bind_outcome.
  2:{ unfold mkdir_exist_ok. rewrite (H q) by left. reflexivity. }
  cbv iota. rewrite IH; [done|]. intros d Hd. apply H. by right.
Qed.

(** X3. The directory initializer returns exactly when none of [icons],
    [icons/png] and [build] is a regular file.  It then leaves all three as
    directories, after one [mkdir] each in that order, and every other path
    as it was: directories that were already there keep their content. *)
Theorem create_directories_makes_dirs fs :
  (result (create_directories fs) = Ret tt ↔
   ∀ d c, d ∈ output_dirs → fs !! d ≠ Some (File c)) ∧
  (result (create_directories fs) = Ret tt →
   events (create_directories fs) = Mkdir <$> output_dirs ∧
   (∀ d, d ∈ output_dirs → fs_after (create_directories fs) !! d = Some Dir) ∧
   (∀ p, p ∉ output_dirs → fs_after (create_directories fs) !! p = fs !! p)).
Proof.
  assert (result (create_directories fs) = Ret tt →
          ∀ d c, d ∈ output_dirs → fs !! d ≠ Some (File c)) as Hfiles.
  { intros Hr d c Hd Hfile.
    pose proof (for_mkdir_returns _ fs Hr d Hd) as Hdir.
    destruct (for_mkdir_only_new_dirs ["icons"; "icons/png"; "build"] fs d)
      as [Heq|(_ & Hnone & _)]; fold create_directories in *; congruence. }
  split.
  - split; [exact Hfiles|]. intros H. by rewrite create_directories_run.
  - intros Hr. rewrite create_directories_run by by apply Hfiles.
    cbn [events fs_after]. split; [done|]. split.
    + intros d. unfold output_dirs. rewrite !elem_of_cons, elem_of_nil.
      intros [->|[->|[->|[]]]].
      * rewrite !lookup_insert_ne by done. apply lookup_insert_eq.
      * rewrite lookup_insert_ne by done. apply lookup_insert_eq.
      * apply lookup_insert_eq.
    + intros p. unfold output_dirs. rewrite !not_elem_of_cons.
      intros (H1 & H2 & H3 & _). by rewrite !lookup_insert_ne.
Qed.

(** X4. A regular file in the place of one of the three directories stops
    the initializer with [FileExistsError] at the first such name: the
    directories listed before it have been made, no [mkdir] is attempted for
    the ones after it, and nothing else has changed. *)
Theorem create_directories_blocked fs made d later c :
  output_dirs = made ++ d :: later →
  (∀ d' c', d' ∈ made → fs !! d' ≠ Some (File c')) →
  fs !! d = Some (File c) →
  result (create_directories fs) = Raise (FileExistsError d) ∧
  events (create_directories fs) = Mkdir <$> (made ++ [d]) ∧
  (∀ d', d' ∈ made → fs_after (create_directories fs) !! d' = Some Dir) ∧
  (∀ p, p ∉ made → fs_after (create_directories fs) !! p = fs !! p).
Proof.
  intros Hsplit Hmade Hd. unfold create_directories. cbn [for_].
  destruct made as [|a [|b [|x made]]]; cbn in Hsplit.
  - injection Hsplit as <- <-.
    erewrite bind_outcome by by eapply mkdir_blocked.
    cbn. split; [done|]. split; [done|]. split; [by intros ? ?%elem_of_nil|done].
  - injection Hsplit as <- <- <-.
    erewrite bind_outcome.
    2:{ apply mkdir_ok; [|done]. intros c'. apply Hmade. left. }
    cbv iota. erewrite bind_outcome.
    2:{ eapply mkdir_blocked. by rewrite lookup_insert_ne. }
    cbn. split; [done|]. split; [done|]. split.
    + intros d' ->%list_elem_of_singleton. apply lookup_insert_eq.
    + intros p Hp%not_elem_of_cons. by rewrite lookup_insert_ne by by destruct Hp.
  - injection Hsplit as <- <- <- <-.
    erewrite bind_outcome.
    2:{ apply mkdir_ok; [|done]. intros c'. apply Hmade. left. }
    cbv iota. erewrite bind_outcome.
    2:{ apply mkdir_ok.
        - intros c'. rewrite lookup_insert_ne by done. apply Hmade. right; left.
        - apply (parent_of_child _ "icons" "png"); [done|].
          unfold is_dir. apply bool_decide_eq_true, lookup_insert_eq. }
    cbv iota. erewrite bind_outcome.
    2:{ eapply mkdir_blocked. by rewrite !lookup_insert_ne. }
    cbn. split; [done|]. split; [done|]. split.
    + intros d'. rewrite !elem_of_cons, elem_of_nil. intros [->|[->|[]]].
      * rewrite lookup_insert_ne by done. apply lookup_insert_eq.
      * apply lookup_insert_eq.
    + intros p. rewrite !not_elem_of_cons. intros (H1 & H2 & _).
      by rewrite !lookup_insert_ne.
  - exfalso. injection Hsplit as _ _ _ Hnil. by destruct made.
Qed.

(** X5. The directory initializer is idempotent: in the directory a
    returning run leaves, a second run returns as well and changes
    nothing. *)
Theorem create_directories_idempotent fs :
  result (create_directories fs) = Ret tt →
  create_directories (fs_after (create_directories fs)) =
  Outcome (Ret tt) (fs_after (create_directories fs)) (Mkdir <$> output_dirs).
Proof.
  intros Hr. apply (for_mkdir_again ["icons"; "icons/png"; "build"]).
  by apply for_mkdir_returns.
Qed.

Lemma create_directories_makes_dirs_witness :
  result (create_directories with_svg) = Ret tt ∧
  fs_after (create_directories with_svg) !! "icons/png" = Some Dir ∧
  fs_after (create_directories with_svg) !! svg_file = Some (File "<svg/>").
Proof.
  assert (result (create_directories with_svg) = Ret tt) as Hr by reflexivity.
  destruct (proj2 (create_directories_makes_dirs with_svg) Hr) as (_ & Hd & Hp).
  split; [exact Hr|]. split.
  - apply Hd. unfold output_dirs. right; left.
  - rewrite Hp; [reflexivity|]. unfold output_dirs, svg_file.
    rewrite !not_elem_of_cons. repeat split; try discriminate.
    apply not_elem_of_nil.
Defined.

Lemma create_directories_blocked_witness :
  result (create_directories build_is_a_file) = Raise (FileExistsError "build") ∧
  fs_after (create_directories build_is_a_file) !! "icons" = Some Dir.
Proof.
  assert (output_dirs = ["icons"; "icons/png"] ++ "build" :: []) as H1 by reflexivity.
  assert (∀ d' c', d' ∈ ["icons"; "icons/png"] →
                   build_is_a_file !! d' ≠ Some (File c')) as H2.
  { intros d' c'. rewrite !elem_of_cons, elem_of_nil.
    intros [->|[->|[]]]; vm_compute; discriminate. }
  assert (build_is_a_file !! "build" = Some (File "notes")) as H3 by reflexivity.
  destruct (create_directories_blocked build_is_a_file _ _ _ _ H1 H2 H3)
    as (Hr & _ & Hmade & _).
  split; [exact Hr|]. apply Hmade. left.
Defined.

Lemma create_directories_idempotent_witness :
  result (create_directories ∅) = Ret tt ∧
  create_directories (fs_after (create_directories ∅)) =
  Outcome (Ret tt) (fs_after (create_directories ∅)) (Mkdir <$> output_dirs).
Proof.
  assert (result (create_directories ∅) = Ret tt) as Hr by reflexivity.
  split; [exact Hr|]. exact (create_directories_idempotent ∅ Hr).
Defined.

(** ** The raster generator: a missing executable *)

(** X6. The raster generator handles a rasterizer that exits with a
    non-zero status, but not one that cannot be started: when the source
    image is there and [magick] is not on the search path, the first
    invocation raises [FileNotFoundError], which escapes the function; no
    failure line is printed and nothing is written. *)
Theorem generate_png_sizes_missing_rasterizer env fs :
  is_Some (fs !! svg_file) →
  on_path env "magick" = false →
  generate_png_sizes env fs =
  Outcome (Raise (FileNotFoundError "magick")) fs
    [Print WORK "Generating PNG files..."; Spawn (raster_cmd 16) NotFound].
Proof.
  intros Hsvg Hpath. unfold generate_png_sizes.
  rewrite generate_png_sizes_for_svg by done.
  unfold sizes. cbn [for_ret].
  rewrite bind_run, bind_run, raster_step_run, exec_raster_cmd, Hpath.
  reflexivity.
Qed.

Lemma generate_png_sizes_missing_rasterizer_witness :
  is_Some (with_svg !! svg_file) ∧
  on_path bare_host "magick" = false ∧
  result (generate_png_sizes bare_host with_svg) = Raise (FileNotFoundError "magick").
Proof.
  assert (is_Some (with_svg !! svg_file)) as H1 by (vm_compute; eauto).
  assert (on_path bare_host "magick" = false) as H2 by reflexivity.
  split; [exact H1|]. split; [exact H2|].
  by rewrite (generate_png_sizes_missing_rasterizer bare_host with_svg H1 H2).
Defined.

(** X7. Distinct sizes are rendered to distinct files, for every integer
    size and not only for the configured ones: no raster overwrites
    another, and every size has its own command line. *)
Theorem distinct_sizes_distinct_files (a b : Z) :
  a ≠ b → png_path a ≠ png_path b ∧ raster_cmd a ≠ raster_cmd b.
Proof.
  intros Hne. split; intros Heq; apply Hne.
  - by apply (inj png_path).
  - by apply (inj raster_cmd).
Qed.

Lemma distinct_sizes_distinct_files_witness :
  (16 : Z) ≠ 32 ∧ png_path 16 ≠ png_path 32.
Proof.
  assert ((16 : Z) ≠ 32) as H by discriminate.
  split; [exact H|]. exact (proj1 (distinct_sizes_distinct_files 16 32 H)).
Defined.

(** ** Which exceptions escape *)

Lemma write_output_found fs out c : (write_output fs out c).1 ≠ NotFound.
Proof. unfold write_output. by case_match. Qed.

Lemma run_tool_found env tool args fs : (run_tool env tool args fs).1 ≠ NotFound.
Proof.
  unfold run_tool, magick_convert, magick_pack, cp, rm_rf, iconutil_c_icns.
  repeat case_match; try done; apply write_output_found.
Qed.

(** A command is reported as not found exactly when its executable is not
    on the search path. *)
Lemma exec_not_found env tool args fs :
  (exec env (tool :: args) fs).1 = NotFound ↔ on_path env tool = false.
Proof.
  cbn [exec]. destruct (on_path env tool); [|done].
  split; [|done]. intros H. by destruct (run_tool_found env tool args fs).
Qed.

Lemma throws_weaken {A} (P Q : exn → Prop) (m : M A) :
  (∀ e, P e → Q e) → throws P m → throws Q m.
Proof. intros HPQ H fs e He. by apply HPQ, (H fs). Qed.

Lemma throws_ret {A} (P : exn → Prop) (a : A) : throws P (mret a).
Proof. by intros fs e. Qed.

Lemma throws_bind {A B} (P : exn → Prop) (m : M A) (k : A → M B) :
  throws P m → (∀ a, throws P (k a)) → throws P (m ≫= k).
Proof.
  intros Hm Hk fs e. rewrite bind_run.
  destruct (result (m fs)) as [a|e'] eqn:Hr; cbn.
  - apply Hk.
  - intros [= <-]. by apply (Hm fs).
Qed.

(** An exception leaves [try: m except h] when [m] raises it and [h] does
    not take it, or when the handler that takes it raises. *)
Lemma throws_try_except {A} (P : exn → Prop) (m : M A) (h : exn → option (M A)) :
  throws (λ e, match h e with Some k => throws P k | None => P e end) m →
  throws P (try_except m h).
Proof.
  intros Hm fs e. rewrite try_except_run.
  destruct (result (m fs)) as [a|e'] eqn:Hr; [by rewrite Hr|].
  specialize (Hm fs e' Hr). cbn in Hm.
  destruct (h e') as [k|]; cbn.
  - apply Hm.
  - rewrite Hr. by intros [= <-].
Qed.

Lemma throws_for_ {A} (P : exn → Prop) (l : list A) (body : A → M unit) :
  (∀ x, x ∈ l → throws P (body x)) → throws P (for_ l body).
Proof.
  induction l as [|x l IH]; intros H; cbn; [apply throws_ret|].
  apply throws_bind; [apply H; left|intros _; apply IH].
  intros y Hy. apply H. by right.
Qed.

Lemma throws_for_ret {A B} (P : exn → Prop) (l : list A) (body : A → M (option B)) :
  (∀ x, x ∈ l → throws P (body x)) → throws P (for_ret l body).
Proof.
  induction l as [|x l IH]; intros H; cbn; [apply throws_ret|].
  apply throws_bind; [apply H; left|].
  intros [v|]; [apply throws_ret|apply IH].
  intros y Hy. apply H. by right.
Qed.

Lemma throws_print (P : exn → Prop) m t : throws P (print m t).
Proof. by intros fs e. Qed.

Lemma throws_print_exn (P : exn → Prop) m t e : throws P (print_exn m t e).
Proof. by intros fs e'. Qed.

Lemma throws_path_exists (P : exn → Prop) p : throws P (path_exists p).
Proof. by intros fs e. Qed.

Lemma throws_existing (P : exn → Prop) l : throws P (existing l).
Proof. intros fs e. by rewrite existing_run. Qed.

Lemma throws_subprocess_run (P : exn → Prop) env tool args :
  P (CalledProcessError (tool :: args)) →
  (on_path env tool = false → P (FileNotFoundError tool)) →
  throws P (subprocess_run env (tool :: args)).
Proof.
  intros H1 H2 fs e. rewrite subprocess_run_eq. cbn [result head default].
  destruct ((exec env (tool :: args) fs).1) eqn:Hst; [|done|by intros [= <-]].
  intros [= <-]. by apply H2, (exec_not_found env tool args fs).
Qed.

(** The handler [except subprocess.CalledProcessError] lets everything
    else through. *)
Lemma throws_called_process_handled {A} (P : exn → Prop) env tool args
    (body : M A) (h : exn → M A) :
  (on_path env tool = false → P (FileNotFoundError tool)) →
  (∀ e, throws P (h e)) →
  throws (λ e, match on_called_process_error h e with
               | Some k => throws P k
               | None => P e
               end) (subprocess_run env (tool :: args)).
Proof.
  intros H1 H2. apply throws_subprocess_run; cbn; [apply H2|done].
Qed.

(** ** One run of [main], stage by stage *)

Lemma main_run env fs :
  main env fs =
  match result (check_dependencies env fs) with
  | Ret false =>
      Outcome (Ret tt) fs
        (banner ++ events (check_dependencies env fs) ++
         [Print PLAIN ""; Print FAIL "Please install required dependencies and try again"])
  | Ret true =>
      match result (create_directories fs) with
      | Ret _ =>
          let fs_d := fs_after (create_directories fs) in
          let ev := banner ++ events (check_dependencies env fs) ++
                    events (create_directories fs) ++
                    events (generate_png_sizes env fs_d) in
          match result (generate_png_sizes env fs_d) with
          | Ret true => prepend ev (main_tail env (fs_after (generate_png_sizes env fs_d)))
          | Ret false =>
              Outcome (Ret tt) (fs_after (generate_png_sizes env fs_d))
                (ev ++ [Print FAIL "Failed to generate PNG files"])
          | Raise e => Outcome (Raise e) (fs_after (generate_png_sizes env fs_d)) ev
          end
      | Raise e =>
          Outcome (Raise e) (fs_after (create_directories fs))
            (banner ++ events (check_dependencies env fs) ++ events (create_directories fs))
      end
  | Raise e => Outcome (Raise e) fs (banner ++ events (check_dependencies env fs))
  end.
Proof.
  destruct (check_dependencies_run env fs) as (ev' & Heq & _).
  rewrite Heq. cbn [result events].
  destruct (available env "magick" &&
            (available env "iconutil" || bool_decide (platform env ≠ "darwin"))).
  2:{ by rewrite (main_without_dependencies _ _ _ Heq). }
  rewrite (main_with_dependencies _ _ _ Heq), bind_run.
  destruct (result (create_directories fs)) as [[]|e].
  2:{ unfold prepend. cbn [result fs_after events]. by rewrite <- app_assoc. }
  rewrite bind_run.
  destruct (result (generate_png_sizes env (fs_after (create_directories fs))))
    as [[|]|e]; cbn [negb]; cbv zeta.
  - fold (main_tail env). rewrite !prepend_prepend. by rewrite <- !app_assoc.
  - unfold prepend. cbn [result fs_after events print emit]. by rewrite <- !app_assoc.
  - unfold prepend. cbn [result fs_after events]. by rewrite <- !app_assoc.
Qed.

(** ** The exceptions of each stage *)

Lemma check_dependencies_returns env fs :
  ∃ b, result (check_dependencies env fs) = Ret b.
Proof. destruct (check_dependencies_run env fs) as (ev & -> & _). by eexists. Qed.

Lemma create_directories_raises fs e :
  result (create_directories fs) = Raise e →
  ∃ d, d ∈ output_dirs ∧ e = FileExistsError d.
Proof.
  unfold create_directories, output_dirs. cbn [for_].
  destruct (fs !! "icons") as [[c|]|] eqn:H1.
  { erewrite bind_outcome by by eapply mkdir_blocked.
    intros [= <-]. exists "icons". split; [left|done]. }
  all: (erewrite bind_outcome by (apply mkdir_ok; [by rewrite H1|done])); cbv iota.
  all: unfold prepend at 1; cbn [result].
  all: set (fs1 := <["icons" := Dir]> fs).
  all: assert (parent_is_dir fs1 "icons/png" = true) as Hparent
         by (apply (parent_of_child _ "icons" "png"); [done|];
             apply bool_decide_eq_true, lookup_insert_eq).
  all: destruct (fs1 !! "icons/png") as [[c|]|] eqn:H2.
  all: try ((erewrite bind_outcome by by eapply mkdir_blocked);
            intros [= <-]; exists "icons/png"; split; [right; left|done]).
  all: (erewrite bind_outcome
          by (apply mkdir_ok;
              [intros c0 Hc0; change (fs1 !! "icons/png" = Some (File c0)) in Hc0;
               congruence
              |exact Hparent]));
    cbv iota.
  all: unfold prepend at 1; cbn [result].
  all: set (fs2 := <["icons/png" := Dir]> fs1).
  all: destruct (fs2 !! "build") as [[c|]|] eqn:H3.
  all: try ((erewrite bind_outcome by by eapply mkdir_blocked);
            intros [= <-]; exists "build"; split; [right; right; left|done]).
  all: by erewrite bind_outcome
         by (apply mkdir_ok;
             [intros c0 Hc0; change (fs2 !! "build" = Some (File c0)) in Hc0;
              congruence
             |done]).
Qed.

Lemma throws_generate_png_sizes_for env l :
  throws (λ e, e = FileNotFoundError "magick" ∧ on_path env "magick" = false)
    (generate_png_sizes_for env l).
Proof.
  apply throws_bind; [apply throws_path_exists|]. intros found.
  destruct (negb found).
  { apply throws_bind; [apply throws_print|intros; apply throws_ret]. }
  apply throws_bind; [apply throws_print|intros _].
  apply throws_bind; [|by intros [|]; apply throws_ret].
  apply throws_for_ret. intros size _. apply throws_try_except.
  apply throws_bind.
  - apply throws_subprocess_run; cbn; [|done].
    apply throws_bind; [apply throws_print_exn|intros; apply throws_ret].
  - intros _. apply throws_bind; [apply throws_print|intros; apply throws_ret].
Qed.

Lemma throws_create_ico_file env :
  throws (λ e, e = FileNotFoundError "magick" ∧ on_path env "magick" = false)
    (create_ico_file env).
Proof.
  apply throws_bind; [apply throws_existing|]. intros files.
  case_bool_decide.
  { apply throws_bind; [apply throws_print|intros; apply throws_ret]. }
  apply throws_bind; [apply throws_print|intros _].
  apply throws_try_except. apply throws_bind.
  - apply throws_subprocess_run; cbn; [|done].
    apply throws_bind; [apply throws_print_exn|intros; apply throws_ret].
  - intros _. apply throws_bind; [apply throws_print|intros; apply throws_ret].
Qed.

Lemma throws_favicon_copy env source dest :
  throws cp_failure (favicon_copy env source dest).
Proof.
  apply throws_bind; [apply throws_path_exists|]. intros [|]; [|apply throws_ret].
  apply throws_bind; [|intros; apply throws_print].
  apply throws_subprocess_run; [left; by eexists _, _|by right].
Qed.

Lemma throws_favicon_pack env :
  throws (λ e, e = FileNotFoundError "magick" ∧ on_path env "magick" = false)
    (favicon_pack env).
Proof.
  apply throws_bind; [apply throws_path_exists|]. intros has16.
  apply throws_bind.
  { destruct has16; [apply throws_path_exists|apply throws_ret]. }
  intros [|]; [|apply throws_ret].
  apply throws_try_except. apply throws_bind.
  - apply throws_subprocess_run; cbn; [apply throws_print_exn|done].
  - intros _. apply throws_print.
Qed.

Lemma throws_create_favicon_files env :
  throws (λ e, cp_failure e ∨
               (e = FileNotFoundError "magick" ∧ on_path env "magick" = false))
    (create_favicon_files env).
Proof.
  rewrite create_favicon_files_phases.
  apply throws_bind; [apply throws_print|intros _].
  apply throws_bind.
  - eapply throws_weaken; [intros e He; left; exact He|].
    apply throws_bind; [apply throws_favicon_copy|intros _].
    apply throws_bind; [apply throws_favicon_copy|intros _; apply throws_ret].
  - intros _. eapply throws_weaken; [|apply throws_favicon_pack]. by right.
Qed.

Lemma throws_icns_copies env : throws cp_failure (icns_copies env).
Proof.
  apply throws_for_. intros [size filenames] _.
  apply throws_bind; [apply throws_path_exists|]. intros [|]; [|apply throws_ret].
  apply throws_for_. intros filename _.
  apply throws_subprocess_run; [left; by eexists _, _|by right].
Qed.

Lemma throws_icns_bundle env :
  throws (λ e, (e = FileNotFoundError "iconutil" ∧ on_path env "iconutil" = false) ∨
               e = FileNotFoundError "rm")
    (icns_bundle env).
Proof.
  apply throws_try_except. apply throws_bind.
  { apply throws_subprocess_run; cbn; [|by left].
    apply throws_bind; [apply throws_print_exn|intros; apply throws_ret]. }
  intros _. apply throws_bind; [apply throws_print|intros _].
  apply throws_bind; [|intros; apply throws_ret].
  apply throws_subprocess_run; cbn; [|by right].
  apply throws_bind; [apply throws_print_exn|intros; apply throws_ret].
Qed.

Lemma mkdir_in_directory d b fs e :
  split_last_slash (d +:+ "/" +:+ b) = Some (d, b) →
  fs !! d = Some Dir →
  result (mkdir_exist_ok (d +:+ "/" +:+ b) fs) = Raise e →
  e = FileExistsError (d +:+ "/" +:+ b).
Proof.
  intros Hsplit Hd.
  destruct (fs !! (d +:+ "/" +:+ b)) as [[c|]|] eqn:Hp.
  - erewrite mkdir_blocked by done. by intros [= <-].
  - rewrite mkdir_ok; [done|by rewrite Hp|].
    apply parent_of_child; [done|]. by apply bool_decide_eq_true.
  - rewrite mkdir_ok; [done|by rewrite Hp|].
    apply parent_of_child; [done|]. by apply bool_decide_eq_true.
Qed.

Lemma update_electron_config_raises fs e :
  result (update_electron_config fs) = Raise e →
  e = IsADirectoryError "electron-build-config.txt".
Proof.
  unfold update_electron_config. erewrite bind_outcome by reflexivity. cbv iota.
  rewrite bind_run. unfold open_write.
  destruct (is_dir fs "electron-build-config.txt"); cbn; [by intros [= <-]|done].
Qed.

Lemma create_icns_file_raises env fs e :
  fs !! "icons" = Some Dir →
  (platform env = "darwin" → on_path env "iconutil" = true) →
  result (create_icns_file env fs) = Raise e → escaping e.
Proof.
  intros Hicons Hutil.
  destruct (decide (platform env = "darwin")) as [Hmac|Hmac].
  2:{ unfold create_icns_file. by rewrite bool_decide_true. }
  rewrite (create_icns_file_on_mac _ Hmac), bind_run.
  destruct (result (mkdir_exist_ok iconset_dir fs)) as [[]|e'] eqn:Hmk.
  2:{ cbn. intros [= <-].
      apply (mkdir_in_directory "icons" "prestige-ai.iconset") in Hmk as ->;
        [|done..].
      left. exists iconset_dir. split; [left|done]. }
  cbn [prepend result]. intros He. revert e He.
  change (throws escaping
            (λ fs', (print WORK "Creating .icns file...";;
                     icns_copies env;; icns_bundle env) fs')
            ) with
    (throws escaping (print WORK "Creating .icns file...";;
                      icns_copies env;; icns_bundle env)).
  intros e. apply throws_bind; [apply throws_print|intros _].
  apply throws_bind.
  - eapply throws_weaken; [|apply throws_icns_copies].
    intros e' [H|H]; [right; by left|right; right; by left].
  - intros _. eapply throws_weaken; [|apply throws_icns_bundle].
    intros e' [[_ H]|H]; [by rewrite Hutil in H|do 3 right; by left].
Qed.

Lemma main_tail_raises env fs e :
  fs !! "icons" = Some Dir →
  on_path env "magick" = true →
  (platform env = "darwin" → on_path env "iconutil" = true) →
  result (main_tail env fs) = Raise e → escaping e.
Proof.
  intros Hicons Hmagick Hutil. unfold main_tail. rewrite bind_run.
  destruct (result (create_icns_file env fs)) as [b|e'] eqn:Hicns.
  2:{ cbn. intros [= <-]. by eapply create_icns_file_raises. }
  unfold prepend. cbn [result]. revert e.
  generalize (fs_after (create_icns_file env fs)).
  change (throws escaping
            (create_ico_file env;; create_favicon_files env;;
             update_electron_config;; print_summary)).
  apply throws_bind.
  { eapply throws_weaken; [|apply throws_create_ico_file].
    intros e [_ H]. by rewrite Hmagick in H. }
  intros _. apply throws_bind.
  { eapply throws_weaken; [|apply throws_create_favicon_files].
    intros e [[H|H]|[_ H]].
    - right. by left.
    - right. right. by left.
    - by rewrite Hmagick in H. }
  intros _. apply throws_bind.
  { intros fs' e He. apply update_electron_config_raises in He. by do 4 right. }
  intros _. by intros fs' e.
Qed.

Lemma main_raises_escaping env fs e :
  result (main env fs) = Raise e → escaping e.
Proof.
  rewrite main_run.
  destruct (check_dependencies_run env fs) as (ev & Heq & _). rewrite Heq.
  cbn [result events].
  destruct (available env "magick") eqn:Hmagick; cbn [andb]; [|done].
  destruct (available env "iconutil" || bool_decide (platform env ≠ "darwin"))
    eqn:Hutil; [|done].
  assert (on_path env "magick" = true) as Hpath.
  { unfold available in Hmagick. apply andb_true_iff in Hmagick. by destruct Hmagick. }
  assert (platform env = "darwin" → on_path env "iconutil" = true) as Hpath'.
  { intros Hmac. rewrite bool_decide_false in Hutil by by intros [].
    rewrite orb_false_r in Hutil. unfold available in Hutil.
    apply andb_true_iff in Hutil. by destruct Hutil. }
  destruct (result (create_directories fs)) as [[]|e'] eqn:Hd.
  2:{ cbn. intros [= <-].
      apply create_directories_raises in Hd as (d & Hin & ->).
      left. exists d. split; [by right|done]. }
  cbv zeta.
  destruct (result (generate_png_sizes env (fs_after (create_directories fs))))
    as [[|]|e'] eqn:Hg.
  - unfold prepend. cbn [result]. apply main_tail_raises; [|done..].
    unfold generate_png_sizes. rewrite keeps_generate_png_sizes_for by by_compute.
    apply (for_mkdir_returns _ fs Hd). left.
  - done.
  - cbn. intros [= <-].
    apply throws_generate_png_sizes_for in Hg as [_ H]. by rewrite Hpath in H.
Qed.

(** X8. [main] installs no handler of its own, and every stage that
    shells out to the rasterizer, the bundler, [rm] or a packer catches
    [CalledProcessError] around that call; only the copies are made outside
    any [try].  So a non-zero exit status crashes the pipeline only when it
    is a copy's: a [CalledProcessError] that leaves [main] names a [cp]
    command.  Likewise a [FileExistsError] that leaves [main] names one of
    the four directories the pipeline makes. *)
Theorem main_crashes_on_copies_only env fs e :
  result (main env fs) = Raise e →
  (∀ argv, e = CalledProcessError argv → ∃ src dst, argv = ["cp"; src; dst]) ∧
  (∀ d, e = FileExistsError d → d ∈ iconset_dir :: output_dirs).
Proof.
  intros He. apply main_raises_escaping in He.
  split.
  - intros argv ->.
    destruct He as [(d & _ & [=])|[(src & dst & [= ->])|[[=]|[[=]|[=]]]]].
    by exists src, dst.
  - intros d ->.
    destruct He as [(d' & Hd & [= ->])|[(src & dst & [=])|[[=]|[[=]|[=]]]]].
    done.
Qed.

Lemma main_crashes_on_copies_only_witness :
  result (main linux_host blocked_favicon_source) = Raise (CalledProcessError cp32) ∧
  ∃ src dst, cp32 = ["cp"; src; dst].
Proof.
  assert (result (main linux_host blocked_favicon_source) =
          Raise (CalledProcessError cp32)) as H by (vm_compute; reflexivity).
  split; [exact H|].
  exact (proj1 (main_crashes_on_copies_only _ _ _ H) cp32 eq_refl).
Defined.

(** ** What a run leaves alone *)

(** X9. The pipeline writes only its outputs.  On every host and in every
    directory, whether the run completes, stops early or raises, a path
    that is not one of the output paths holds after the run what it held
    before: the source image, in particular, is never modified, and nothing
    outside [icons/], [build], the favicons and the configuration file is
    created or deleted. *)
Theorem main_writes_only_outputs env fs p :
  ¬ output_path p → fs_after (main env fs) !! p = fs !! p.
Proof.
  intros H. unfold output_path in H.
  assert (keeps p (main env)) as Hkeeps; [|by apply Hkeeps].
  apply keeps_bind; [apply keeps_print|intros _].
  apply keeps_bind; [apply keeps_print|intros _].
  apply keeps_bind; [apply keeps_check_dependencies|intros deps].
  destruct (negb deps); [apply keeps_print_after_blank|].
  apply keeps_bind; [apply keeps_create_directories; tauto|intros _].
  apply keeps_bind; [apply keeps_generate_png_sizes_for; tauto|intros generated].
  destruct (negb generated); [apply keeps_print|].
  apply (keeps_main_tail env). repeat split; try tauto.
  destruct (under iconset_dir p); [tauto|done].
Qed.

Lemma main_writes_only_outputs_witness :
  ¬ output_path svg_file ∧
  fs_after (main linux_host with_svg) !! svg_file = Some (File "<svg/>").
Proof.
  assert (¬ output_path svg_file) as H by (unfold output_path; by_compute).
  split; [exact H|]. by rewrite (main_writes_only_outputs linux_host with_svg _ H).
Defined.

(** ** What a run may do *)

Lemma emits_pipeline_check_dependencies env :
  emits pipeline_event (check_dependencies env).
Proof.
  apply emits_bind.
  - apply emits_for_acc. intros [tool info] missing Hin.
    assert (∀ st, pipeline_event (Spawn [tool; "--version"] st)) as Hprobe.
    { intros st. left. exists tool. split; [|done].
      apply list_elem_of_fmap. by exists (tool, info). }
    apply emits_try_except.
    + apply emits_bind; [by apply emits_subprocess_run|intros _].
      apply emits_bind; [by apply emits_print|intros; apply emits_ret].
    + intros [] k [=]; subst; case_match;
        try apply emits_ret;
        (apply emits_bind; [by apply emits_print|intros; apply emits_ret]).
  - intros missing. case_bool_decide; [|apply emits_ret].
    apply emits_bind; [by apply emits_print_after_blank|intros _].
    apply emits_bind; [|intros; apply emits_ret].
    apply emits_for_. intros tool _. by apply emits_print.
Qed.

Lemma emits_pipeline_create_directories : emits pipeline_event create_directories.
Proof. apply emits_for_. intros d Hd. apply emits_mkdir. by right. Qed.

Lemma emits_pipeline_generate_png_sizes env :
  emits pipeline_event (generate_png_sizes env).
Proof.
  apply emits_bind; [apply emits_path_exists|]. intros found.
  destruct (negb found).
  { apply emits_bind; [by apply emits_print|intros; apply emits_ret]. }
  apply emits_bind; [by apply emits_print|intros _].
  apply emits_bind; [|by intros [|]; apply emits_ret].
  apply emits_for_ret. intros size Hsize. apply emits_try_except.
  - apply emits_bind.
    { apply emits_subprocess_run. intros st. right; left. by exists size. }
    intros _. apply emits_bind; [by apply emits_print|intros; apply emits_ret].
  - intros [] k [=]; subst.
    apply emits_bind; [by apply emits_print_exn|intros; apply emits_ret].
Qed.

Lemma emits_pipeline_create_icns_file env :
  emits pipeline_event (create_icns_file env).
Proof.
  unfold create_icns_file. case_bool_decide.
  { apply emits_bind; [by apply emits_print|intros; apply emits_ret]. }
  apply emits_bind; [apply emits_mkdir; by left|intros _].
  apply emits_bind; [by apply emits_print|intros _].
  apply emits_bind.
  - apply emits_for_. intros [size filenames] Hin.
    apply emits_bind; [apply emits_path_exists|]. intros [|]; [|apply emits_ret].
    apply emits_for_. intros filename Hfile. apply emits_subprocess_run. intros st.
    do 2 right; left. by exists size, filenames, filename.
  - intros _. apply emits_try_except.
    + apply emits_bind.
      { apply emits_subprocess_run. intros st. do 3 right; by left. }
      intros _. apply emits_bind; [by apply emits_print|intros _].
      apply emits_bind; [|intros; apply emits_ret].
      apply emits_subprocess_run. intros st. do 4 right; by left.
    + intros [] k [=]; subst.
      apply emits_bind; [by apply emits_print_exn|intros; apply emits_ret].
Qed.

Lemma ico_inputs_included fs : ico_inputs fs ⊆ png_path <$> ico_sizes.
Proof.
  intros f (size & Hsize & -> & _)%ico_inputs_are_rasters.
  apply list_elem_of_fmap. by exists size.
Qed.

Lemma emits_pipeline_create_ico_file env :
  emits pipeline_event (create_ico_file env).
Proof.
  intros fs. rewrite create_ico_file_run.
  case_bool_decide as Hnil; [by repeat constructor|].
  assert (∀ st, pipeline_event (Spawn (ico_cmd (ico_inputs fs)) st)) as Hcmd.
  { intros st. do 5 right; left. exists (ico_inputs fs).
    split; [done|]. split; [apply ico_inputs_included|done]. }
  destruct (exec env (ico_cmd (ico_inputs fs)) fs) as [[] fs'];
    cbn [events]; repeat (apply Forall_cons; split; [done|]); by apply Forall_nil.
Qed.

Lemma emits_pipeline_create_favicon_files env :
  emits pipeline_event (create_favicon_files env).
Proof.
  apply emits_create_favicon_files.
  - intros st. do 6 right; by left.
  - intros st. do 7 right; by left.
  - intros st. do 8 right. done.
  - by intros [].
Qed.

Lemma emits_pipeline_update_electron_config :
  emits pipeline_event update_electron_config.
Proof.
  apply emits_bind; [by apply emits_print|intros _].
  apply emits_bind; [by apply emits_open_write|intros; by apply emits_print].
Qed.

Lemma emits_pipeline_main_tail env : emits pipeline_event (main_tail env).
Proof.
  apply emits_bind; [apply emits_pipeline_create_icns_file|intros _].
  apply emits_bind; [apply emits_pipeline_create_ico_file|intros _].
  apply emits_bind; [apply emits_pipeline_create_favicon_files|intros _].
  apply emits_bind; [apply emits_pipeline_update_electron_config|intros _].
  intros fs. cbn. by repeat constructor.
Qed.

(** X10. Whatever the host and the directory, a run spawns only the
    command lines of the pipeline, makes only its three directories and the
    staging directory, and opens only the configuration file for writing.
    In particular the only deletion is [rm -rf] of the staging directory,
    every [cp] goes from a raster into the staging directory or to one of
    the two favicon names, and the source image is never the output of a
    command. *)
Theorem main_effects_whitelist env fs :
  Forall pipeline_event (events (main env fs)).
Proof.
  assert (emits pipeline_event (main env)) as H; [|apply H].
  apply emits_bind; [by apply emits_print|intros _].
  apply emits_bind; [by apply emits_print|intros _].
  apply emits_bind; [apply emits_pipeline_check_dependencies|intros deps].
  destruct (negb deps); [by apply emits_print_after_blank|].
  apply emits_bind; [apply emits_pipeline_create_directories|intros _].
  apply emits_bind; [apply emits_pipeline_generate_png_sizes|intros generated].
  destruct (negb generated); [by apply emits_print|].
  apply (emits_pipeline_main_tail env).
Qed.

(** ** The assemblers wait for the rasters *)

Lemma emits_early_check_dependencies env :
  emits (λ e, ¬ assembler_effect e) (check_dependencies env).
Proof.
  apply emits_bind.
  - apply emits_for_acc. intros [tool info] missing _.
    apply emits_try_except.
    + apply emits_bind.
      { apply emits_subprocess_run. intros st [H _]. by apply (H tool). }
      intros _. apply emits_bind; [apply emits_print; by intros []|intros; apply emits_ret].
    + intros [] k [=]; subst; case_match;
        try apply emits_ret;
        (apply emits_bind; [apply emits_print; by intros []|intros; apply emits_ret]).
  - intros missing. case_bool_decide; [|apply emits_ret].
    apply emits_bind; [apply emits_print_after_blank; by intros []|intros _].
    apply emits_bind; [|intros; apply emits_ret].
    apply emits_for_. intros tool _. apply emits_print. by intros [].
Qed.

Lemma emits_early_create_directories :
  emits (λ e, ¬ assembler_effect e) create_directories.
Proof. apply emits_for_. intros d Hd. apply emits_mkdir. by intros H. Qed.

Lemma emits_early_generate_png_sizes env :
  emits (λ e, ¬ assembler_effect e) (generate_png_sizes env).
Proof.
  apply emits_bind; [apply emits_path_exists|]. intros found.
  destruct (negb found).
  { apply emits_bind; [apply emits_print; by intros []|intros; apply emits_ret]. }
  apply emits_bind; [apply emits_print; by intros []|intros _].
  apply emits_bind; [|by intros [|]; apply emits_ret].
  apply emits_for_ret. intros size Hsize. apply emits_try_except.
  - apply emits_bind.
    { apply emits_subprocess_run. intros st [_ H]. by apply (H size). }
    intros _. apply emits_bind; [apply emits_print; by intros []|intros; apply emits_ret].
  - intros [] k [=]; subst.
    apply emits_bind; [apply emits_print_exn; by intros []|intros; apply emits_ret].
Qed.

(** X11. No assembler starts before every raster is there.  If a run
    spawns any command other than a probe or a rasterization, makes the
    staging directory, or opens a file for writing, then the rasterizer has
    been spawned successfully for each of the eight sizes in that run, and
    each size's file holds its rasterization when the run ends. *)
Theorem assemblers_wait_for_all_rasters env fs e :
  e ∈ events (main env fs) → assembler_effect e →
  ∀ size, size ∈ sizes →
    generated (main env fs) size ∧
    ∃ png, rasterized env fs size png ∧
           fs_after (main env fs) !! png_path size = Some (File png).
Proof.
  intros Hin Hlate.
  assert (∀ size, size ∈ sizes → generated (main env fs) size) as Hgen.
  2:{ intros size Hsize. split; [by apply Hgen|].
      by destruct (generated_png_in_final_fs env fs size (Hgen size Hsize)). }
  assert (∀ ev, Forall (λ e, ¬ assembler_effect e) ev → e ∉ ev) as Hearly.
  { intros ev Hev He. rewrite Forall_forall in Hev. by apply (Hev e). }
  pose proof (emits_early_check_dependencies env fs) as Hc.
  pose proof (emits_early_create_directories fs) as Hd.
  pose proof (emits_early_generate_png_sizes env
                (fs_after (create_directories fs))) as Hg.
  assert (Forall (λ e, ¬ assembler_effect e) banner) as Hb
    by (repeat constructor; by intros ?).
  unfold generated. revert Hin. rewrite main_run.
  destruct (result (check_dependencies env fs)) as [[|]|e0].
  - destruct (result (create_directories fs)) as [[]|e0].
    + cbv zeta.
      destruct (result (generate_png_sizes env (fs_after (create_directories fs))))
        as [[|]|e0] eqn:Hr.
      * intros _ size Hsize. unfold prepend. cbn [events].
        rewrite !elem_of_app. left. do 3 right.
        by apply raster_stage_generates_all.
      * cbn [events]. intros Hin. exfalso. revert Hin. apply Hearly.
        rewrite !Forall_app. repeat split; try done.
        repeat constructor. by intros ?.
      * cbn [events]. intros Hin. exfalso. revert Hin. apply Hearly.
        rewrite !Forall_app. by repeat split.
    + cbn [events]. intros Hin. exfalso. revert Hin. apply Hearly.
      rewrite !Forall_app. by repeat split.
  - cbn [events]. intros Hin. exfalso. revert Hin. apply Hearly.
    rewrite !Forall_app. repeat split; try done.
    repeat constructor; by intros ?.
  - cbn [events]. intros Hin. exfalso. revert Hin. apply Hearly.
    rewrite !Forall_app. by repeat split.
Qed.

Lemma assemblers_wait_for_all_rasters_witness :
  OpenW "electron-build-config.txt" ∈ events (main linux_host with_svg) ∧
  assembler_effect (OpenW "electron-build-config.txt") ∧
  generated (main linux_host with_svg) 1024.
Proof.
  assert (OpenW "electron-build-config.txt" ∈ events (main linux_host with_svg))
    as H1 by by_compute.
  assert (assembler_effect (OpenW "electron-build-config.txt")) as H2 by exact I.
  assert (1024 ∈ sizes) as H3 by by_compute.
  split; [exact H1|]. split; [exact H2|].
  exact (proj1 (assemblers_wait_for_all_rasters linux_host with_svg _ H1 H2 1024 H3)).
Defined.

(** ** A run that reaches the completion line *)

Lemma update_electron_config_run fs :
  update_electron_config fs =
  if is_dir fs "electron-build-config.txt" then
    Outcome (Raise (IsADirectoryError "electron-build-config.txt")) fs
      [Print WORK "Updating Electron configuration...";
       OpenW "electron-build-config.txt"]
  else
    Outcome (Ret tt) (<["electron-build-config.txt" := File package_json_updates]> fs)
      [Print WORK "Updating Electron configuration...";
       OpenW "electron-build-config.txt";
       Print OK "Created electron-build-config.txt with build configuration"].
Proof.
  unfold update_electron_config. erewrite bind_outcome by reflexivity. cbv iota.
  rewrite bind_run. unfold open_write.
  by destruct (is_dir fs "electron-build-config.txt").
Qed.

(** The completion line comes from the summary only, so a run of the later
    stages that prints it went through all of them. *)
Lemma main_tail_completes env fs :
  completes (main_tail env fs) →
  result (main_tail env fs) = Ret tt ∧
  fs_after (main_tail env fs) !! "electron-build-config.txt" =
    Some (File package_json_updates) ∧
  ∃ ev, events (main_tail env fs) = ev ++ summary_lines.
Proof.
  unfold completes, main_tail.
  rewrite bind_run.
  pose proof (aside_not_completion _ (emits_aside_create_icns_file env fs)) as H1.
  destruct (result (create_icns_file env fs)) as [b1|e]; [|done].
  set (fs1 := fs_after (create_icns_file env fs)).
  rewrite bind_run.
  pose proof (aside_not_completion _ (emits_aside_create_ico_file env fs1)) as H2.
  destruct (result (create_ico_file env fs1)) as [b2|e].
  2:{ unfold prepend. cbn [events]. rewrite elem_of_app. by intros [|]. }
  set (fs2 := fs_after (create_ico_file env fs1)).
  rewrite bind_run.
  pose proof (aside_not_completion _ (emits_aside_create_favicon_files env fs2)) as H3.
  destruct (result (create_favicon_files env fs2)) as [[]|e].
  2:{ unfold prepend. cbn [events]. rewrite !elem_of_app. by intros [|[|]]. }
  set (fs3 := fs_after (create_favicon_files env fs2)).
  rewrite bind_run, update_electron_config_run.
  destruct (is_dir fs3 "electron-build-config.txt").
  { unfold prepend. cbn [events result]. rewrite !elem_of_app.
    intros [|[|[|Hin]]]; try done. exfalso. revert Hin. by_compute. }
  intros _. unfold prepend. cbn [events result fs_after].
  split; [done|]. split; [apply lookup_insert_eq|].
  eexists. rewrite !app_assoc. reflexivity.
Qed.

Lemma tail_untouched_output_dir d : d ∈ output_dirs → tail_untouched d.
Proof.
  unfold output_dirs. rewrite !elem_of_cons, elem_of_nil.
  intros [->|[->|[->|[]]]]; repeat split; by_compute.
Qed.

(** What [main] is when it gets to the later stages. *)
Lemma main_completes_inv env fs :
  completes (main env fs) →
  ∃ ev fs_g,
    main env fs = prepend ev (main_tail env fs_g) ∧
    completes (main_tail env fs_g) ∧
    result (check_dependencies env fs) = Ret true ∧
    result (create_directories fs) = Ret tt ∧
    fs_g = fs_after (generate_png_sizes env (fs_after (create_directories fs))) ∧
    result (generate_png_sizes env (fs_after (create_directories fs))) = Ret true.
Proof.
  pose proof (aside_not_completion _ (emits_aside_check_dependencies env fs)) as Hc.
  pose proof (aside_not_completion _ (emits_aside_create_directories fs)) as Hd.
  pose proof (emits_not_completion_generate env sizes
                (fs_after (create_directories fs))) as Hg.
  rewrite Forall_forall in Hg. specialize (Hg completion).
  fold (generate_png_sizes env) in Hg.
  assert (completion ∉ banner) as Hb by by_compute.
  unfold completes at 1. rewrite main_run.
  destruct (result (check_dependencies env fs)) as [[|]|e0].
  - destruct (result (create_directories fs)) as [[]|e0].
    + cbv zeta.
      destruct (result (generate_png_sizes env (fs_after (create_directories fs))))
        as [[|]|e0].
      * unfold prepend at 1. cbn [events]. rewrite !elem_of_app.
        intros [[Hin|[Hin|[Hin|Hin]]]|Hin]; try done; [by destruct (Hg Hin)|].
        by eexists _, _.
      * cbn [events]. rewrite !elem_of_app.
        intros [[Hin|[Hin|[Hin|Hin]]]|Hin]; try done; [by destruct (Hg Hin)|].
        exfalso. revert Hin. by_compute.
      * cbn [events]. rewrite !elem_of_app.
        intros [Hin|[Hin|[Hin|Hin]]]; try done. by destruct (Hg Hin).
    + cbn [events]. rewrite !elem_of_app. by intros [Hin|[Hin|Hin]].
  - cbn [events]. rewrite !elem_of_app. intros [Hin|[Hin|Hin]]; try done.
    exfalso. revert Hin. by_compute.
  - cbn [events]. rewrite !elem_of_app. by intros [Hin|Hin].
Qed.

(** X12. A run that prints the completion line returned normally after
    going through every stage: every mandatory tool was found, the run ends
    with the last line of the summary, the configuration file holds exactly
    the build configuration text, and the three output directories are
    directories. *)
Theorem completed_run_outputs env fs :
  completes (main env fs) →
  result (main env fs) = Ret tt ∧
  (∀ tool, tool ∈ required_tools.*1 →
     mandatory env tool = true → available env tool = true) ∧
  last (events (main env fs)) = Some (Print PLAIN "3. Test the build process") ∧
  fs_after (main env fs) !! "electron-build-config.txt" =
    Some (File package_json_updates) ∧
  ∀ d, d ∈ output_dirs → fs_after (main env fs) !! d = Some Dir.
Proof.
  intros (ev & fs_g & Heq & Htail & Hc & Hd & -> & Hg)%main_completes_inv.
  destruct (main_tail_completes _ _ Htail) as (Hr & Hcfg & ev_t & Hlast).
  rewrite Heq. unfold prepend. cbn [result fs_after events].
  split; [done|]. split; [|split; [|split; [done|]]].
  - rewrite forall_required_tools.
    destruct (check_dependencies_run env fs) as (ev' & Hrun & _).
    rewrite Hrun in Hc. cbn [result] in Hc. injection Hc as Hc.
    apply andb_true_iff in Hc as [Hmagick Hutil]. split; [done|].
    unfold mandatory. rewrite bool_decide_true by done. cbn [andb].
    intros Hmand%negb_true_iff. rewrite Hmand in Hutil.
    by rewrite orb_false_r in Hutil.
  - rewrite Hlast, !last_app. reflexivity.
  - intros d Hd'. rewrite keeps_main_tail by by apply tail_untouched_output_dir.
    unfold generate_png_sizes. rewrite keeps_generate_png_sizes_for.
    + by apply (for_mkdir_returns _ fs Hd).
    + revert Hd'. unfold output_dirs. rewrite !elem_of_cons, elem_of_nil.
      intros [->|[->|[->|[]]]]; by_compute.
Qed.

Lemma completed_run_outputs_witness :
  completes (main linux_host with_svg) ∧
  fs_after (main linux_host with_svg) !! "electron-build-config.txt" =
    Some (File package_json_updates).
Proof.
  assert (completes (main linux_host with_svg)) as H
    by (unfold completes; by_compute).
  split; [exact H|].
  exact (proj1 (proj2 (proj2 (proj2 (completed_run_outputs linux_host with_svg H))))).
Defined.

Lemma completed_run_config env fs :
  completes (main env fs) →
  fs_after (main env fs) !! "electron-build-config.txt" =
    Some (File package_json_updates).
Proof.
  intros (ev & fs_g & Heq & Htail & _)%main_completes_inv.
  destruct (main_tail_completes _ _ Htail) as (_ & Hcfg & _).
  by rewrite Heq.
Qed.

Lemma package_json_updates_linux_icon :
  package_json_updates =
  String.substring 0 434 package_json_updates +:+
  q "linux" +:+ ": {" +:+ nl +:+ "    " +:+ q "icon" +:+ ": " +:+ q (png_path 512) +:+
  String.substring 485 33 package_json_updates.
Proof. vm_compute. reflexivity. Qed.

(** X13. The configuration a completed run writes points at a file of
    that run: its [linux] section names as [icon] the path
    [icons/png/icon-512x512.png], and when the run ends that path holds the
    rasterization of the source image at 512 pixels. *)
Theorem config_linux_icon_is_generated env fs :
  completes (main env fs) →
  ∃ pre post png,
    fs_after (main env fs) !! "electron-build-config.txt" =
      Some (File (pre +:+ q "linux" +:+ ": {" +:+ nl +:+ "    " +:+
                  q "icon" +:+ ": " +:+ q (png_path 512) +:+ post)) ∧
    rasterized env fs 512 png ∧
    fs_after (main env fs) !! png_path 512 = Some (File png).
Proof.
  intros H.
  assert (512 ∈ sizes) as Hsize by by_compute.
  pose proof (completes_generates_all env fs H 512 Hsize) as Hgen.
  destruct (generated_png_in_final_fs env fs 512 Hgen) as (_ & png & Hpng & Hfile).
  eexists _, _, png. split; [|done].
  rewrite (completed_run_config env fs H).
  by rewrite <- package_json_updates_linux_icon.
Qed.

Lemma config_linux_icon_is_generated_witness :
  completes (main linux_host with_svg) ∧
  ∃ pre post png,
    fs_after (main linux_host with_svg) !! "electron-build-config.txt" =
      Some (File (pre +:+ q "linux" +:+ ": {" +:+ nl +:+ "    " +:+
                  q "icon" +:+ ": " +:+ q (png_path 512) +:+ post)) ∧
    rasterized linux_host with_svg 512 png ∧
    fs_after (main linux_host with_svg) !! png_path 512 = Some (File png).
Proof.
  assert (completes (main linux_host with_svg)) as H
    by (unfold completes; by_compute).
  split; [exact H|]. exact (config_linux_icon_is_generated linux_host with_svg H).
Defined.

(** X14. Off macOS the pipeline has nothing to do with the macOS bundle:
    whatever was at [icons/prestige-ai.icns], at the staging directory and
    below it is still there unchanged when the run ends.  The summary of a
    completed run lists [icons/prestige-ai.icns] all the same. *)
Theorem off_mac_no_icns env fs :
  platform env ≠ "darwin" →
  (∀ p, p = "icons/prestige-ai.icns" ∨ p = iconset_dir ∨ under iconset_dir p = true →
        fs_after (main env fs) !! p = fs !! p) ∧
  (completes (main env fs) →
   Print APPLE "icons/prestige-ai.icns - macOS app icon" ∈ events (main env fs)).
Proof.
  intros Hplat. split.
  - intros p Hp.
    assert (keeps p (main env)) as Hkeeps; [|by apply Hkeeps].
    assert ((p ∉ output_dirs) ∧ (p ∉ png_path <$> sizes) ∧ p ≠ ico_file ∧
            (p ∉ "favicon.ico" :: favicon_copy_targets) ∧
            p ≠ "electron-build-config.txt") as (H1 & H2 & H3 & H4 & H5).
    { destruct Hp as [->|[->|Hp]]; [repeat split; by_compute..|].
      assert (∀ l, Forall (λ x, under iconset_dir x = false) l → p ∉ l) as Hout.
      { intros l Hl Hin. rewrite Forall_forall in Hl.
        specialize (Hl p Hin). cbv beta in Hl. congruence. }
      repeat split; try (apply Hout; by_compute);
        intros ->; revert Hp; by_compute. }
    apply keeps_bind; [apply keeps_print|intros _].
    apply keeps_bind; [apply keeps_print|intros _].
    apply keeps_bind; [apply keeps_check_dependencies|intros deps].
    destruct (negb deps); [apply keeps_print_after_blank|].
    apply keeps_bind; [by apply keeps_create_directories|intros _].
    apply keeps_bind; [by apply keeps_generate_png_sizes_for|intros generated].
    destruct (negb generated); [apply keeps_print|].
    apply keeps_bind.
    { unfold create_icns_file. rewrite bool_decide_true by done.
      apply keeps_bind; [apply keeps_print|intros; apply keeps_ret]. }
    intros _. apply keeps_bind; [by apply keeps_create_ico_file|intros _].
    apply keeps_bind; [by apply keeps_create_favicon_files|intros _].
    apply keeps_bind; [by apply keeps_update_electron_config|intros _].
    apply keeps_print_summary.
  - intros (ev & fs_g & Heq & Htail & _)%main_completes_inv.
    destruct (main_tail_completes _ _ Htail) as (_ & _ & ev_t & Hev).
    rewrite Heq. unfold prepend. cbn [events]. rewrite Hev, !elem_of_app.
    right. right. by_compute.
Qed.

Lemma off_mac_no_icns_witness :
  platform linux_host ≠ "darwin" ∧
  fs_after (main linux_host with_svg) !! "icons/prestige-ai.icns" = None ∧
  Print APPLE "icons/prestige-ai.icns - macOS app icon"
    ∈ events (main linux_host with_svg).
Proof.
  assert (platform linux_host ≠ "darwin") as H by (vm_compute; discriminate).
  assert (completes (main linux_host with_svg)) as Hc
    by (unfold completes; by_compute).
  destruct (off_mac_no_icns linux_host with_svg H) as [Hkeep Hline].
  split; [exact H|]. split; [|exact (Hline Hc)].
  rewrite Hkeep; [reflexivity|by left].
Defined.

(** ** The macOS bundle assembler when the bundler succeeds *)

Lemma rm_rf_removes p fs q :
  q = p ∨ under p q = true → (rm_rf p fs).2 !! q = None.
Proof.
  intros Hq. cbn. apply map_lookup_filter_None. right.
  intros n _ [H1 H2]. cbn [fst] in *. destruct Hq as [->|Hq]; [done|].
  apply H2. by rewrite Hq.
Qed.

Lemma rm_rf_keeps p fs q :
  q ≠ p → under p q = false → (rm_rf p fs).2 !! q = fs !! q.
Proof.
  intros H1 H2. cbn. destruct (fs !! q) as [n|] eqn:Hq.
  - apply map_lookup_filter_Some. split; [done|]. split; [done|].
    cbn [fst]. rewrite H2. by intros [].
  - apply map_lookup_filter_None. by left.
Qed.

Lemma iconutil_succeeded env fs fs' :
  exec env iconutil_cmd fs = (Succeeded, fs') →
  ∃ icns, fs' = <["icons/prestige-ai.icns" := File icns]> fs.
Proof.
  unfold iconutil_cmd. rewrite exec_iconutil.
  destruct (on_path env "iconutil"); [|done].
  unfold iconutil_c_icns.
  change (strip_suffix ".iconset" iconset_dir) with (Some "icons/prestige-ai").
  destruct (is_dir fs iconset_dir); [|done].
  destruct (iconutil_icns env _) as [icns|]; [|done].
  intros H%write_output_succeeded. by exists icns.
Qed.

(** The run of the assembler when it returns [True]: the bundle is
    written into the directory the copies left, then the staging directory
    is removed. *)
Lemma create_icns_file_returns_true env fs :
  platform env = "darwin" →
  result (create_icns_file env fs) = Ret true →
  ∃ ev fs2 icns,
    create_icns_file env fs =
    Outcome (Ret true)
      (rm_rf iconset_dir (<["icons/prestige-ai.icns" := File icns]> fs2)).2
      (ev ++ [Spawn iconutil_cmd Succeeded;
              Print OK "Generated icons/prestige-ai.icns";
              Spawn rm_cmd Succeeded]).
Proof.
  intros Hmac. rewrite (create_icns_file_on_mac _ Hmac), bind_run.
  destruct (result (mkdir_exist_ok iconset_dir fs)) as [[]|e]; [|done].
  set (fs1 := fs_after (mkdir_exist_ok iconset_dir fs)).
  erewrite bind_outcome by reflexivity. cbv iota. rewrite bind_run.
  destruct (result (icns_copies env fs1)) as [[]|e]; [|done].
  set (fs2 := fs_after (icns_copies env fs1)).
  rewrite icns_bundle_run.
  destruct (exec env iconutil_cmd fs2) as [[] fs3] eqn:Hutil; [done| |done].
  apply iconutil_succeeded in Hutil as [icns ->].
  unfold rm_cmd. rewrite exec_rm_rf.
  destruct (on_path env "rm"); [|done].
  set (fs4 := <["icons/prestige-ai.icns" := File icns]> fs2).
  change (rm_rf iconset_dir fs4) with (Succeeded, (rm_rf iconset_dir fs4).2).
  cbv iota.
  intros _. unfold prepend. cbn [result fs_after events].
  eexists _, fs2, icns. by rewrite !app_assoc.
Qed.

(** X15. On macOS, when the assembler returns [True] the staging directory
    has been cleaned up: neither it nor anything below it is left, the
    bundle [icons/prestige-ai.icns] is a regular file, and the removal of
    the staging directory is the last thing the function did. *)
Theorem create_icns_file_success env fs :
  platform env = "darwin" →
  result (create_icns_file env fs) = Ret true →
  (∀ p, p = iconset_dir ∨ under iconset_dir p = true →
        fs_after (create_icns_file env fs) !! p = None) ∧
  (∃ icns, fs_after (create_icns_file env fs) !! "icons/prestige-ai.icns" =
             Some (File icns)) ∧
  last (events (create_icns_file env fs)) = Some (Spawn rm_cmd Succeeded).
Proof.
  intros Hmac Hr.
  destruct (create_icns_file_returns_true env fs Hmac Hr) as (ev & fs2 & icns & ->).
  cbn [fs_after events]. split; [|split].
  - intros p Hp. by apply rm_rf_removes.
  - exists icns. rewrite rm_rf_keeps by by_compute. apply lookup_insert_eq.
  - rewrite last_app. reflexivity.
Qed.

Lemma create_icns_file_success_witness :
  platform mac_host = "darwin" ∧
  result (create_icns_file mac_host small_tree) = Ret true ∧
  fs_after (create_icns_file mac_host small_tree) !! iconset_dir = None.
Proof.
  assert (platform mac_host = "darwin") as H1 by reflexivity.
  assert (result (create_icns_file mac_host small_tree) = Ret true) as H2
    by (vm_compute; reflexivity).
  split; [exact H1|]. split; [exact H2|].
  apply (proj1 (create_icns_file_success mac_host small_tree H1 H2)). by left.
Defined.

(** ** A failed copy *)

Lemma stops_without_copy {A} (m : M A) :
  emits (λ e, ¬ is_cp_spawn e) m → stops_at_failed_copy m.
Proof.
  intros H fs args st Hin _. specialize (H fs). rewrite Forall_forall in H.
  by destruct (H _ Hin).
Qed.

Lemma stops_bind {A B} (m : M A) (k : A → M B) :
  stops_at_failed_copy m → (∀ a, stops_at_failed_copy (k a)) →
  stops_at_failed_copy (m ≫= k).
Proof.
  intros Hm Hk fs args st. rewrite bind_run.
  destruct (result (m fs)) as [a|e] eqn:Hr.
  - unfold prepend. cbn [result events]. intros [Hin|Hin]%elem_of_app Hst.
    + destruct (Hm fs args st Hin Hst) as [(e & He & _) _]. congruence.
    + destruct (Hk a _ args st Hin Hst) as [He Hlast]. split; [done|].
      by rewrite last_app, Hlast.
  - cbn [result events]. intros Hin Hst.
    destruct (Hm fs args st Hin Hst) as [(e' & He & Hcp) Hlast].
    split; [|done]. exists e. split; [done|]. congruence.
Qed.

Lemma stops_ret {A} (a : A) : stops_at_failed_copy (mret a : M A).
Proof. by intros fs args st Hin%elem_of_nil. Qed.

Lemma stops_for_ {A} (l : list A) (body : A → M unit) :
  (∀ x, x ∈ l → stops_at_failed_copy (body x)) → stops_at_failed_copy (for_ l body).
Proof.
  induction l as [|x l IH]; intros H; cbn; [apply stops_ret|].
  apply stops_bind; [apply H; left|intros _; apply IH].
  intros y Hy. apply H. by right.
Qed.

Lemma stops_cp env src dst :
  stops_at_failed_copy (subprocess_run env ["cp"; src; dst]).
Proof.
  intros fs args st. rewrite subprocess_run_eq.
  generalize (exec env ["cp"; src; dst] fs). intros [st' fs'].
  cbn [fst snd result events head default].
  intros [= -> ->]%list_elem_of_singleton Hst. split; [|done].
  destruct st'; [|done|].
  - eexists. split; [done|]. by right.
  - eexists. split; [done|]. left. by eexists _, _.
Qed.

Lemma stops_print m t : stops_at_failed_copy (print m t).
Proof. apply stops_without_copy. apply emits_print. by intros []. Qed.

Lemma stops_check_dependencies env : stops_at_failed_copy (check_dependencies env).
Proof.
  apply stops_without_copy. intros fs.
  destruct (check_dependencies_run env fs) as (ev & -> & Hev). cbn [events].
  apply Forall_cons. split; [by intros []|].
  eapply Forall_impl; [exact Hev|]. intros e [H| ->]; [|by intros []].
  destruct e; first [by destruct H | by intros []].
Qed.

Lemma stops_create_directories : stops_at_failed_copy create_directories.
Proof.
  apply stops_without_copy. apply emits_for_. intros d _.
  apply emits_mkdir. by intros [].
Qed.

Lemma stops_generate_png_sizes env : stops_at_failed_copy (generate_png_sizes env).
Proof.
  apply stops_without_copy.
  apply emits_bind; [apply emits_path_exists|]. intros found.
  destruct (negb found).
  { apply emits_bind; [apply emits_print; by intros []|intros; apply emits_ret]. }
  apply emits_bind; [apply emits_print; by intros []|intros _].
  apply emits_bind; [|by intros [|]; apply emits_ret].
  apply emits_for_ret. intros size Hsize. apply emits_try_except.
  - apply emits_bind; [apply emits_subprocess_run; by intros st []|intros _].
    apply emits_bind; [apply emits_print; by intros []|intros; apply emits_ret].
  - intros [] k [=]; subst.
    apply emits_bind; [apply emits_print_exn; by intros []|intros; apply emits_ret].
Qed.

Lemma emits_no_copy_icns_bundle env : emits (λ e, ¬ is_cp_spawn e) (icns_bundle env).
Proof.
  intros fs. rewrite icns_bundle_run.
  destruct (exec env iconutil_cmd fs) as [[] fs'];
    try destruct (exec env rm_cmd fs') as [[] fs''];
    cbn [events]; repeat (apply Forall_cons; split; [by intros []|]);
    by apply Forall_nil.
Qed.

Lemma stops_icns_copies env : stops_at_failed_copy (icns_copies env).
Proof.
  apply stops_for_. intros [size filenames] _.
  apply stops_bind.
  { apply stops_without_copy, emits_path_exists. }
  intros [|]; [|apply stops_ret].
  apply stops_for_. intros filename _. apply stops_cp.
Qed.

Lemma stops_create_icns_file env : stops_at_failed_copy (create_icns_file env).
Proof.
  unfold create_icns_file. case_bool_decide.
  { apply stops_bind; [apply stops_print|intros; apply stops_ret]. }
  apply stops_bind.
  { apply stops_without_copy, emits_mkdir. by intros []. }
  intros _. apply stops_bind; [apply stops_print|intros _].
  apply stops_bind; [apply stops_icns_copies|intros _].
  apply stops_without_copy, emits_no_copy_icns_bundle.
Qed.

Lemma stops_create_ico_file env : stops_at_failed_copy (create_ico_file env).
Proof.
  apply stops_without_copy. intros fs. rewrite create_ico_file_run.
  case_bool_decide; [apply Forall_cons; split; [by intros []|by apply Forall_nil]|].
  destruct (exec env (ico_cmd (ico_inputs fs)) fs) as [[] fs'];
    cbn [events]; repeat (apply Forall_cons; split; [by intros []|]);
    by apply Forall_nil.
Qed.

Lemma stops_favicon_copy env source dest :
  stops_at_failed_copy (favicon_copy env source dest).
Proof.
  apply stops_bind.
  { apply stops_without_copy, emits_path_exists. }
  intros [|]; [|apply stops_ret].
  apply stops_bind; [apply stops_cp|intros _; apply stops_print].
Qed.

Lemma stops_create_favicon_files env :
  stops_at_failed_copy (create_favicon_files env).
Proof.
  rewrite create_favicon_files_phases.
  apply stops_bind; [apply stops_print|intros _].
  apply stops_bind.
  - apply stops_bind; [apply stops_favicon_copy|intros _].
    apply stops_bind; [apply stops_favicon_copy|intros _; apply stops_ret].
  - intros _. apply stops_without_copy. intros fs. rewrite favicon_pack_run.
    destruct (exists_ fs icon16 && exists_ fs icon32); [|constructor].
    destruct (exec env favicon_ico_cmd fs) as [[] fs'];
      cbn [events]; repeat (apply Forall_cons; split; [by intros []|]);
      by apply Forall_nil.
Qed.

Lemma stops_update_electron_config : stops_at_failed_copy update_electron_config.
Proof.
  apply stops_without_copy. intros fs. rewrite update_electron_config_run.
  destruct (is_dir fs "electron-build-config.txt");
    cbn [events]; repeat (apply Forall_cons; split; [by intros []|]);
    by apply Forall_nil.
Qed.

(** X16. A [cp] that fails, or that cannot be started, ends the whole run:
    the calls to [cp] are made with [check=True] outside any [try], so its
    exception leaves [main].  The failed copy is the last event of the run;
    in particular no later stage runs, the configuration file is not
    written and the completion line is not printed. *)
Theorem failed_copy_aborts_pipeline env fs args st :
  Spawn ("cp" :: args) st ∈ events (main env fs) → st ≠ Succeeded →
  (∃ e, result (main env fs) = Raise e ∧ cp_failure e) ∧
  last (events (main env fs)) = Some (Spawn ("cp" :: args) st).
Proof.
  revert fs args st. change (stops_at_failed_copy (main env)).
  apply stops_bind; [apply stops_print|intros _].
  apply stops_bind; [apply stops_print|intros _].
  apply stops_bind; [apply stops_check_dependencies|intros deps].
  destruct (negb deps).
  { apply stops_bind; [apply stops_print|intros _; apply stops_print]. }
  apply stops_bind; [apply stops_create_directories|intros _].
  apply stops_bind; [apply stops_generate_png_sizes|intros generated].
  destruct (negb generated); [apply stops_print|].
  apply stops_bind; [apply stops_create_icns_file|intros _].
  apply stops_bind; [apply stops_create_ico_file|intros _].
  apply stops_bind; [apply stops_create_favicon_files|intros _].
  apply stops_bind; [apply stops_update_electron_config|intros _].
  apply stops_without_copy. intros fs. cbn. repeat constructor; by intros [].
Qed.

Lemma failed_copy_aborts_pipeline_witness :
  Spawn ["cp"; png_path 16; "icons/prestige-ai.iconset/icon_16x16.png"] NotFound
    ∈ events (main mac_host_without_cp with_svg) ∧
  NotFound ≠ Succeeded ∧
  last (events (main mac_host_without_cp with_svg)) =
    Some (Spawn ["cp"; png_path 16; "icons/prestige-ai.iconset/icon_16x16.png"]
            NotFound).
Proof.
  assert (Spawn ["cp"; png_path 16; "icons/prestige-ai.iconset/icon_16x16.png"] NotFound
            ∈ events (main mac_host_without_cp with_svg)) as H1 by by_compute.
  assert (NotFound ≠ Succeeded) as H2 by discriminate.
  split; [exact H1|]. split; [exact H2|].
  exact (proj2 (failed_copy_aborts_pipeline mac_host_without_cp with_svg _ _ H1 H2)).
Defined.

(** X17. On macOS a copy into the staging directory that fails leaves the
    staging directory behind as well: the copies are outside the [try], so
    the exception leaves the assembler before the bundler and the cleanup
    are reached, and every command of the run is a [cp]. *)
Theorem failed_copy_leaves_staging env fs args st :
  Spawn ("cp" :: args) st ∈ events (create_icns_file env fs) → st ≠ Succeeded →
  platform env = "darwin" ∧
  (∃ e, result (create_icns_file env fs) = Raise e ∧ cp_failure e) ∧
  fs_after (create_icns_file env fs) !! iconset_dir = Some Dir ∧
  ∀ argv st', Spawn argv st' ∈ events (create_icns_file env fs) →
              is_cp_spawn (Spawn argv st').
Proof.
  intros Hin Hst.
  destruct (stops_create_icns_file env fs args st Hin Hst) as [Hraise _].
  destruct (decide (platform env = "darwin")) as [Hmac|Hmac].
  2:{ exfalso. revert Hin. unfold create_icns_file. rewrite bool_decide_true by done.
      cbn. by intros [=]%list_elem_of_singleton. }
  split; [done|]. split; [done|].
  destruct Hraise as (e & He & _). revert He.
  rewrite (create_icns_file_on_mac _ Hmac), bind_run, mkdir_events.
  destruct (result (mkdir_exist_ok iconset_dir fs)) as [[]|e'] eqn:Hmk.
  2:{ exfalso. revert Hin. rewrite (create_icns_file_on_mac _ Hmac), bind_run, Hmk.
      rewrite mkdir_events. cbn. by intros [=]%list_elem_of_singleton. }
  apply mkdir_returns in Hmk.
  erewrite bind_outcome by reflexivity. cbv iota. rewrite bind_run.
  pose proof (keeps_icns_copies env (fs_after (mkdir_exist_ok iconset_dir fs)))
    as Hkeep.
  pose proof (emits_icns_copies env (fs_after (mkdir_exist_ok iconset_dir fs)))
    as Hcp.
  destruct (result (icns_copies env (fs_after (mkdir_exist_ok iconset_dir fs))))
    as [[]|e'] eqn:Hcopies.
  - intros He. exfalso. revert Hin.
    rewrite (create_icns_file_on_mac _ Hmac), bind_run.
    destruct (result (mkdir_exist_ok iconset_dir fs)) as [[]|e'].
    2:{ rewrite mkdir_events. cbn. by intros [=]%list_elem_of_singleton. }
    erewrite bind_outcome by reflexivity. cbv iota. rewrite bind_run, Hcopies.
    unfold prepend. cbn [events]. rewrite mkdir_events, !elem_of_app.
    intros [[=]%list_elem_of_singleton|[[=]%list_elem_of_singleton|[Hin|Hin]]].
    + destruct (stops_icns_copies env _ _ _ Hin Hst) as [(e' & He' & _) _].
      congruence.
    + pose proof (emits_no_copy_icns_bundle env
                    (fs_after (icns_copies env
                                 (fs_after (mkdir_exist_ok iconset_dir fs))))) as Hb.
      rewrite Forall_forall in Hb. by destruct (Hb _ Hin).
  - intros _. unfold prepend. cbn [fs_after events].
    split; [by rewrite Hkeep|].
    intros argv st'. rewrite !elem_of_app.
    intros [[=]%list_elem_of_singleton|[[=]%list_elem_of_singleton|Hin']].
    rewrite Forall_forall in Hcp. by apply Hcp.
Qed.

Lemma failed_copy_leaves_staging_witness :
  Spawn ["cp"; png_path 16; "icons/prestige-ai.iconset/icon_16x16.png"] NotFound
    ∈ events (create_icns_file mac_host_without_cp small_tree) ∧
  NotFound ≠ Succeeded ∧
  fs_after (create_icns_file mac_host_without_cp small_tree) !! iconset_dir = Some Dir.
Proof.
  assert (Spawn ["cp"; png_path 16; "icons/prestige-ai.iconset/icon_16x16.png"] NotFound
            ∈ events (create_icns_file mac_host_without_cp small_tree)) as H1
    by by_compute.
  assert (NotFound ≠ Succeeded) as H2 by discriminate.
  split; [exact H1|]. split; [exact H2|].
  exact (proj1 (proj2 (proj2
    (failed_copy_leaves_staging mac_host_without_cp small_tree _ _ H1 H2)))).
Defined.

(** ** The Windows bundle assembler: when it raises *)

(** X18. When some raster of the assembler's sizes exists and [magick] is
    not on the search path, the Windows bundle assembler raises
    [FileNotFoundError]: its handler takes [CalledProcessError] only.
    Nothing has been written then, and no failure line has been printed. *)
Theorem create_ico_file_missing_packer env fs :
  on_path env "magick" = false →
  (∃ size, size ∈ ico_sizes ∧ is_Some (fs !! png_path size)) →
  create_ico_file env fs =
  Outcome (Raise (FileNotFoundError "magick")) fs
    [Print WORK "Creating .ico file..."; Spawn (ico_cmd (ico_inputs fs)) NotFound].
Proof.
  intros Hpath Hsome%some_ico_input.
  rewrite create_ico_file_run, bool_decide_false by done.
  by rewrite exec_ico_cmd, Hpath.
Qed.

Lemma create_ico_file_missing_packer_witness :
  on_path bare_host "magick" = false ∧
  (∃ size, size ∈ ico_sizes ∧ is_Some (small_tree !! png_path size)) ∧
  result (create_ico_file bare_host small_tree) = Raise (FileNotFoundError "magick") ∧
  fs_after (create_ico_file bare_host small_tree) = small_tree.
Proof.
  assert (on_path bare_host "magick" = false) as H1 by reflexivity.
  assert (∃ size, size ∈ ico_sizes ∧ is_Some (small_tree !! png_path size)) as H2.
  { exists 16. split; [by_compute|]. vm_compute. eauto. }
  split; [exact H1|]. split; [exact H2|].
  rewrite (create_ico_file_missing_packer bare_host small_tree H1 H2).
  split; reflexivity.
Defined.

(** ** The configuration emitter *)

(** X19. The configuration emitter fails in one situation only, a
    directory in the place of [electron-build-config.txt]: it then raises
    [IsADirectoryError] after announcing the step, and changes nothing.
    Otherwise it returns, the file holds the build configuration text
    whatever it held before, no other path changes, and running it again
    gives the same events and leaves the directory as it is. *)
Theorem update_electron_config_overwrites fs :
  (∀ e, result (update_electron_config fs) = Raise e ↔
        fs !! "electron-build-config.txt" = Some Dir ∧
        e = IsADirectoryError "electron-build-config.txt") ∧
  (∀ e, result (update_electron_config fs) = Raise e →
        fs_after (update_electron_config fs) = fs ∧
        Print OK "Created electron-build-config.txt with build configuration"
          ∉ events (update_electron_config fs)) ∧
  (result (update_electron_config fs) = Ret tt →
   fs_after (update_electron_config fs) !! "electron-build-config.txt" =
     Some (File package_json_updates) ∧
   (∀ p, p ≠ "electron-build-config.txt" →
         fs_after (update_electron_config fs) !! p = fs !! p) ∧
   update_electron_config (fs_after (update_electron_config fs)) =
     Outcome (Ret tt) (fs_after (update_electron_config fs))
       (events (update_electron_config fs))).
Proof.
  pose proof (update_electron_config_run fs) as Hrun. unfold is_dir in Hrun.
  case_bool_decide as Hdir; rewrite !Hrun; cbn [result fs_after events].
  - split; [|split; [|done]].
    + intros e. split; [by intros [= <-]|by intros [_ ->]].
    + intros e _. split; [done|]. by_compute.
  - split; [|split; [done|]].
    + intros e. split; [done|]. by intros [? _].
    + intros _. split; [apply lookup_insert_eq|]. split.
      * intros p Hp. by rewrite lookup_insert_ne.
      * rewrite update_electron_config_run. unfold is_dir.
        rewrite bool_decide_false by by rewrite lookup_insert_eq.
        by rewrite insert_insert_eq.
Qed.

Lemma update_electron_config_overwrites_witness :
  result (update_electron_config with_svg) = Ret tt ∧
  fs_after (update_electron_config with_svg) !! "electron-build-config.txt" =
    Some (File package_json_updates).
Proof.
  assert (result (update_electron_config with_svg) = Ret tt) as H by reflexivity.
  split; [exact H|].
  exact (proj1 (proj2 (proj2 (update_electron_config_overwrites with_svg)) H)).
Defined.

(** ** The logo writer *)

Lemma open_write_run p text fs :
  parent_is_dir fs p = true →
  open_write p text fs =
  if is_dir fs p then Outcome (Raise (IsADirectoryError p)) fs [OpenW p]
  else Outcome (Ret tt) (<[p := File text]> fs) [OpenW p].
Proof. intros H. unfold open_write. by rewrite H. Qed.

Lemma save_logo_files_run cwd fs :
  save_logo_files cwd fs =
  if is_dir fs "prestige-ai-logo.svg" then
    Outcome (Raise (IsADirectoryError "prestige-ai-logo.svg")) fs
      [OpenW "prestige-ai-logo.svg"]
  else if is_dir fs "logo-conversion-instructions.md" then
    Outcome (Raise (IsADirectoryError "logo-conversion-instructions.md"))
      (<["prestige-ai-logo.svg" := File create_svg_logo]> fs)
      [OpenW "prestige-ai-logo.svg";
       Print OK "SVG logo created successfully!";
       Print FOLDER ("Saved as: " +:+ absolute cwd "prestige-ai-logo.svg");
       OpenW "logo-conversion-instructions.md"]
  else
    Outcome (Ret "prestige-ai-logo.svg")
      (<["logo-conversion-instructions.md" := File instructions]>
         (<["prestige-ai-logo.svg" := File create_svg_logo]> fs))
      [OpenW "prestige-ai-logo.svg";
       Print OK "SVG logo created successfully!";
       Print FOLDER ("Saved as: " +:+ absolute cwd "prestige-ai-logo.svg");
       OpenW "logo-conversion-instructions.md";
       Print CLIPBOARD
         "Conversion instructions saved as: logo-conversion-instructions.md"].
Proof.
  unfold save_logo_files. cbv zeta.
  rewrite bind_run, open_write_run by done.
  destruct (is_dir fs "prestige-ai-logo.svg"); [done|].
  cbn [result fs_after events].
  erewrite bind_outcome by reflexivity. cbv iota.
  erewrite bind_outcome by reflexivity. cbv iota.
  rewrite bind_run, open_write_run by done.
  assert (is_dir (<["prestige-ai-logo.svg" := File create_svg_logo]> fs)
            "logo-conversion-instructions.md" =
          is_dir fs "logo-conversion-instructions.md") as ->.
  { unfold is_dir. by rewrite lookup_insert_ne. }
  by destruct (is_dir fs "logo-conversion-instructions.md").
Qed.

(** X20. The logo writer returns exactly when neither of its two file
    names is a directory.  It then returns the path of the image, the
    image file holds the logo and the notes file holds the conversion
    notes whatever they held before, and no other path changes, so that
    running it again changes nothing. *)
Theorem save_logo_files_writes_both cwd fs :
  ((∃ path, result (save_logo_files cwd fs) = Ret path) ↔
   fs !! "prestige-ai-logo.svg" ≠ Some Dir ∧
   fs !! "logo-conversion-instructions.md" ≠ Some Dir) ∧
  (∀ path, result (save_logo_files cwd fs) = Ret path →
     path = "prestige-ai-logo.svg" ∧
     fs_after (save_logo_files cwd fs) !! "prestige-ai-logo.svg" =
       Some (File create_svg_logo) ∧
     fs_after (save_logo_files cwd fs) !! "logo-conversion-instructions.md" =
       Some (File instructions) ∧
     (∀ p, p ≠ "prestige-ai-logo.svg" → p ≠ "logo-conversion-instructions.md" →
           fs_after (save_logo_files cwd fs) !! p = fs !! p) ∧
     fs_after (save_logo_files cwd (fs_after (save_logo_files cwd fs))) =
       fs_after (save_logo_files cwd fs)).
Proof.
  pose proof (save_logo_files_run cwd fs) as Hrun. unfold is_dir in Hrun.
  case_bool_decide as Hsvg; [|case_bool_decide as Hmd];
    rewrite Hrun; cbn [result fs_after].
  - split; [|done]. split; [by intros [? ?]|by intros [? _]].
  - split; [|done]. split; [by intros [? ?]|by intros [_ ?]].
  - split; [split; [done|by eexists]|].
    intros path [= <-]. split; [done|]. split.
    { rewrite lookup_insert_ne by done. apply lookup_insert_eq. }
    split; [apply lookup_insert_eq|]. split.
    { intros p H1 H2. by rewrite !lookup_insert_ne. }
    rewrite save_logo_files_run. unfold is_dir.
    rewrite bool_decide_false.
    2:{ rewrite lookup_insert_ne by done. by rewrite lookup_insert_eq. }
    rewrite bool_decide_false by by rewrite lookup_insert_eq.
    cbn [fs_after]. apply map_eq. intros p.
    destruct (decide (p = "logo-conversion-instructions.md")) as [->|H1].
    { by rewrite !lookup_insert_eq. }
    rewrite !(lookup_insert_ne _ "logo-conversion-instructions.md") by done.
    destruct (decide (p = "prestige-ai-logo.svg")) as [->|H2].
    { by rewrite !lookup_insert_eq. }
    by rewrite !lookup_insert_ne.
Qed.

Lemma save_logo_files_writes_both_witness :
  result (save_logo_files "/home/dev/app" ∅) = Ret "prestige-ai-logo.svg" ∧
  fs_after (save_logo_files "/home/dev/app" ∅) !! "prestige-ai-logo.svg" =
    Some (File create_svg_logo).
Proof.
  assert (result (save_logo_files "/home/dev/app" ∅) = Ret "prestige-ai-logo.svg")
    as H by reflexivity.
  split; [exact H|].
  exact (proj1 (proj2
    (proj2 (save_logo_files_writes_both "/home/dev/app" ∅) _ H))).
Defined.

(** X21. The logo writer is not atomic: when only the notes file cannot
    be opened because a directory has its name, [IsADirectoryError] is
    raised after the image has been written and announced, and the image
    file stays. *)
Theorem save_logo_files_partial cwd fs :
  fs !! "prestige-ai-logo.svg" ≠ Some Dir →
  fs !! "logo-conversion-instructions.md" = Some Dir →
  result (save_logo_files cwd fs) =
    Raise (IsADirectoryError "logo-conversion-instructions.md") ∧
  fs_after (save_logo_files cwd fs) = <["prestige-ai-logo.svg" := File create_svg_logo]> fs ∧
  Print OK "SVG logo created successfully!" ∈ events (save_logo_files cwd fs) ∧
  last (events (save_logo_files cwd fs)) = Some (OpenW "logo-conversion-instructions.md").
Proof.
  intros Hsvg Hmd. rewrite save_logo_files_run. unfold is_dir.
  rewrite bool_decide_false by done. rewrite bool_decide_true by done.
  cbn [result fs_after events]. split; [done|]. split; [done|].
  split; [|done]. right; left.
Qed.

Lemma save_logo_files_partial_witness :
  notes_is_a_directory !! "prestige-ai-logo.svg" ≠ Some Dir ∧
  notes_is_a_directory !! "logo-conversion-instructions.md" = Some Dir ∧
  fs_after (save_logo_files "/" notes_is_a_directory) =
    <["prestige-ai-logo.svg" := File create_svg_logo]> notes_is_a_directory.
Proof.
  assert (notes_is_a_directory !! "prestige-ai-logo.svg" ≠ Some Dir) as H1
    by (vm_compute; discriminate).
  assert (notes_is_a_directory !! "logo-conversion-instructions.md" = Some Dir) as H2
    by reflexivity.
  split; [exact H1|]. split; [exact H2|].
  exact (proj1 (proj2 (save_logo_files_partial "/" notes_is_a_directory H1 H2))).
Defined.

(** ** When the source image is reported missing *)

Lemma emits_present_check_dependencies env :
  emits (λ e, e ≠ missing_source_line) (check_dependencies env).
Proof.
  intros fs. destruct (check_dependencies_run env fs) as (ev & Heq & _).
  revert Heq. probe_cases env; intros _; cbn [events];
    repeat (apply Forall_cons; split; [by intros [=]|]); by apply Forall_nil.
Qed.

Lemma emits_present_main_tail env :
  emits (λ e, e ≠ missing_source_line) (main_tail env).
Proof.
  unfold main_tail. apply emits_bind.
  { unfold create_icns_file. case_bool_decide.
    { apply emits_bind; [by apply emits_print|intros; apply emits_ret]. }
    apply emits_bind; [by apply emits_mkdir|intros _].
    apply emits_bind; [by apply emits_print|intros _].
    apply emits_bind.
    - apply emits_for_. intros [size filenames] _.
      apply emits_bind; [apply emits_path_exists|]. intros [|]; [|apply emits_ret].
      apply emits_for_. intros filename _. by apply emits_subprocess_run.
    - intros _. apply emits_try_except.
      + apply emits_bind; [by apply emits_subprocess_run|intros _].
        apply emits_bind; [by apply emits_print|intros _].
        apply emits_bind; [by apply emits_subprocess_run|intros; apply emits_ret].
      + intros [] k [=]; subst.
        apply emits_bind; [by apply emits_print_exn|intros; apply emits_ret]. }
  intros _. apply emits_bind.
  { intros fs. rewrite create_ico_file_run.
    case_bool_decide; [apply Forall_cons; split; [by intros [=]|by apply Forall_nil]|].
    destruct (exec env (ico_cmd (ico_inputs fs)) fs) as [[] fs'];
      cbn [events]; repeat (apply Forall_cons; split; [by intros [=]|]);
      by apply Forall_nil. }
  intros _. apply emits_bind.
  { rewrite create_favicon_files_phases.
    apply emits_bind; [by apply emits_print|intros _].
    apply emits_bind.
    - apply emits_bind; [by apply emits_favicon_copy|intros _].
      apply emits_bind; [by apply emits_favicon_copy|intros _; apply emits_ret].
    - intros _ fs. rewrite favicon_pack_run.
      destruct (exists_ fs icon16 && exists_ fs icon32); [|constructor].
      destruct (exec env favicon_ico_cmd fs) as [[] fs'];
        cbn [events]; repeat (apply Forall_cons; split; [by intros [=]|]);
        by apply Forall_nil. }
  intros _. apply emits_bind.
  { intros fs. rewrite update_electron_config_run.
    destruct (is_dir fs "electron-build-config.txt");
      cbn [events]; repeat (apply Forall_cons; split; [by intros [=]|]);
      by apply Forall_nil. }
  intros _ fs. cbn. repeat (apply Forall_cons; split; [by intros [=]|]).
  by apply Forall_nil.
Qed.

Lemma generate_png_sizes_present env fs :
  is_Some (fs !! svg_file) → missing_source_line ∉ events (generate_png_sizes env fs).
Proof.
  intros Hsvg.
  destruct (generate_png_sizes_for_cases env sizes fs Hsvg)
    as (pre & post & _ & _ & Hcases).
  fold (generate_png_sizes env) in Hcases.
  assert (missing_source_line ∉ concat (raster_ok_events <$> pre)) as Hok.
  { by intros (s & _ & [[=]|[=]])%elem_of_raster_ok_events. }
  destruct Hcases as [(_ & _ & ->)|[(s & post' & _ & _ & ->)|(s & post' & _ & _ & ->)]].
  - by intros [[=]|Hin]%elem_of_cons.
  - intros [[=]|[Hin|Hin]%elem_of_app]%elem_of_cons; [done|].
    revert Hin. unfold raster_failed_events.
    rewrite !elem_of_cons, elem_of_nil. by intros [[=]|[[=]|[]]].
  - intros [[=]|[Hin|Hin]%elem_of_app]%elem_of_cons; [done|].
    by apply list_elem_of_singleton in Hin.
Qed.

Lemma not_in_by_emits (x : event) ev : Forall (λ e, e ≠ x) ev → x ∉ ev.
Proof. intros Hev Hin. rewrite Forall_forall in Hev. by apply (Hev _ Hin). Qed.

Lemma main_never_reports_present_source env fs :
  is_Some (fs !! svg_file) → missing_source_line ∉ events (main env fs).
Proof.
  intros Hsvg.
  pose proof (not_in_by_emits _ _ (emits_present_check_dependencies env fs)) as Hc.
  assert (missing_source_line ∉ events (create_directories fs)) as Hd.
  { apply not_in_by_emits. apply (emits_for_ _ ["icons"; "icons/png"; "build"]).
    intros d _. by apply emits_mkdir. }
  assert (missing_source_line ∉ banner) as Hb by by_compute.
  pose proof (generate_png_sizes_present env (fs_after (create_directories fs)))
    as Hg.
  rewrite keeps_create_directories in Hg by by_compute. specialize (Hg Hsvg).
  rewrite main_run.
  destruct (result (check_dependencies env fs)) as [[|]|e0].
  - destruct (result (create_directories fs)) as [[]|e0].
    + cbv zeta.
      destruct (result (generate_png_sizes env (fs_after (create_directories fs))))
        as [[|]|e0].
      * unfold prepend. cbn [events]. rewrite !elem_of_app.
        intros [[Hin|[Hin|[Hin|Hin]]]|Hin]; try done.
        by apply (not_in_by_emits _ _ (emits_present_main_tail env _)) in Hin.
      * cbn [events]. rewrite !elem_of_app.
        intros [[Hin|[Hin|[Hin|Hin]]]|Hin]; try done.
        by apply list_elem_of_singleton in Hin.
      * cbn [events]. rewrite !elem_of_app.
        by intros [Hin|[Hin|[Hin|Hin]]].
    + cbn [events]. rewrite !elem_of_app. by intros [Hin|[Hin|Hin]].
  - cbn [events]. rewrite !elem_of_app.
    intros [Hin|[Hin|Hin]]; try done. revert Hin. by_compute.
  - cbn [events]. rewrite !elem_of_app. by intros [Hin|Hin].
Qed.

(** X22. The pipeline reports the source image as missing in exactly one
    situation: the image is absent, every mandatory tool was found, and the
    three directories could be made.  With the image in place the line
    [SVG file not found] is never printed, whatever else fails. *)
Theorem missing_source_reported_iff env fs :
  missing_source_line ∈ events (main env fs) ↔
  fs !! svg_file = None ∧
  result (check_dependencies env fs) = Ret true ∧
  result (create_directories fs) = Ret tt.
Proof.
  destruct (fs !! svg_file) as [n|] eqn:Hsvg.
  { split; [|by intros [? _]]. intros Hin.
    destruct (main_never_reports_present_source env fs); [by rewrite Hsvg|done]. }
  pose proof (not_in_by_emits _ _ (emits_present_check_dependencies env fs)) as Hc.
  assert (missing_source_line ∉ events (create_directories fs)) as Hd.
  { apply not_in_by_emits. apply (emits_for_ _ ["icons"; "icons/png"; "build"]).
    intros d _. by apply emits_mkdir. }
  assert (missing_source_line ∉ banner) as Hb by by_compute.
  rewrite main_run.
  destruct (result (check_dependencies env fs)) as [[|]|e0].
  - destruct (result (create_directories fs)) as [[]|e0].
    + cbv zeta. split; [done|]. intros _. unfold generate_png_sizes.
      rewrite generate_png_sizes_for_no_svg
        by by rewrite keeps_create_directories by by_compute.
      cbn [result events]. rewrite !elem_of_app. left. do 3 right. left.
    + split; [|by intros (_ & _ & ?)]. cbn [events]. rewrite !elem_of_app.
      by intros [Hin|[Hin|Hin]].
  - split; [|by intros (_ & ? & _)]. cbn [events]. rewrite !elem_of_app.
    intros [Hin|[Hin|Hin]]; try done. exfalso. revert Hin. by_compute.
  - split; [|by intros (_ & ? & _)]. cbn [events]. rewrite !elem_of_app.
    by intros [Hin|Hin].
Qed.

(** ** From the logo writer to the pipeline *)

(** X23. The two scripts fit together: the path the logo writer returns is
    the one the pipeline reads.  In the directory a returning logo writer
    leaves, the rasterizer is given exactly the logo, the pipeline never
    reports the source image as missing, and the raster generator goes
    straight to the rasterizer for the first size. *)
Theorem logo_writer_feeds_pipeline cwd fs env path :
  result (save_logo_files cwd fs) = Ret path →
  path = svg_file ∧
  fs_after (save_logo_files cwd fs) !! svg_file = Some (File create_svg_logo) ∧
  (∀ size png,
     rasterized env (fs_after (save_logo_files cwd fs)) size png ↔
     rasterize env create_svg_logo (geometry size) = Some png) ∧
  (missing_source_line ∉ events (main env (fs_after (save_logo_files cwd fs)))) ∧
  ∃ st, events (generate_png_sizes env (fs_after (save_logo_files cwd fs))) !! 1%nat =
          Some (Spawn (raster_cmd 16) st).
Proof.
  rewrite save_logo_files_run.
  destruct (is_dir fs "prestige-ai-logo.svg"); [done|].
  destruct (is_dir fs "logo-conversion-instructions.md"); [done|].
  cbn [result fs_after]. intros [= <-].
  set (fs' := <["logo-conversion-instructions.md" := File instructions]>
                (<["prestige-ai-logo.svg" := File create_svg_logo]> fs)).
  assert (fs' !! svg_file = Some (File create_svg_logo)) as Hsvg.
  { unfold fs', svg_file. rewrite lookup_insert_ne by done. apply lookup_insert_eq. }
  split; [done|]. split; [done|]. split; [|split].
  - intros size png. unfold rasterized. rewrite Hsvg. split.
    + by intros (svg & [= <-] & ?).
    + intros H. by exists create_svg_logo.
  - apply main_never_reports_present_source. by rewrite Hsvg.
  - destruct (generate_png_sizes_for_cases env sizes fs')
      as (pre & post & Hsplit & _ & Hcases); [by rewrite Hsvg|].
    fold (generate_png_sizes env) in Hcases.
    destruct pre as [|s0 pre].
    + cbn in Hsplit. subst post.
      destruct Hcases
        as [([=] & _)|[(s & post' & [= <- <-] & _ & ->)|(s & post' & [= <- <-] & _ & ->)]];
        by eexists.
    + injection Hsplit as <- _.
      destruct Hcases as [(_ & _ & ->)|[(s & post' & _ & _ & ->)|(s & post' & _ & _ & ->)]];
        by eexists.
Qed.

Lemma logo_writer_feeds_pipeline_witness :
  result (save_logo_files "/home/dev/app" ∅) = Ret "prestige-ai-logo.svg" ∧
  missing_source_line
    ∉ events (main linux_host (fs_after (save_logo_files "/home/dev/app" ∅))).
Proof.
  assert (result (save_logo_files "/home/dev/app" ∅) = Ret "prestige-ai-logo.svg")
    as H by reflexivity.
  split; [exact H|].
  exact (proj1 (proj2 (proj2 (proj2
    (logo_writer_feeds_pipeline "/home/dev/app" ∅ linux_host _ H))))).
Defined.

(** ** A run in which nothing fails *)

Lemma ico_inputs_all fs :
  (∀ size, size ∈ ico_sizes → is_Some (fs !! png_path size)) →
  ico_inputs fs = png_path <$> ico_sizes.
Proof.
  unfold ico_inputs. generalize ico_sizes. intros l H.
  induction l as [|s l IH]; [done|]. cbn.
  unfold exists_ at 1. rewrite bool_decide_true by (apply H; left).
  f_equal. apply IH. intros size Hs. apply H. by right.
Qed.

Lemma create_icns_file_clean env fs b :
  platform env = "darwin" →
  result (create_icns_file env fs) = Ret b →
  (∀ argv, Spawn argv Failed ∉ events (create_icns_file env fs)) →
  b = true.
Proof.
  intros Hmac. rewrite (create_icns_file_on_mac _ Hmac), bind_run.
  destruct (result (mkdir_exist_ok iconset_dir fs)) as [[]|e]; [|done].
  erewrite bind_outcome by reflexivity. cbv iota. rewrite bind_run.
  destruct (result (icns_copies env _)) as [[]|e]; [|done].
  rewrite icns_bundle_run.
  destruct (exec env iconutil_cmd _) as [[] fs3]; [done| |].
  - destruct (exec env rm_cmd fs3) as [[] fs4]; [done|by intros [= <-]|].
    intros _ H. destruct (H rm_cmd). unfold prepend. cbn [events].
    rewrite !elem_of_app. do 3 right. right. right. left.
  - intros _ H. destruct (H iconutil_cmd). unfold prepend. cbn [events].
    rewrite !elem_of_app. do 3 right. left.
Qed.

Lemma create_ico_file_clean env fs :
  (∀ size, size ∈ ico_sizes → is_Some (fs !! png_path size)) →
  (∃ b, result (create_ico_file env fs) = Ret b) →
  (∀ argv, Spawn argv Failed ∉ events (create_ico_file env fs)) →
  Spawn (ico_cmd (png_path <$> ico_sizes)) Succeeded ∈ events (create_ico_file env fs) ∧
  ∃ ico, fs_after (create_ico_file env fs) !! ico_file = Some (File ico).
Proof.
  intros Hall. rewrite create_ico_file_run, exec_ico_cmd.
  rewrite (ico_inputs_all fs Hall).
  rewrite bool_decide_false by done.
  destruct (on_path env "magick"); [|by intros [b [=]]].
  destruct (exec_pack_cases env (png_path <$> ico_sizes) ico_file fs)
    as [(images & ico & _ & _ & ->)| ->]; cbn [result fs_after events].
  - intros _ _. split; [right; left|]. exists ico. apply lookup_insert_eq.
  - intros _ H. destruct (H (ico_cmd (png_path <$> ico_sizes))). right; left.
Qed.

Lemma create_favicon_files_clean env fs c16 c32 :
  fs !! icon16 = Some (File c16) → fs !! icon32 = Some (File c32) →
  (∃ a, result (create_favicon_files env fs) = Ret a) →
  (∀ argv, Spawn argv Failed ∉ events (create_favicon_files env fs)) →
  (∃ ico, fs_after (create_favicon_files env fs) !! "favicon.ico" = Some (File ico)) ∧
  (fs !! "favicon.png" ≠ Some Dir →
   fs_after (create_favicon_files env fs) !! "favicon.png" = Some (File c32)) ∧
  (fs !! "favicon-16x16.png" ≠ Some Dir →
   fs_after (create_favicon_files env fs) !! "favicon-16x16.png" = Some (File c16)).
Proof.
  intros H16 H32.
  destruct (create_favicon_files_cases env fs)
    as [(e & st & args & ev & fs' & -> & _)|(ev & -> & _ & _ & _)];
    [by intros [a [=]]|].
  set (fs1 := copied fs icon32 "favicon.png").
  set (fs2 := copied fs1 icon16 "favicon-16x16.png").
  assert (fs2 !! icon16 = Some (File c16)) as H16'.
  { unfold fs2, fs1. by rewrite copied_twice_lookup by by_compute. }
  assert (fs2 !! icon32 = Some (File c32)) as H32'.
  { unfold fs2, fs1. by rewrite copied_twice_lookup by by_compute. }
  rewrite favicon_pack_run. unfold exists_.
  rewrite !bool_decide_true by (by rewrite ?H16', ?H32'). cbn [andb].
  rewrite exec_favicon_ico.
  destruct (on_path env "magick"); [|by intros [a [=]]].
  destruct (exec_pack_cases env [icon16; icon32] "favicon.ico" fs2)
    as [(images & ico & _ & _ & ->)| ->]; unfold prepend; cbn [result fs_after events].
  2:{ intros _ H. destruct (H favicon_ico_cmd). apply elem_of_app. right. left. }
  intros _ _. split; [exists ico; apply lookup_insert_eq|]. split.
  - intros Hdst. rewrite lookup_insert_ne by done.
    unfold fs2. rewrite copied_lookup_ne by done.
    by apply copied_lookup_target.
  - intros Hdst. rewrite lookup_insert_ne by done.
    apply copied_lookup_target.
    + unfold fs1. by rewrite copied_lookup_ne.
    + unfold fs1. by rewrite copied_lookup_ne.
Qed.

Lemma bind_ret_inv {A B} (m : M A) (k : A → M B) fs b :
  result ((m ≫= k) fs) = Ret b →
  ∃ a, result (m fs) = Ret a ∧
       result (k a (fs_after (m fs))) = Ret b ∧
       events ((m ≫= k) fs) = events (m fs) ++ events (k a (fs_after (m fs))) ∧
       fs_after ((m ≫= k) fs) = fs_after (k a (fs_after (m fs))).
Proof.
  rewrite bind_run. destruct (result (m fs)) as [a|e]; [|done].
  intros H. by exists a.
Qed.

Lemma ico_sizes_are_sizes size : size ∈ ico_sizes → size ∈ sizes.
Proof.
  unfold ico_sizes, sizes. rewrite !elem_of_cons, !elem_of_nil. tauto.
Qed.

Lemma main_tail_clean env fs :
  (∀ size, size ∈ sizes → ∃ png, fs !! png_path size = Some (File png)) →
  result (main_tail env fs) = Ret tt →
  (∀ argv, Spawn argv Failed ∉ events (main_tail env fs)) →
  completes (main_tail env fs) ∧
  Spawn (ico_cmd (png_path <$> ico_sizes)) Succeeded ∈ events (main_tail env fs) ∧
  (∃ ico, fs_after (main_tail env fs) !! ico_file = Some (File ico)) ∧
  (∃ ico, fs_after (main_tail env fs) !! "favicon.ico" = Some (File ico)) ∧
  (fs !! "favicon.png" ≠ Some Dir →
   fs_after (main_tail env fs) !! "favicon.png" = fs !! png_path 32) ∧
  (fs !! "favicon-16x16.png" ≠ Some Dir →
   fs_after (main_tail env fs) !! "favicon-16x16.png" = fs !! png_path 16) ∧
  (platform env = "darwin" →
   (∃ icns, fs_after (main_tail env fs) !! "icons/prestige-ai.icns" =
              Some (File icns)) ∧
   fs_after (main_tail env fs) !! iconset_dir = None).
Proof.
  intros Hpng Hr Hclean. unfold completes, main_tail in *.
  destruct (bind_ret_inv _ _ _ _ Hr) as (b1 & Hr1 & Hrest1 & Hev1 & Hfs1).
  set (fs1 := fs_after (create_icns_file env fs)) in *.
  destruct (bind_ret_inv _ _ _ _ Hrest1) as (b2 & Hr2 & Hrest2 & Hev2 & Hfs2).
  set (fs2 := fs_after (create_ico_file env fs1)) in *.
  destruct (bind_ret_inv _ _ _ _ Hrest2) as ([] & Hr3 & Hrest3 & Hev3 & Hfs3).
  set (fs3 := fs_after (create_favicon_files env fs2)) in *.
  destruct (bind_ret_inv _ _ _ _ Hrest3) as ([] & Hr4 & Hrest4 & Hev4 & Hfs4).
  set (fs4 := fs_after (update_electron_config fs3)) in *.
  rewrite Hfs1, Hfs2, Hfs3, Hfs4, Hev1, Hev2, Hev3, Hev4.
  change (fs_after (print_summary fs4)) with fs4.
  rewrite Hev1, Hev2, Hev3, Hev4 in Hclean.
  assert (∀ argv, Spawn argv Failed ∉ events (create_icns_file env fs)) as Hc1.
  { intros argv Hin. apply (Hclean argv). rewrite !elem_of_app. by left. }
  assert (∀ argv, Spawn argv Failed ∉ events (create_ico_file env fs1)) as Hc2.
  { intros argv Hin. apply (Hclean argv). rewrite !elem_of_app. right. by left. }
  assert (∀ argv, Spawn argv Failed ∉ events (create_favicon_files env fs2)) as Hc3.
  { intros argv Hin. apply (Hclean argv). rewrite !elem_of_app. do 2 right. by left. }
  assert (∀ size, size ∈ sizes → fs1 !! png_path size = fs !! png_path size) as Hk1.
  { intros size Hsize. destruct (tail_untouched_png size Hsize) as (? & ? & ? & _).
    by apply keeps_create_icns_file. }
  assert (∀ p, p ≠ ico_file → fs2 !! p = fs1 !! p) as Hk2.
  { intros p Hp. by apply keeps_create_ico_file. }
  assert (∀ p, p ∉ "favicon.ico" :: favicon_copy_targets → fs3 !! p = fs2 !! p) as Hk3.
  { intros p Hp. by apply keeps_create_favicon_files. }
  assert (∀ p, p ≠ "electron-build-config.txt" → fs4 !! p = fs3 !! p) as Hk4.
  { intros p Hp. by apply keeps_update_electron_config. }
  assert (∀ p, p ≠ iconset_dir → under iconset_dir p = false →
               p ≠ "icons/prestige-ai.icns" → fs1 !! p = fs !! p) as Hk1'.
  { intros p ? ? ?. by apply keeps_create_icns_file. }
  destruct (create_ico_file_clean env fs1) as (Hspawn & ico & Hico); [|by eexists|done|].
  { intros size Hsize%ico_sizes_are_sizes. rewrite Hk1 by done.
    destruct (Hpng size Hsize) as [png ->]. by eexists. }
  destruct (Hpng 16) as [c16 H16]; [by_compute|].
  destruct (Hpng 32) as [c32 H32]; [by_compute|].
  destruct (create_favicon_files_clean env fs2 c16 c32)
    as ((fico & Hfico) & Hfav32 & Hfav16); [..|by eexists|done|].
  { change icon16 with (png_path 16). rewrite Hk2 by by_compute.
    rewrite Hk1 by by_compute. done. }
  { change icon32 with (png_path 32). rewrite Hk2 by by_compute.
    rewrite Hk1 by by_compute. done. }
  fold fs3 in Hfico, Hfav32, Hfav16.
  split; [|split; [|split; [|split; [|split; [|split]]]]].
  - rewrite !elem_of_app. do 4 right. by_compute.
  - rewrite !elem_of_app. right. by left.
  - exists ico. rewrite Hk4 by by_compute. rewrite Hk3 by by_compute. done.
  - exists fico. by rewrite Hk4 by by_compute.
  - intros Hdst. rewrite Hk4 by by_compute. rewrite Hfav32, H32; [done|].
    rewrite Hk2 by by_compute. by rewrite Hk1' by by_compute.
  - intros Hdst. rewrite Hk4 by by_compute. rewrite Hfav16, H16; [done|].
    rewrite Hk2 by by_compute. by rewrite Hk1' by by_compute.
  - intros Hmac.
    assert (b1 = true) as -> by by eapply create_icns_file_clean.
    destruct (create_icns_file_returns_true env fs Hmac Hr1)
      as (ev_i & fs_i & icns & Heq).
    assert (fs1 = (rm_rf iconset_dir (<["icons/prestige-ai.icns" := File icns]> fs_i)).2)
      as Hfs1' by (unfold fs1; by rewrite Heq).
    split.
    + exists icns. rewrite Hk4 by by_compute. rewrite Hk3 by by_compute.
      rewrite Hk2 by by_compute. rewrite Hfs1'.
      rewrite rm_rf_keeps by by_compute. apply lookup_insert_eq.
    + rewrite Hk4 by by_compute. rewrite Hk3 by by_compute.
      rewrite Hk2 by by_compute. rewrite Hfs1'. apply rm_rf_removes. by left.
Qed.

Lemma check_dependencies_true env fs :
  (∀ tool, tool ∈ required_tools.*1 →
     mandatory env tool = true → available env tool = true) →
  result (check_dependencies env fs) = Ret true.
Proof.
  rewrite forall_required_tools. intros [Hmagick Hutil].
  destruct (check_dependencies_run env fs) as (ev & -> & _). cbn [result].
  rewrite Hmagick by done. cbn [andb]. f_equal.
  unfold mandatory in Hutil. rewrite bool_decide_true in Hutil by done.
  cbn [andb] in Hutil.
  destruct (bool_decide (platform env ≠ "darwin")); [apply orb_true_r|].
  by rewrite Hutil.
Qed.

(** X24. A run in which nothing fails produces everything.  Suppose the
    source image is there, every mandatory tool is available, the run
    returns normally and no command of the run exits with a non-zero
    status.  Then the run reaches the completion line; every configured
    size has its raster; the [.ico] is packed from all six rasters of its
    sizes and is a regular file, and so is [favicon.ico]; [favicon.png] and
    [favicon-16x16.png] hold the bytes of the 32px and the 16px raster
    (unless a directory of that name was in the way); and on macOS the
    [.icns] bundle is a regular file and the staging directory is gone. *)
Theorem clean_run_produces_everything env fs :
  is_Some (fs !! svg_file) →
  (∀ tool, tool ∈ required_tools.*1 →
     mandatory env tool = true → available env tool = true) →
  result (main env fs) = Ret tt →
  (∀ argv, Spawn argv Failed ∉ events (main env fs)) →
  completes (main env fs) ∧
  (∀ size, size ∈ sizes →
     ∃ png, rasterized env fs size png ∧
            fs_after (main env fs) !! png_path size = Some (File png)) ∧
  Spawn (ico_cmd (png_path <$> ico_sizes)) Succeeded ∈ events (main env fs) ∧
  (∃ ico, fs_after (main env fs) !! ico_file = Some (File ico)) ∧
  (∃ ico, fs_after (main env fs) !! "favicon.ico" = Some (File ico)) ∧
  (fs !! "favicon.png" ≠ Some Dir →
   fs_after (main env fs) !! "favicon.png" = fs_after (main env fs) !! png_path 32) ∧
  (fs !! "favicon-16x16.png" ≠ Some Dir →
   fs_after (main env fs) !! "favicon-16x16.png" =
     fs_after (main env fs) !! png_path 16) ∧
  (platform env = "darwin" →
   (∃ icns, fs_after (main env fs) !! "icons/prestige-ai.icns" = Some (File icns)) ∧
   fs_after (main env fs) !! iconset_dir = None).
Proof.
  intros Hsvg Hdeps%(check_dependencies_true env fs).
  pose proof (main_run env fs) as Hrun. rewrite Hdeps in Hrun.
  assert (∀ p, p ∉ output_dirs → fs_after (create_directories fs) !! p = fs !! p)
    as Hkd by (intros p Hp; by apply keeps_create_directories).
  set (fs_d := fs_after (create_directories fs)) in *.
  assert (∀ p, p ∉ png_path <$> sizes →
               fs_after (generate_png_sizes env fs_d) !! p = fs_d !! p) as Hkg
    by (intros p Hp; by apply keeps_generate_png_sizes_for).
  assert (is_Some (fs_d !! svg_file)) as Hsvg_d by (rewrite Hkd; [done|by_compute]).
  destruct (generate_png_sizes_for_cases env sizes fs_d Hsvg_d)
    as (pre & post & Hsplit & [_ Hfiles] & Hcases).
  fold (generate_png_sizes env) in Hfiles, Hcases.
  set (fs_g := fs_after (generate_png_sizes env fs_d)) in *.
  destruct (result (create_directories fs)) as [[]|e0].
  2:{ rewrite Hrun. by intros [=]. }
  cbv zeta in Hrun.
  destruct Hcases as [(-> & Hr & He)|[(s & post' & -> & Hr & He)|(s & post' & -> & Hr & He)]];
    rewrite Hr in Hrun; rewrite Hrun.
  3:{ by intros [=]. }
  2:{ intros _ H. destruct (H (raster_cmd s)). cbn [events]. rewrite He.
      rewrite !elem_of_app. left. do 3 right. right. apply elem_of_app. right. left. }
  rewrite app_nil_r in Hsplit. subst pre.
  unfold prepend, completes. cbn [result fs_after events]. intros Hr_t Hclean.
  assert (∀ argv, Spawn argv Failed ∉ events (main_tail env fs_g)) as Hclean_t.
  { intros argv Hin. apply (Hclean argv). apply elem_of_app. by right. }
  assert (∀ size, size ∈ sizes → ∃ png, fs_g !! png_path size = Some (File png))
    as Hpng.
  { intros size Hsize. destruct (Hfiles size Hsize) as (png & _ & Hfile). by exists png. }
  destruct (main_tail_clean env fs_g Hpng Hr_t Hclean_t)
    as (Hc & Hspawn & Hico & Hfico & Hf32 & Hf16 & Hmac).
  assert (∀ size, size ∈ sizes →
            fs_after (main_tail env fs_g) !! png_path size = fs_g !! png_path size)
    as Hkt.
  { intros size Hsize. by apply keeps_main_tail, tail_untouched_png. }
  split; [apply elem_of_app; by right|]. split; [|split; [|split; [done|split; [done|]]]].
  - intros size Hsize. destruct (Hfiles size Hsize) as (png & Hrast & Hfile).
    exists png. split; [|by rewrite Hkt].
    eapply rasterized_same_svg; [|exact Hrast]. apply Hkd. by_compute.
  - apply elem_of_app. by right.
  - split; [|split; [|done]].
    + intros Hdst. rewrite Hkt by by_compute. apply Hf32.
      unfold fs_g. rewrite Hkg by by_compute. by rewrite Hkd by by_compute.
    + intros Hdst. rewrite Hkt by by_compute. apply Hf16.
      unfold fs_g. rewrite Hkg by by_compute. by rewrite Hkd by by_compute.
Qed.

Lemma clean_run_produces_everything_witness :
  is_Some (with_svg !! svg_file) ∧
  result (main mac_host with_svg) = Ret tt ∧
  (∀ argv, Spawn argv Failed ∉ events (main mac_host with_svg)) ∧
  completes (main mac_host with_svg) ∧
  fs_after (main mac_host with_svg) !! "favicon.png" =
    fs_after (main mac_host with_svg) !! png_path 32 ∧
  fs_after (main mac_host with_svg) !! iconset_dir = None.
Proof.
  assert (is_Some (with_svg !! svg_file)) as H1 by (vm_compute; eauto).
  assert (∀ tool, tool ∈ required_tools.*1 →
            mandatory mac_host tool = true → available mac_host tool = true) as H2.
  { intros tool. change (required_tools.*1) with ["magick"; "iconutil"].
    rewrite !elem_of_cons, elem_of_nil. by intros [->|[->|[]]]. }
  assert (result (main mac_host with_svg) = Ret tt) as H3 by (vm_compute; reflexivity).
  assert (∀ argv, Spawn argv Failed ∉ events (main mac_host with_svg)) as H4.
  { intros argv Hin.
    assert (Forall (λ e, match e with Spawn _ Failed => False | _ => True end)
              (events (main mac_host with_svg))) as Hall by all_events.
    rewrite Forall_forall in Hall. exact (Hall _ Hin). }
  destruct (clean_run_produces_everything mac_host with_svg H1 H2 H3 H4)
    as (Hc & _ & _ & _ & _ & Hfav & _ & Hmac).
  split; [exact H1|]. split; [exact H3|]. split; [exact H4|]. split; [exact Hc|].
  split.
  - apply Hfav. vm_compute. discriminate.
  - by apply Hmac.
Defined.

(** ** The assemblers only read the rasters *)

(** X25. The stages after the raster generator never write a raster or
    the source image: each of the three assemblers and the configuration
    emitter leaves [icons/png/icon-{size}x{size}.png] of every configured
    size, and [prestige-ai-logo.svg], exactly as it found them, whether it
    succeeds, fails or raises. *)
Theorem assemblers_only_read_rasters env fs p :
  p = svg_file ∨ (∃ size, size ∈ sizes ∧ p = png_path size) →
  fs_after (create_icns_file env fs) !! p = fs !! p ∧
  fs_after (create_ico_file env fs) !! p = fs !! p ∧
  fs_after (create_favicon_files env fs) !! p = fs !! p ∧
  fs_after (update_electron_config fs) !! p = fs !! p.
Proof.
  intros Hp.
  assert (tail_untouched p) as (H1 & H2 & H3 & H4 & H5 & H6).
  { destruct Hp as [->|(size & Hsize & ->)];
      [apply tail_untouched_svg|by apply tail_untouched_png]. }
  split; [by apply keeps_create_icns_file|].
  split; [by apply keeps_create_ico_file|].
  split; [by apply keeps_create_favicon_files|].
  by apply keeps_update_electron_config.
Qed.

Lemma assemblers_only_read_rasters_witness :
  (png_path 32 = svg_file ∨ ∃ size, size ∈ sizes ∧ png_path 32 = png_path size) ∧
  fs_after (create_favicon_files linux_host small_tree) !! png_path 32 =
    Some (File "png32").
Proof.
  assert (png_path 32 = svg_file ∨ ∃ size, size ∈ sizes ∧ png_path 32 = png_path size)
    as H.
  { right. exists 32. split; [by_compute|reflexivity]. }
  split; [exact H|].
  by rewrite (proj1 (proj2 (proj2
    (assemblers_only_read_rasters linux_host small_tree _ H)))).
Defined.

(** ** What the staging directory holds *)

#[global] Instance alias_writes_dec p source filename :
  Decision (alias_writes p source filename).
Proof. unfold alias_writes. apply _. Defined.

Lemma icns_copies_entries env : icns_copies env = for_ icon_mappings (icns_entry env).
Proof. reflexivity. Qed.

Lemma for_app {A} (l1 l2 : list A) (body : A → M unit) fs :
  for_ (l1 ++ l2) body fs = (for_ l1 body;; for_ l2 body) fs.
Proof.
  revert fs. induction l1 as [|x l1 IH]; intros fs; cbn [app for_].
  - rewrite bind_run. cbn. by destruct (for_ l2 body fs).
  - rewrite (bind_run (body x)), (bind_run (_ ≫= _)), (bind_run (body x)).
    destruct (result (body x fs)) as [[]|e]; cbn [result fs_after events prepend];
      [|done].
    rewrite IH, bind_run.
    destruct (result (for_ l1 body (fs_after (body x fs)))) as [[]|e];
      unfold prepend; cbn [result fs_after events]; [|done].
    by rewrite app_assoc.
Qed.

Lemma keeps_alias_copies env p source filenames :
  Forall (λ filename, ¬ alias_writes p source filename) filenames →
  keeps p (for_ filenames (λ filename,
             subprocess_run env ["cp"; source; iconset_dir +:+ "/" +:+ filename])).
Proof.
  intros H. apply keeps_for_. intros filename Hin.
  rewrite Forall_forall in H. specialize (H _ Hin). unfold alias_writes in H.
  apply keeps_subprocess_run, exec_keeps_cp; tauto.
Qed.

Lemma keeps_icns_entry env p size filenames :
  Forall (λ filename, ¬ alias_writes p (png_path size) filename) filenames →
  keeps p (icns_entry env (size, filenames)).
Proof.
  intros H. apply keeps_bind; [apply keeps_path_exists|].
  intros [|]; [by apply keeps_alias_copies|apply keeps_ret].
Qed.

Lemma keeps_icns_entries env p l :
  Forall (λ entry,
            Forall (λ filename, ¬ alias_writes p (png_path entry.1) filename) entry.2) l →
  keeps p (for_ l (icns_entry env)).
Proof.
  intros H. apply keeps_for_. intros [size filenames] Hin.
  rewrite Forall_forall in H. by apply keeps_icns_entry, (H _ Hin).
Qed.

(** A returning copy loop over one raster leaves the raster's bytes at each
    of its aliases. *)
Lemma alias_copies_hold env source c filenames filename fs :
  NoDup filenames → filename ∈ filenames →
  Forall (λ other, ¬ alias_writes source source other) filenames →
  Forall (λ other, other = filename ∨
                   ¬ alias_writes (iconset_dir +:+ "/" +:+ filename) source other)
    filenames →
  fs !! source = Some (File c) →
  fs !! (iconset_dir +:+ "/" +:+ filename) ≠ Some Dir →
  result (for_ filenames (λ filename,
            subprocess_run env ["cp"; source; iconset_dir +:+ "/" +:+ filename]) fs)
    = Ret tt →
  fs_after (for_ filenames (λ filename,
              subprocess_run env ["cp"; source; iconset_dir +:+ "/" +:+ filename]) fs)
    !! (iconset_dir +:+ "/" +:+ filename) = Some (File c).
Proof.
  intros Hnodup Hin Hsrc Hdst Hc Hdir.
  apply list_elem_of_split in Hin as (pre & post & ->).
  apply NoDup_app in Hnodup as (_ & Hpre & [Hpost _]%NoDup_cons).
  apply Forall_app in Hsrc as [Hsrc_pre [Hsrc_fn Hsrc_post]%Forall_cons].
  apply Forall_app in Hdst as [Hdst_pre [_ Hdst_post]%Forall_cons].
  assert (Forall (λ other, ¬ alias_writes (iconset_dir +:+ "/" +:+ filename)
                             source other) pre) as Hpre'.
  { rewrite Forall_forall in Hdst_pre. apply Forall_forall. intros other Ho.
    destruct (Hdst_pre _ Ho) as [->|H]; [|done]. destruct (Hpre _ Ho). left. }
  assert (Forall (λ other, ¬ alias_writes (iconset_dir +:+ "/" +:+ filename)
                             source other) post) as Hpost'.
  { rewrite Forall_forall in Hdst_post. apply Forall_forall. intros other Ho.
    destruct (Hdst_post _ Ho) as [->|H]; [by destruct Hpost|done]. }
  rewrite for_app. intros Hr.
  destruct (bind_ret_inv _ _ _ _ Hr) as ([] & _ & Hr' & _ & ->).
  set (fs1 := fs_after (for_ pre _ fs)) in *.
  assert (fs1 !! source = Some (File c)) as Hc1.
  { unfold fs1. by rewrite (keeps_alias_copies env source source pre Hsrc_pre). }
  assert (fs1 !! (iconset_dir +:+ "/" +:+ filename) ≠ Some Dir) as Hdir1.
  { unfold fs1. by rewrite (keeps_alias_copies env _ source pre Hpre'). }
  cbn [for_] in Hr' |- *.
  destruct (bind_ret_inv _ _ _ _ Hr') as ([] & Hcp & _ & _ & ->).
  rewrite (keeps_alias_copies env _ source post Hpost').
  revert Hcp. rewrite subprocess_run_eq. cbn [result fs_after].
  destruct (exec env ["cp"; source; iconset_dir +:+ "/" +:+ filename] fs1)
    as [[] fs2] eqn:Hexec; cbn [fst snd]; try done.
  intros _. apply exec_cp_succeeded in Hexec as (c' & Hc' & ->).
  unfold is_dir. rewrite bool_decide_false by done.
  rewrite lookup_insert_eq. congruence.
Qed.

(** The same for the whole table. *)
Lemma icns_entries_hold env l size filenames filename c fs :
  NoDup l → (size, filenames) ∈ l →
  NoDup filenames → filename ∈ filenames →
  Forall (λ entry,
            Forall (λ other, ¬ alias_writes (png_path size) (png_path entry.1) other)
              entry.2) l →
  Forall (λ entry,
            entry = (size, filenames) ∨
            Forall (λ other, ¬ alias_writes (iconset_dir +:+ "/" +:+ filename)
                               (png_path entry.1) other) entry.2) l →
  Forall (λ other, other = filename ∨
                   ¬ alias_writes (iconset_dir +:+ "/" +:+ filename)
                       (png_path size) other) filenames →
  fs !! png_path size = Some (File c) →
  fs !! (iconset_dir +:+ "/" +:+ filename) ≠ Some Dir →
  result (for_ l (icns_entry env) fs) = Ret tt →
  fs_after (for_ l (icns_entry env) fs) !! (iconset_dir +:+ "/" +:+ filename) =
    Some (File c).
Proof.
  intros Hnodup Hin Hnodup' Hin' Hsrc Hdst Hdst' Hc Hdir.
  apply list_elem_of_split in Hin as (pre & post & ->).
  apply NoDup_app in Hnodup as (_ & Hpre & [Hpost _]%NoDup_cons).
  apply Forall_app in Hsrc as [Hsrc_pre [Hsrc_e Hsrc_post]%Forall_cons].
  apply Forall_app in Hdst as [Hdst_pre [_ Hdst_post]%Forall_cons].
  assert (Forall (λ entry,
            Forall (λ other, ¬ alias_writes (iconset_dir +:+ "/" +:+ filename)
                               (png_path entry.1) other) entry.2) pre) as Hpre'.
  { rewrite Forall_forall in Hdst_pre. apply Forall_forall. intros [s' f'] Ho.
    destruct (Hdst_pre _ Ho) as [[= -> ->]|H]; [|done]. destruct (Hpre _ Ho). left. }
  assert (Forall (λ entry,
            Forall (λ other, ¬ alias_writes (iconset_dir +:+ "/" +:+ filename)
                               (png_path entry.1) other) entry.2) post) as Hpost'.
  { rewrite Forall_forall in Hdst_post. apply Forall_forall. intros [s' f'] Ho.
    destruct (Hdst_post _ Ho) as [[= -> ->]|H]; [by destruct Hpost|done]. }
  rewrite for_app. intros Hr.
  destruct (bind_ret_inv _ _ _ _ Hr) as ([] & _ & Hr' & _ & ->).
  set (fs1 := fs_after (for_ pre _ fs)) in *.
  assert (fs1 !! png_path size = Some (File c)) as Hc1.
  { unfold fs1. by rewrite (keeps_icns_entries env _ pre Hsrc_pre). }
  assert (fs1 !! (iconset_dir +:+ "/" +:+ filename) ≠ Some Dir) as Hdir1.
  { unfold fs1. by rewrite (keeps_icns_entries env _ pre Hpre'). }
  cbn [for_] in Hr' |- *.
  destruct (bind_ret_inv _ _ _ _ Hr') as ([] & Hentry & _ & _ & ->).
  rewrite (keeps_icns_entries env _ post Hpost').
  revert Hentry. unfold icns_entry.
  erewrite !bind_outcome by reflexivity. cbv iota.
  unfold exists_. rewrite bool_decide_true by by rewrite Hc1.
  unfold prepend. cbn [result fs_after app].
  by apply alias_copies_hold.
Qed.

Lemma icon_mappings_eq :
  icon_mappings =
  [(16, ["icon_16x16.png"]);
   (32, ["icon_16x16@2x.png"; "icon_32x32.png"]);
   (64, ["icon_32x32@2x.png"]);
   (128, ["icon_128x128.png"]);
   (256, ["icon_128x128@2x.png"; "icon_256x256.png"]);
   (512, ["icon_256x256@2x.png"; "icon_512x512.png"]);
   (1024, ["icon_512x512@2x.png"])].
Proof. reflexivity. Qed.

(** X26. The staging directory is the table of aliases applied to the
    rasters.  On macOS, once the copies are through (which a bundler that
    was spawned shows) every alias of the table whose raster exists holds
    that raster's bytes; with a bundler that fails, this is what the
    assembler leaves behind in the staging directory. *)
Theorem staging_holds_aliases env fs size filenames filename c :
  (size, filenames) ∈ icon_mappings → filename ∈ filenames →
  fs !! png_path size = Some (File c) →
  fs !! (iconset_dir +:+ "/" +:+ filename) ≠ Some Dir →
  Spawn iconutil_cmd Failed ∈ events (create_icns_file env fs) →
  platform env = "darwin" ∧
  fs_after (create_icns_file env fs) !! (iconset_dir +:+ "/" +:+ filename) =
    Some (File c).
Proof.
  intros Hentry Hfile Hc Hdir Hin.
  destruct (decide (platform env = "darwin")) as [Hmac|Hmac].
  2:{ exfalso. revert Hin. unfold create_icns_file. rewrite bool_decide_true by done.
      cbn. by intros [=]%list_elem_of_singleton. }
  split; [done|]. revert Hin.
  rewrite (create_icns_file_on_mac _ Hmac), bind_run, mkdir_events.
  assert (∀ p, p ≠ iconset_dir →
               fs_after (mkdir_exist_ok iconset_dir fs) !! p = fs !! p) as Hk
    by (intros p Hp; by apply keeps_mkdir).
  destruct (result (mkdir_exist_ok iconset_dir fs)) as [[]|e'].
  2:{ cbn. by intros [=]%list_elem_of_singleton. }
  set (fs1 := fs_after (mkdir_exist_ok iconset_dir fs)) in *.
  erewrite bind_outcome by reflexivity. cbv iota. rewrite bind_run.
  pose proof (emits_icns_copies env fs1) as Hcp. rewrite Forall_forall in Hcp.
  destruct (result (icns_copies env fs1)) as [[]|e'] eqn:Hcopies.
  2:{ unfold prepend. cbn [events]. rewrite !elem_of_app.
      intros [[=]%list_elem_of_singleton|[[=]%list_elem_of_singleton|Hin]].
      by destruct (Hcp _ Hin). }
  rewrite icns_bundle_run.
  pose proof (exec_iconutil_not_succeeded env iconset_dir (fs_after (icns_copies env fs1)))
    as Hsame.
  fold iconutil_cmd in Hsame.
  destruct (exec env iconutil_cmd (fs_after (icns_copies env fs1))) as [[] fs3].
  - unfold prepend. cbn [events]. rewrite !elem_of_app.
    intros [[=]%list_elem_of_singleton|[[=]%list_elem_of_singleton|[Hin|Hin]]].
    + by destruct (Hcp _ Hin).
    + by apply list_elem_of_singleton in Hin.
  - destruct (exec env rm_cmd fs3) as [[] fs4]; unfold prepend; cbn [events];
      rewrite !elem_of_app;
      intros [[=]%list_elem_of_singleton|[[=]%list_elem_of_singleton|[Hin|Hin]]];
      try (by destruct (Hcp _ Hin)); exfalso; revert Hin; by_compute.
  - intros _. unfold prepend. cbn [fs_after fst snd] in *. rewrite Hsame by done.
    assert (fs1 !! png_path size = Some (File c)) as Hc1.
    { rewrite Hk; [done|]. unfold png_path, iconset_dir. cbn. discriminate. }
    assert (fs1 !! (iconset_dir +:+ "/" +:+ filename) ≠ Some Dir) as Hdir1.
    { rewrite Hk; [done|]. apply not_eq_sym, iconset_entry_ne. }
    assert (NoDup icon_mappings ∧ NoDup filenames ∧
            Forall (λ entry,
              Forall (λ other, ¬ alias_writes (png_path size) (png_path entry.1) other)
                entry.2) icon_mappings ∧
            Forall (λ entry,
              entry = (size, filenames) ∨
              Forall (λ other, ¬ alias_writes (iconset_dir +:+ "/" +:+ filename)
                                 (png_path entry.1) other) entry.2) icon_mappings ∧
            Forall (λ other, other = filename ∨
                             ¬ alias_writes (iconset_dir +:+ "/" +:+ filename)
                                 (png_path size) other) filenames)
      as (N1 & N2 & F1 & F2 & F3).
    { clear -Hentry Hfile. rewrite icon_mappings_eq in Hentry |- *.
      rewrite !elem_of_cons, elem_of_nil in Hentry.
      destruct Hentry as [[= -> ->]|[[= -> ->]|[[= -> ->]|[[= -> ->]|
                         [[= -> ->]|[[= -> ->]|[[= -> ->]|[]]]]]]]];
        rewrite !elem_of_cons, elem_of_nil in Hfile;
        destruct Hfile as [->|Hfile]; try destruct Hfile as [->|[]]; try done;
        repeat split; by_compute. }
    rewrite icns_copies_entries in Hcopies |- *.
    by apply (icns_entries_hold env icon_mappings size filenames).
Qed.

Lemma staging_holds_aliases_witness :
  (32, ["icon_16x16@2x.png"; "icon_32x32.png"]) ∈ icon_mappings ∧
  "icon_16x16@2x.png" ∈ ["icon_16x16@2x.png"; "icon_32x32.png"] ∧
  Spawn iconutil_cmd Failed ∈ events (create_icns_file mac_host_bad_iconutil small_tree) ∧
  fs_after (create_icns_file mac_host_bad_iconutil small_tree)
    !! "icons/prestige-ai.iconset/icon_16x16@2x.png" = Some (File "png32").
Proof.
  assert ((32, ["icon_16x16@2x.png"; "icon_32x32.png"]) ∈ icon_mappings) as H1
    by by_compute.
  assert ("icon_16x16@2x.png" ∈ ["icon_16x16@2x.png"; "icon_32x32.png"]) as H2
    by by_compute.
  assert (small_tree !! png_path 32 = Some (File "png32")) as H3 by reflexivity.
  assert (small_tree !! (iconset_dir +:+ "/" +:+ "icon_16x16@2x.png") ≠ Some Dir) as H4
    by (vm_compute; discriminate).
  assert (Spawn iconutil_cmd Failed
            ∈ events (create_icns_file mac_host_bad_iconutil small_tree)) as H5
    by by_compute.
  split; [exact H1|]. split; [exact H2|]. split; [exact H5|].
  exact (proj2 (staging_holds_aliases mac_host_bad_iconutil small_tree _ _ _ _
                  H1 H2 H3 H4 H5)).
Defined.

(** * The claims that hold with a proviso *)

(** ** The source image is absent *)

Lemma check_dependencies_false env fs tool :
  tool ∈ required_tools.*1 → mandatory env tool = true → available env tool = false →
  result (check_dependencies env fs) = Ret false.
Proof.
  intros Hin Hmand Havail.
  destruct (check_dependencies_run env fs) as (ev & -> & _). cbn [result]. f_equal.
  revert Hin. change (required_tools.*1) with ["magick"; "iconutil"].
  rewrite !elem_of_cons, elem_of_nil. intros [->|[->|[]]].
  - by rewrite Havail.
  - rewrite Havail. unfold mandatory in Hmand.
    rewrite bool_decide_true in Hmand by done. cbn in Hmand.
    apply negb_true_iff in Hmand. rewrite Hmand. apply andb_false_r.
Qed.

Lemma create_directories_blocked_raises fs d c :
  d ∈ output_dirs → fs !! d = Some (File c) →
  ∃ d', d' ∈ output_dirs ∧ result (create_directories fs) = Raise (FileExistsError d').
Proof.
  intros Hd Hfile.
  destruct (result (create_directories fs)) as [[]|e] eqn:Hr.
  - pose proof (for_mkdir_returns _ fs Hr d Hd) as Hdir.
    destruct (for_mkdir_only_new_dirs ["icons"; "icons/png"; "build"] fs d)
      as [Heq|(_ & Hnone & _)]; fold create_directories in *; congruence.
  - apply create_directories_raises in Hr as (d' & Hd' & ->). by exists d'.
Qed.

Lemma fails_before_mkdir_end ev t :
  Forall mutation_free ev → fails_before_mkdir (ev ++ [Print FAIL t]) = true.
Proof.
  induction 1 as [|e ev He _ IH]; [done|].
  destruct e as [[] ?|[] ? ?|argv st| |]; try done;
    destruct He as [[]|[]].
Qed.

(** C1, amended.  In every run in which the source image does not exist,
    the pipeline spawns nothing but the version probes and opens no file for
    writing, and the only change on disk is that missing output directories
    are made.  Which of them are made depends on the stage the run ends in:

    - a mandatory tool is missing: the run reports the failure and returns
      before any directory is made, with the file system as it was, and the
      line [SVG file not found] is not printed;
    - every mandatory tool is available, but a regular file has the name of
      one of [icons], [icons/png] and [build]: the run raises
      [FileExistsError] for an output directory and the line is not printed
      either;
    - every mandatory tool is available and none of the three names is
      taken by a regular file: the run makes the three directories first,
      only then prints [SVG file not found: prestige-ai-logo.svg] followed by
      [Failed to generate PNG files], and returns with the three
      directories in place. *)
Theorem svg_absent_stops_after_directories env fs :
  fs !! svg_file = None →
  Forall (λ e, mutation_free e ∨ ∃ d, d ∈ output_dirs ∧ e = Mkdir d)
    (events (main env fs)) ∧
  only_new_dirs output_dirs fs (fs_after (main env fs)) ∧
  ((∃ tool, tool ∈ required_tools.*1 ∧
            mandatory env tool = true ∧ available env tool = false) →
   result (main env fs) = Ret tt ∧
   fs_after (main env fs) = fs ∧
   Forall mutation_free (events (main env fs)) ∧
   fails_before_mkdir (events (main env fs)) = true ∧
   missing_source_line ∉ events (main env fs)) ∧
  ((∀ tool, tool ∈ required_tools.*1 →
      mandatory env tool = true → available env tool = true) →
   ((∃ d c, d ∈ output_dirs ∧ fs !! d = Some (File c)) →
    (∃ d, d ∈ output_dirs ∧ result (main env fs) = Raise (FileExistsError d)) ∧
    missing_source_line ∉ events (main env fs)) ∧
   ((∀ d c, d ∈ output_dirs → fs !! d ≠ Some (File c)) →
    main env fs =
    Outcome (Ret tt)
      (<["build" := Dir]> (<["icons/png" := Dir]> (<["icons" := Dir]> fs)))
      (banner ++ events (check_dependencies env fs) ++
       [Mkdir "icons"; Mkdir "icons/png"; Mkdir "build";
        Print FAIL "SVG file not found: prestige-ai-logo.svg";
        Print FAIL "Failed to generate PNG files"]))).
Proof.
  intros Hsvg.
  pose proof (not_in_by_emits _ _ (emits_present_check_dependencies env fs)) as Hc.
  assert (missing_source_line ∉ events (create_directories fs)) as Hd.
  { apply not_in_by_emits. apply (emits_for_ _ ["icons"; "icons/png"; "build"]).
    intros d _. by apply emits_mkdir. }
  assert (missing_source_line ∉ banner) as Hb by by_compute.
  split; [|split; [|split]].
  - destruct (main_prober_step env fs) as (ev & Heq & Hev).
    destruct (available env "magick" &&
              (available env "iconutil" || bool_decide (platform env ≠ "darwin"))).
    2:{ rewrite (main_without_dependencies _ _ _ Heq). cbn [events].
        apply Forall_app. split; [repeat constructor; left; by left|].
        apply Forall_app. split.
        - eapply Forall_impl; [exact Hev|]. auto.
        - repeat constructor; left; by left. }
    rewrite (main_with_dependencies _ _ _ Heq).
    pose proof (for_mkdir_only_new_dirs output_dirs fs) as Hdirs.
    pose proof (for_mkdir_events output_dirs fs) as [Hpre Hall].
    change (for_ output_dirs mkdir_exist_ok) with create_directories in *.
    rewrite bind_run.
    destruct (result (create_directories fs)) as [[]|e] eqn:Hres.
    + assert (fs_after (create_directories fs) !! svg_file = None) as Hsvg'.
      { by rewrite keeps_create_directories by by_compute. }
      rewrite Hall by done.
      erewrite bind_outcome by (apply generate_png_sizes_for_no_svg, Hsvg').
      cbn [negb]. cbv iota. rewrite !prepend_prepend.
      cbn [prepend result fs_after events print emit].
      rewrite <- !app_assoc.
      apply Forall_app. split; [repeat constructor; left; by left|].
      apply Forall_app. split; [eapply Forall_impl; [exact Hev|]; auto|].
      apply Forall_app. split.
      * apply Forall_fmap, Forall_forall. intros d Hin. right. by exists d.
      * repeat constructor; left; by left.
    + cbn [prepend result fs_after events].
      apply Forall_app. split.
      * apply Forall_app. split; [repeat constructor; left; by left|].
        eapply Forall_impl; [exact Hev|]; auto.
      * destruct Hpre as [k Hk].
        assert (Forall (λ e, ∃ d, d ∈ output_dirs ∧ e = Mkdir d)
                  (Mkdir <$> output_dirs)) as HF.
        { apply Forall_fmap, Forall_forall. intros d Hin. by exists d. }
        rewrite Hk in HF. apply Forall_app in HF as [HF _].
        eapply Forall_impl; [exact HF|]. auto.
  - rewrite main_run.
    pose proof (for_mkdir_only_new_dirs output_dirs fs) as Hdirs.
    change (for_ output_dirs mkdir_exist_ok) with create_directories in *.
    destruct (result (check_dependencies env fs)) as [[|]|e0]; cbn [fs_after];
      [|intros p; by left..].
    destruct (result (create_directories fs)) as [[]|e0]; cbn [fs_after]; [|done].
    cbv zeta. unfold generate_png_sizes.
    rewrite generate_png_sizes_for_no_svg
      by by rewrite keeps_create_directories by by_compute.
    cbn [result fs_after]. done.
  - intros (tool & Hin & Hmand & Havail).
    pose proof (check_dependencies_false env fs tool Hin Hmand Havail) as Hfalse.
    destruct (main_prober_step env fs) as (ev & Heq & Hev).
    rewrite Heq in Hfalse. cbn [result] in Hfalse. injection Hfalse as Hfalse.
    rewrite Hfalse in Heq.
    rewrite (main_without_dependencies _ _ _ Heq). cbn [result fs_after events].
    assert (Forall mutation_free (banner ++ ev ++ [Print PLAIN ""])) as Hfree.
    { apply Forall_app. split; [repeat constructor; by left|].
      apply Forall_app. split; [done|]. repeat constructor; by left. }
    split; [done|]. split; [done|]. split; [|split].
    + apply Forall_app. split; [repeat constructor; by left|].
      apply Forall_app. split; [done|]. repeat constructor; by left.
    + change [Print PLAIN ""; Print FAIL "Please install required dependencies and try again"]
        with ([Print PLAIN ""] ++
              [Print FAIL "Please install required dependencies and try again"]).
      rewrite !app_assoc. apply fails_before_mkdir_end. by rewrite <- !app_assoc.
    + rewrite Heq in Hc. cbn [events] in Hc. rewrite !elem_of_app.
      intros [Hin'|[Hin'|Hin']]; try done. revert Hin'. by_compute.
  - intros Htools. pose proof (check_dependencies_true env fs Htools) as Hdeps.
    split.
    + intros (d & c & Hin & Hfile).
      destruct (create_directories_blocked_raises fs d c Hin Hfile) as (d' & Hd' & Hr).
      rewrite main_run, Hdeps, Hr. cbn [result events]. split; [by exists d'|].
      rewrite !elem_of_app. by intros [Hin'|[Hin'|Hin']].
    + intros Hfree.
      pose proof (create_directories_run fs Hfree) as Hrun.
      rewrite main_run, Hdeps, Hrun. cbn [result fs_after events]. cbv zeta.
      unfold generate_png_sizes.
      rewrite generate_png_sizes_for_no_svg by by rewrite !lookup_insert_ne.
      cbn [result fs_after events]. f_equal. by rewrite <- !app_assoc.
Qed.

Lemma svg_absent_stops_after_directories_witness :
  ((∅ : FS) !! svg_file = None ∧
   (∀ tool, tool ∈ required_tools.*1 →
      mandatory linux_host tool = true → available linux_host tool = true) ∧
   (∀ d c, d ∈ output_dirs → (∅ : FS) !! d ≠ Some (File c)) ∧
   events (main linux_host ∅) =
     banner ++ events (check_dependencies linux_host ∅) ++
     [Mkdir "icons"; Mkdir "icons/png"; Mkdir "build";
      Print FAIL "SVG file not found: prestige-ai-logo.svg";
      Print FAIL "Failed to generate PNG files"] ∧
   fs_after (main linux_host ∅) =
     <["build" := Dir]> (<["icons/png" := Dir]> (<["icons" := Dir]> ∅))) ∧
  (build_is_a_file !! svg_file = None ∧
   (∃ d c, d ∈ output_dirs ∧ build_is_a_file !! d = Some (File c)) ∧
   (∃ d, d ∈ output_dirs ∧
         result (main linux_host build_is_a_file) = Raise (FileExistsError d)) ∧
   missing_source_line ∉ events (main linux_host build_is_a_file)) ∧
  ((∃ tool, tool ∈ required_tools.*1 ∧
            mandatory bare_host tool = true ∧ available bare_host tool = false) ∧
   fs_after (main bare_host ∅) = ∅ ∧
   fails_before_mkdir (events (main bare_host ∅)) = true).
Proof.
  assert ((∅ : FS) !! svg_file = None) as Hsvg by reflexivity.
  assert (∀ tool, tool ∈ required_tools.*1 →
            mandatory linux_host tool = true → available linux_host tool = true)
    as Htools.
  { rewrite forall_required_tools. split; [done|]. by intros [=]. }
  assert (∀ d c, d ∈ output_dirs → (∅ : FS) !! d ≠ Some (File c)) as Hfree
    by (intros d c _; by rewrite lookup_empty).
  assert (build_is_a_file !! svg_file = None) as Hsvg' by reflexivity.
  assert (∃ d c, d ∈ output_dirs ∧ build_is_a_file !! d = Some (File c)) as Hblocked.
  { exists "build", "notes". split; [by_compute|reflexivity]. }
  assert (∃ tool, tool ∈ required_tools.*1 ∧
            mandatory bare_host tool = true ∧ available bare_host tool = false)
    as Hmissing.
  { exists "magick". split; [by_compute|]. split; reflexivity. }
  pose proof (svg_absent_stops_after_directories linux_host ∅ Hsvg)
    as (_ & _ & _ & Hrun).
  pose proof (svg_absent_stops_after_directories linux_host build_is_a_file Hsvg')
    as (_ & _ & _ & Hraise).
  pose proof (svg_absent_stops_after_directories bare_host ∅ Hsvg)
    as (_ & _ & Hearly & _).
  split; [|split].
  - split; [exact Hsvg|]. split; [exact Htools|]. split; [exact Hfree|].
    rewrite (proj2 (Hrun Htools) Hfree). split; reflexivity.
  - split; [exact Hsvg'|]. split; [exact Hblocked|].
    exact (proj1 (Hraise Htools) Hblocked).
  - split; [exact Hmissing|].
    destruct (Hearly Hmissing) as (_ & Hfs & _ & Hfails & _).
    exact (conj Hfs Hfails).
Defined.

(** ** The Windows bundle assembler and its packer *)

(** C4, on the failing input.  With the 16px and the 32px raster in place
    and a packer that exits with a non-zero status, the assembler invokes
    the packer on the two rasters, reports the failure and returns [False]:
    rasters exist, and no output file is produced. *)
Lemma create_ico_file_packer_fails :
  16 ∈ ico_sizes ∧ is_Some (small_tree !! png_path 16) ∧
  create_ico_file linux_host_bad_packer small_tree =
    Outcome (Ret false) small_tree
      [Print WORK "Creating .ico file...";
       Spawn ["magick"; "icons/png/icon-16x16.png"; "icons/png/icon-32x32.png";
              "icons/prestige-ai.ico"] Failed;
       PrintExn FAIL "Failed to create .ico file"
         (CalledProcessError
            ["magick"; "icons/png/icon-16x16.png"; "icons/png/icon-32x32.png";
             "icons/prestige-ai.ico"])] ∧
  small_tree !! ico_file = None ∧
  ¬ ico_produced_iff_raster.
Proof.
  assert (16 ∈ ico_sizes) as Hsize by by_compute.
  assert (is_Some (small_tree !! png_path 16)) as Hsome by (vm_compute; eauto).
  split; [done|]. split; [done|]. split; [by vm_compute|]. split; [by vm_compute|].
  intros H. destruct (proj2 (H linux_host_bad_packer small_tree)) as [Hr _].
  { by exists 16. }
  vm_compute in Hr. discriminate.
Qed.

(** C4, amended.  The sizes of the Windows bundle assembler are 16, 32, 48,
    64, 128 and 256.  It invokes the packer if and only if a raster of at
    least one of these sizes exists, and then once, on all the existing
    ones; with none it returns [False] with the file system untouched and
    nothing spawned.  The output file [icons/prestige-ai.ico] is produced if
    and only if such a raster exists and the packer exits with status zero:
    it then holds what the packer made of the rasters, and the result is
    [True].  A packer that exits with a non-zero status is reported, the
    result is [False] and nothing is written; a packer that cannot be
    started raises [FileNotFoundError], and nothing is written either. *)
Theorem create_ico_file_iff env fs :
  ico_sizes = [16; 32; 48; 64; 128; 256] ∧
  ((∃ argv st, Spawn argv st ∈ events (create_ico_file env fs)) ↔
   (∃ size, size ∈ [16; 32; 48; 64; 128; 256] ∧ is_Some (fs !! png_path size))) ∧
  (∀ argv st, Spawn argv st ∈ events (create_ico_file env fs) →
     argv = ico_cmd (ico_inputs fs) ∧
     spawned (events (create_ico_file env fs)) = [argv]) ∧
  ((∀ size, size ∈ [16; 32; 48; 64; 128; 256] → fs !! png_path size = None) →
   create_ico_file env fs =
   Outcome (Ret false) fs [Print FAIL "No PNG files found for .ico creation"]) ∧
  (ico_produced env fs ↔
   (∃ size, size ∈ [16; 32; 48; 64; 128; 256] ∧ is_Some (fs !! png_path size)) ∧
   (∀ argv st, Spawn argv st ∈ events (create_ico_file env fs) → st = Succeeded)) ∧
  (ico_produced env fs →
   ∃ images ico,
     mapM (read_file fs) (ico_inputs fs) = Some images ∧
     pack_icons env images = Some ico ∧
     fs_after (create_ico_file env fs) = <[ico_file := File ico]> fs) ∧
  (∀ argv, Spawn argv Failed ∈ events (create_ico_file env fs) →
     result (create_ico_file env fs) = Ret false ∧
     fs_after (create_ico_file env fs) = fs ∧
     last (events (create_ico_file env fs)) =
       Some (PrintExn FAIL "Failed to create .ico file" (CalledProcessError argv))) ∧
  (∀ argv, Spawn argv NotFound ∈ events (create_ico_file env fs) →
     result (create_ico_file env fs) = Raise (FileNotFoundError "magick") ∧
     fs_after (create_ico_file env fs) = fs).
Proof.
  split; [reflexivity|].
  change [16; 32; 48; 64; 128; 256] with ico_sizes.
  unfold ico_produced.
  rewrite <- some_ico_input, <- ico_inputs_nil, create_ico_file_run.
  case_bool_decide as Hnil.
  { cbn [events result fs_after].
    assert (∀ (argv : list string) st,
              Spawn argv st ∉ [Print FAIL "No PNG files found for .ico creation"])
      as Hno by (by intros argv st [=]%list_elem_of_singleton).
    split; [|split; [|split; [|split; [|split; [|split]]]]].
    - split; [|done]. intros (argv & st & Hin). by destruct (Hno argv st).
    - intros argv st Hin. by destruct (Hno argv st).
    - done.
    - split; [by intros [[=] _]|by intros [? _]].
    - by intros [[=] _].
    - intros argv Hin. by destruct (Hno argv Failed).
    - intros argv Hin. by destruct (Hno argv NotFound). }
  assert (∀ st' e (argv : list string) st,
            Spawn argv st ∈
              [Print WORK "Creating .ico file..."; Spawn (ico_cmd (ico_inputs fs)) st'; e] →
            is_print e → argv = ico_cmd (ico_inputs fs) ∧ st = st') as Hthree.
  { intros st' e argv st Hin He. rewrite !elem_of_cons, elem_of_nil in Hin.
    destruct Hin as [[=]|[[= -> ->]|[<-|[]]]]; [done|by destruct He]. }
  assert (∀ st' (argv : list string) st,
            Spawn argv st ∈
              [Print WORK "Creating .ico file..."; Spawn (ico_cmd (ico_inputs fs)) st'] →
            argv = ico_cmd (ico_inputs fs) ∧ st = st') as Htwo.
  { intros st' argv st Hin. rewrite !elem_of_cons, elem_of_nil in Hin.
    by destruct Hin as [[=]|[[= -> ->]|[]]]. }
  rewrite exec_ico_cmd.
  destruct (on_path env "magick").
  2:{ cbn [events result fs_after]. split; [|split; [|split; [|split; [|split; [|split]]]]].
      - split; [done|]. intros _. eexists _, _. right; left.
      - intros argv st [-> _]%Htwo. done.
      - done.
      - split; [by intros [[=] _]|]. intros [_ Hall].
        assert (NotFound = Succeeded) as [=].
        apply (Hall (ico_cmd (ico_inputs fs))). right; left.
      - by intros [[=] _].
      - by intros argv [_ [=]]%Htwo.
      - done. }
  destruct (exec_pack_cases env (ico_inputs fs) ico_file fs)
    as [(images & ico & Himg & Hico & ->)| ->]; cbn [events result fs_after].
  - split; [|split; [|split; [|split; [|split; [|split]]]]].
    + split; [done|]. intros _. eexists _, _. right; left.
    + intros argv st [-> _]%Hthree; done.
    + done.
    + split.
      * intros _. split; [done|]. by intros argv st [_ ->]%Hthree.
      * intros _. split; [done|]. exists ico. apply lookup_insert_eq.
    + intros _. by exists images, ico.
    + by intros argv [_ [=]]%Hthree.
    + by intros argv [_ [=]]%Hthree.
  - split; [|split; [|split; [|split; [|split; [|split]]]]].
    + split; [done|]. intros _. eexists _, _. right; left.
    + intros argv st [-> _]%Hthree; done.
    + done.
    + split; [by intros [[=] _]|]. intros [_ Hall].
      assert (Failed = Succeeded) as [=].
      apply (Hall (ico_cmd (ico_inputs fs))). right; left.
    + by intros [[=] _].
    + intros argv [-> _]%Hthree; done.
    + by intros argv [_ [=]]%Hthree.
Qed.

Lemma create_ico_file_iff_witness :
  (∀ size, size ∈ [16; 32; 48; 64; 128; 256] → with_svg !! png_path size = None) ∧
  create_ico_file linux_host with_svg =
    Outcome (Ret false) with_svg [Print FAIL "No PNG files found for .ico creation"] ∧
  (∃ size, size ∈ [16; 32; 48; 64; 128; 256] ∧ is_Some (small_tree !! png_path size)) ∧
  (∀ argv st, Spawn argv st ∈ events (create_ico_file linux_host small_tree) →
              st = Succeeded) ∧
  ico_produced linux_host small_tree ∧
  fs_after (create_ico_file linux_host small_tree) =
    <[ico_file := File "png16+png32"]> small_tree ∧
  Spawn (ico_cmd (ico_inputs small_tree)) Failed ∈
    events (create_ico_file linux_host_bad_packer small_tree) ∧
  result (create_ico_file linux_host_bad_packer small_tree) = Ret false ∧
  ¬ ico_produced linux_host_bad_packer small_tree.
Proof.
  assert (∀ size, size ∈ [16; 32; 48; 64; 128; 256] → with_svg !! png_path size = None)
    as Hnone.
  { intros size. rewrite !elem_of_cons, elem_of_nil.
    intros [->|[->|[->|[->|[->|[->|[]]]]]]]; reflexivity. }
  assert (∃ size, size ∈ [16; 32; 48; 64; 128; 256] ∧
                  is_Some (small_tree !! png_path size)) as Hsome.
  { exists 16. split; [by_compute|]. vm_compute. eauto. }
  assert (∀ argv st, Spawn argv st ∈ events (create_ico_file linux_host small_tree) →
                     st = Succeeded) as Hok
    by (apply spawns_succeed; all_events).
  assert (Spawn (ico_cmd (ico_inputs small_tree)) Failed ∈
            events (create_ico_file linux_host_bad_packer small_tree)) as Hfail
    by by_compute.
  destruct (create_ico_file_iff linux_host with_svg) as (_ & _ & _ & Hzero & _).
  destruct (create_ico_file_iff linux_host small_tree)
    as (_ & _ & _ & _ & Hiff & Hout & _).
  destruct (create_ico_file_iff linux_host_bad_packer small_tree)
    as (_ & _ & _ & _ & Hiff' & _ & Hfailed & _).
  pose proof (proj2 Hiff (conj Hsome Hok)) as Hprod.
  split; [exact Hnone|]. split; [exact (Hzero Hnone)|].
  split; [exact Hsome|]. split; [exact Hok|]. split; [exact Hprod|].
  split.
  { destruct (Hout Hprod) as (images & ico & Himg & Hico & ->).
    vm_compute in Himg. injection Himg as <-.
    vm_compute in Hico. by injection Hico as <-. }
  split; [exact Hfail|]. split; [exact (proj1 (Hfailed _ Hfail))|].
  intros [_ Hall]%Hiff'. by specialize (Hall _ _ Hfail).
Defined.

(** ** The favicon assembler and its copies *)

(** Every way a run of the favicon assembler can go: a copy fails and its
    exception leaves the assembler, or both copies are through and the
    packer is skipped, cannot be started, succeeds or fails. *)
Lemma create_favicon_files_outcomes env fs :
  let fs2 := copied (copied fs icon32 "favicon.png") icon16 "favicon-16x16.png" in
  let both := is_Some (fs !! icon16) ∧ is_Some (fs !! icon32) in
  (∃ e st args ev fs',
     create_favicon_files env fs = Outcome (Raise e) fs' ev ∧
     st ≠ Succeeded ∧ Spawn ("cp" :: args) st ∈ ev ∧
     Forall (λ e, is_print e ∨ cp_spawn e) ev) ∨
  (∃ ev,
     Forall (λ e, is_print e ∨ e = Spawn cp32 Succeeded ∨ e = Spawn cp16 Succeeded) ev ∧
     (is_Some (fs !! icon32) →
      Spawn cp32 Succeeded ∈ ev ∧ ∃ c, fs !! icon32 = Some (File c)) ∧
     (is_Some (fs !! icon16) →
      Spawn cp16 Succeeded ∈ ev ∧ ∃ c, fs !! icon16 = Some (File c)) ∧
     ((¬ both ∧ create_favicon_files env fs = Outcome (Ret tt) fs2 ev) ∨
      (both ∧
       create_favicon_files env fs =
         Outcome (Raise (FileNotFoundError "magick")) fs2
           (ev ++ [Spawn favicon_ico_cmd NotFound])) ∨
      (both ∧ ∃ ico,
       create_favicon_files env fs =
         Outcome (Ret tt) (<["favicon.ico" := File ico]> fs2)
           (ev ++ [Spawn favicon_ico_cmd Succeeded; Print OK "Generated favicon.ico"])) ∨
      (both ∧
       create_favicon_files env fs =
         Outcome (Ret tt) fs2
           (ev ++ [Spawn favicon_ico_cmd Failed;
                   PrintExn FAIL "Failed to create favicon.ico"
                     (CalledProcessError favicon_ico_cmd)])))).
Proof.
  intros fs2 both.
  destruct (create_favicon_files_cases env fs)
    as [Hraise|(ev & Heq & Hev & H32 & H16)]; [by left|right].
  exists ev. split; [done|]. split; [done|]. split; [done|].
  fold fs2 in Heq.
  assert (exists_ fs2 icon16 = exists_ fs icon16) as E16.
  { unfold exists_, fs2. by rewrite copied_twice_lookup by by_compute. }
  assert (exists_ fs2 icon32 = exists_ fs icon32) as E32.
  { unfold exists_, fs2. by rewrite copied_twice_lookup by by_compute. }
  assert (exists_ fs icon16 && exists_ fs icon32 = true ↔ both) as Hboth.
  { unfold exists_, both. by rewrite andb_true_iff, !bool_decide_eq_true. }
  rewrite favicon_pack_run, E16, E32 in Heq.
  destruct (exists_ fs icon16 && exists_ fs icon32) eqn:Hex.
  2:{ left. split; [intros ?%Hboth; done|].
      rewrite Heq. unfold prepend. cbn [result fs_after events]. by rewrite app_nil_r. }
  right. apply proj1 in Hboth. specialize (Hboth eq_refl).
  rewrite exec_favicon_ico in Heq.
  destruct (on_path env "magick"); [|left; by split].
  right.
  destruct (exec_pack_cases env [icon16; icon32] "favicon.ico" fs2)
    as [(images & ico & Himg & Hico & Hpack)|Hpack]; rewrite Hpack in Heq.
  - left. split; [done|]. by exists ico.
  - right. by split.
Qed.

Lemma copies_without_packer ev st :
  Forall (λ e, is_print e ∨ e = Spawn cp32 Succeeded ∨ e = Spawn cp16 Succeeded) ev →
  Spawn favicon_ico_cmd st ∉ ev.
Proof. intros Hev. by apply not_ico_spawn_in_copies, copies_ok_weaken. Qed.

Lemma copies_all_succeeded ev args st :
  Forall (λ e, is_print e ∨ e = Spawn cp32 Succeeded ∨ e = Spawn cp16 Succeeded) ev →
  Spawn ("cp" :: args) st ∈ ev → st = Succeeded.
Proof.
  intros Hev Hin. rewrite Forall_forall in Hev.
  by destruct (Hev _ Hin) as [[]|[[= _ ->]|[= _ ->]]].
Qed.

(** C5, on the failing input.  Both small rasters are in place, but
    [favicon.png] is a directory that holds a directory named
    [icon-32x32.png], so the first copy exits with a non-zero status.  The
    copy is made outside any [try]: the assembler raises at once and the
    packer is not invoked. *)
Lemma favicon_packer_skipped_after_failed_copy :
  is_Some (blocked_favicon_tree !! icon16) ∧
  is_Some (blocked_favicon_tree !! icon32) ∧
  create_favicon_files linux_host blocked_favicon_tree =
    Outcome
      (Raise (CalledProcessError ["cp"; "icons/png/icon-32x32.png"; "favicon.png"]))
      blocked_favicon_tree
      [Print WORK "Creating favicon files...";
       Spawn ["cp"; "icons/png/icon-32x32.png"; "favicon.png"] Failed] ∧
  (∀ st, Spawn favicon_ico_cmd st ∉
           events (create_favicon_files linux_host blocked_favicon_tree)) ∧
  ¬ favicon_packed_iff_both.
Proof.
  assert (is_Some (blocked_favicon_tree !! icon16)) as H16 by (vm_compute; eauto).
  assert (is_Some (blocked_favicon_tree !! icon32)) as H32 by (vm_compute; eauto).
  assert (∀ st, Spawn favicon_ico_cmd st ∉
                  events (create_favicon_files linux_host blocked_favicon_tree)) as Hno.
  { intros []; by_compute. }
  split; [done|]. split; [done|]. split; [by vm_compute|]. split; [done|].
  intros H. destruct (proj2 (H linux_host blocked_favicon_tree)) as [st Hin]; [done|].
  by destruct (Hno st).
Qed.

(** C5, amended.  The favicon assembler invokes the packer for
    [favicon.ico] if and only if both the 16px and the 32px raster exist
    beforehand and every copy made before it exits with status zero.  A
    copy that fails ends the assembler with its exception, as the last event
    of the run, and the packer is not invoked.  A packer that succeeds
    leaves [favicon.ico] behind.  A packer that exits with a non-zero
    status is reported and the assembler still returns normally, so
    whatever is sequenced after it (the config emitter and the summary in
    [main]) runs on the file system it leaves.  A packer that cannot be
    started raises [FileNotFoundError]. *)
Theorem favicon_ico_iff env fs :
  ((∃ st, Spawn favicon_ico_cmd st ∈ events (create_favicon_files env fs)) ↔
   (is_Some (fs !! icon16) ∧ is_Some (fs !! icon32)) ∧
   (∀ args st, Spawn ("cp" :: args) st ∈ events (create_favicon_files env fs) →
               st = Succeeded)) ∧
  (∀ args st,
     Spawn ("cp" :: args) st ∈ events (create_favicon_files env fs) → st ≠ Succeeded →
     (∃ e, result (create_favicon_files env fs) = Raise e ∧ cp_failure e) ∧
     last (events (create_favicon_files env fs)) = Some (Spawn ("cp" :: args) st) ∧
     ∀ st', Spawn favicon_ico_cmd st' ∉ events (create_favicon_files env fs)) ∧
  (Spawn favicon_ico_cmd Succeeded ∈ events (create_favicon_files env fs) →
   result (create_favicon_files env fs) = Ret tt ∧
   ∃ ico, fs_after (create_favicon_files env fs) !! "favicon.ico" = Some (File ico)) ∧
  (Spawn favicon_ico_cmd Failed ∈ events (create_favicon_files env fs) →
   result (create_favicon_files env fs) = Ret tt ∧
   last (events (create_favicon_files env fs)) =
     Some (PrintExn FAIL "Failed to create favicon.ico"
             (CalledProcessError favicon_ico_cmd)) ∧
   ∀ B (k : M B),
     (create_favicon_files env;; k) fs =
     prepend (events (create_favicon_files env fs))
       (k (fs_after (create_favicon_files env fs)))) ∧
  (Spawn favicon_ico_cmd NotFound ∈ events (create_favicon_files env fs) →
   result (create_favicon_files env fs) = Raise (FileNotFoundError "magick")).
Proof.
  assert ((∃ st, Spawn favicon_ico_cmd st ∈ events (create_favicon_files env fs)) ↔
          (is_Some (fs !! icon16) ∧ is_Some (fs !! icon32)) ∧
          (∀ args st, Spawn ("cp" :: args) st ∈ events (create_favicon_files env fs) →
                      st = Succeeded)) as Hiff.
  { destruct (create_favicon_files_outcomes env fs)
      as [(e & st & args & ev & fs' & -> & Hst & Hin & Hev)
         |(ev & Hev & _ & _ & [[Hboth ->]|[[Hboth ->]|[(Hboth & ico & ->)|[Hboth ->]]]])];
      cbn [events].
    - split.
      + intros [st' Hin']. by destruct (not_ico_spawn_in_copies ev st').
      + intros [_ Hall]. by destruct Hst, (Hall args st).
    - split; [|by intros [? _]].
      intros [st Hin]. by destruct (copies_without_packer ev st).
    - split; [|intros _; exists NotFound; apply elem_of_app; right; left].
      intros _. split; [done|]. intros args st [Hin|Hin]%elem_of_app.
      + by eapply copies_all_succeeded.
      + by apply list_elem_of_singleton in Hin.
    - split; [|intros _; exists Succeeded; apply elem_of_app; right; left].
      intros _. split; [done|]. intros args st [Hin|Hin]%elem_of_app.
      + by eapply copies_all_succeeded.
      + rewrite !elem_of_cons, elem_of_nil in Hin. by destruct Hin as [[=]|[[=]|[]]].
    - split; [|intros _; exists Failed; apply elem_of_app; right; left].
      intros _. split; [done|]. intros args st [Hin|Hin]%elem_of_app.
      + by eapply copies_all_succeeded.
      + rewrite !elem_of_cons, elem_of_nil in Hin. by destruct Hin as [[=]|[[=]|[]]]. }
  split; [exact Hiff|]. split.
  { intros args st Hin Hst.
    destruct (stops_create_favicon_files env fs args st Hin Hst) as [Hraise Hlast].
    split; [done|]. split; [done|].
    intros st' Hin'. destruct (proj1 Hiff (ex_intro _ st' Hin')) as [_ Hall].
    by destruct Hst, (Hall args st). }
  destruct (create_favicon_files_outcomes env fs)
    as [(e & st & args & ev & fs' & Heq & Hst & Hin & Hev)
       |(ev & Hev & _ & _ &
         [[Hboth Heq]|[[Hboth Heq]|[(Hboth & ico & Heq)|[Hboth Heq]]]])];
    rewrite Heq; cbn [events result fs_after].
  - split; [|split].
    + intros Hin'. by destruct (not_ico_spawn_in_copies ev Succeeded).
    + intros Hin'. by destruct (not_ico_spawn_in_copies ev Failed).
    + intros Hin'. by destruct (not_ico_spawn_in_copies ev NotFound).
  - split; [|split].
    + intros Hin'. by destruct (copies_without_packer ev Succeeded).
    + intros Hin'. by destruct (copies_without_packer ev Failed).
    + intros Hin'. by destruct (copies_without_packer ev NotFound).
  - split; [|split]; [| |done].
    + intros [Hin|Hin]%elem_of_app; [by destruct (copies_without_packer ev Succeeded)|].
      by apply list_elem_of_singleton in Hin.
    + intros [Hin|Hin]%elem_of_app; [by destruct (copies_without_packer ev Failed)|].
      by apply list_elem_of_singleton in Hin.
  - split; [|split].
    + intros _. split; [done|]. exists ico. apply lookup_insert_eq.
    + intros [Hin|Hin]%elem_of_app; [by destruct (copies_without_packer ev Failed)|].
      rewrite !elem_of_cons, elem_of_nil in Hin. by destruct Hin as [[=]|[[=]|[]]].
    + intros [Hin|Hin]%elem_of_app; [by destruct (copies_without_packer ev NotFound)|].
      rewrite !elem_of_cons, elem_of_nil in Hin. by destruct Hin as [[=]|[[=]|[]]].
  - split; [|split].
    + intros [Hin|Hin]%elem_of_app; [by destruct (copies_without_packer ev Succeeded)|].
      rewrite !elem_of_cons, elem_of_nil in Hin. by destruct Hin as [[=]|[[=]|[]]].
    + intros _. split; [done|]. split.
      * change [Spawn favicon_ico_cmd Failed;
                PrintExn FAIL "Failed to create favicon.ico"
                  (CalledProcessError favicon_ico_cmd)]
          with ([Spawn favicon_ico_cmd Failed] ++
                [PrintExn FAIL "Failed to create favicon.ico"
                   (CalledProcessError favicon_ico_cmd)]).
        rewrite app_assoc. apply last_snoc.
      * intros B k. by erewrite bind_outcome by exact Heq.
    + intros [Hin|Hin]%elem_of_app; [by destruct (copies_without_packer ev NotFound)|].
      rewrite !elem_of_cons, elem_of_nil in Hin. by destruct Hin as [[=]|[[=]|[]]].
Qed.

Lemma favicon_ico_iff_witness :
  (is_Some (small_tree !! icon16) ∧ is_Some (small_tree !! icon32)) ∧
  (∀ args st, Spawn ("cp" :: args) st ∈ events (create_favicon_files linux_host small_tree) →
              st = Succeeded) ∧
  (∃ st, Spawn favicon_ico_cmd st ∈ events (create_favicon_files linux_host small_tree)) ∧
  Spawn cp32 Failed ∈ events (create_favicon_files linux_host blocked_favicon_tree) ∧
  Failed ≠ Succeeded ∧
  last (events (create_favicon_files linux_host blocked_favicon_tree)) =
    Some (Spawn cp32 Failed) ∧
  Spawn favicon_ico_cmd Failed ∈
    events (create_favicon_files linux_host_bad_packer small_tree) ∧
  result (create_favicon_files linux_host_bad_packer small_tree) = Ret tt.
Proof.
  assert (is_Some (small_tree !! icon16) ∧ is_Some (small_tree !! icon32)) as Hboth
    by (split; vm_compute; eauto).
  assert (∀ args st,
            Spawn ("cp" :: args) st ∈ events (create_favicon_files linux_host small_tree) →
            st = Succeeded) as Hok
    by (apply copies_succeed; all_events).
  assert (Spawn cp32 Failed ∈ events (create_favicon_files linux_host blocked_favicon_tree))
    as Hcp by by_compute.
  assert (Failed ≠ Succeeded) as Hst by discriminate.
  assert (Spawn favicon_ico_cmd Failed ∈
            events (create_favicon_files linux_host_bad_packer small_tree)) as Hfail
    by by_compute.
  split; [exact Hboth|]. split; [exact Hok|].
  split; [exact (proj2 (proj1 (favicon_ico_iff linux_host small_tree)) (conj Hboth Hok))|].
  split; [exact Hcp|]. split; [exact Hst|].
  split; [exact (proj1 (proj2 (proj1 (proj2
            (favicon_ico_iff linux_host blocked_favicon_tree)) _ _ Hcp Hst)))|].
  split; [exact Hfail|].
  exact (proj1 (proj1 (proj2 (proj2 (proj2
           (favicon_ico_iff linux_host_bad_packer small_tree)))) Hfail)).
Defined.

(** ** The favicon mapping *)

Lemma copied_lookup_copy_target fs src dst c :
  fs !! src = Some (File c) →
  copied fs src dst !! copy_target fs src dst = Some (File c).
Proof. intros Hsrc. unfold copied. rewrite Hsrc. apply lookup_insert_eq. Qed.

Lemma copy_target_cases fs src dst :
  copy_target fs src dst = dst ∨ copy_target fs src dst = dst +:+ "/" +:+ basename src.
Proof. unfold copy_target. destruct (is_dir fs dst); auto. Qed.

Lemma copy_target_not_a_directory fs src dst :
  fs !! dst ≠ Some Dir → copy_target fs src dst = dst.
Proof. intros H. unfold copy_target, is_dir. by rewrite bool_decide_false. Qed.

Lemma bind_assoc {A B C} (m : M A) (k1 : A → M B) (k2 : B → M C) fs :
  ((m ≫= k1) ≫= k2) fs = (m ≫= (λ a, k1 a ≫= k2)) fs.
Proof.
  unfold mbind, M_bind, bind.
  destruct (m fs) as [[a|e] fs1 ev1]; [|done].
  destruct (k1 a fs1) as [[b|e] fs2 ev2]; [|done].
  destruct (k2 b fs2) as [r fs3 ev3]. by rewrite app_assoc.
Qed.

Lemma failed_first_copy_events env fs st :
  Spawn cp32 st ∈ events (create_favicon_files env fs) → st ≠ Succeeded →
  events (create_favicon_files env fs) =
    [Print WORK "Creating favicon files..."; Spawn cp32 st].
Proof.
  intros Hin Hst.
  assert (emits (λ e, ∀ st', e ≠ Spawn cp32 st')
            ((favicon_copy env icon16 "favicon-16x16.png";; mret tt);;
             favicon_pack env)) as Hrest.
  { apply emits_bind.
    - apply emits_bind; [by apply emits_favicon_copy|intros _; apply emits_ret].
    - intros _. apply emits_favicon_pack; [done|]. by intros [].  }
  revert Hin. rewrite create_favicon_files_phases.
  erewrite bind_outcome by reflexivity. cbv iota.
  rewrite bind_assoc.
  destruct (favicon_copy_cases env icon32 "favicon.png" fs)
    as [[_ Heq]|[(_ & c & _ & Heq)|(_ & st0 & e & fs' & _ & Heq)]];
    erewrite bind_outcome by exact Heq; cbv iota;
    unfold prepend; cbn [events app].
  - intros [[=]|Hin]%elem_of_cons.
    specialize (Hrest fs). rewrite Forall_forall in Hrest.
    by destruct (Hrest _ Hin st).
  - intros [[=]|[[= ->]|[[=]|Hin]%elem_of_cons]%elem_of_cons]%elem_of_cons; [done|].
    match type of Hin with _ ∈ events (?m ?fs1) => specialize (Hrest fs1) end.
    rewrite Forall_forall in Hrest. by destruct (Hrest _ Hin st).
  - intros [[=]|[[= ->]|[]%elem_of_nil]%elem_of_cons]%elem_of_cons. done.
Qed.

(** C9, on the failing input.  The 16px raster is in place, and so is the
    32px raster, but [favicon.png] is a directory that holds a directory
    named [icon-32x32.png].  The copy of the 32px raster comes first in the
    mapping and exits with a non-zero status; its exception leaves the
    assembler, so the copy of the 16px raster is never attempted and
    [favicon-16x16.png] is not created. *)
Lemma small_raster_not_copied_after_failed_copy :
  blocked_favicon_tree !! icon16 = Some (File "png16") ∧
  events (create_favicon_files linux_host blocked_favicon_tree) =
    [Print WORK "Creating favicon files...";
     Spawn ["cp"; "icons/png/icon-32x32.png"; "favicon.png"] Failed] ∧
  result (create_favicon_files linux_host blocked_favicon_tree) =
    Raise (CalledProcessError ["cp"; "icons/png/icon-32x32.png"; "favicon.png"]) ∧
  fs_after (create_favicon_files linux_host blocked_favicon_tree)
    !! "favicon-16x16.png" = None ∧
  ¬ small_raster_always_copied.
Proof.
  split; [by vm_compute|]. split; [by vm_compute|]. split; [by vm_compute|].
  split; [by vm_compute|].
  intros H. destruct (H linux_host blocked_favicon_tree) as [st Hin].
  { vm_compute. eauto. }
  revert Hin. destruct st; by_compute.
Qed.

(** C9, amended.  The favicon mapping is a dict display that names the 32px
    raster twice; the later value replaces the earlier one, so the mapping
    that is iterated is [32px -> favicon.png, 16px -> favicon-16x16.png], in
    this order.  Hence the only commands the assembler ever spawns are these
    two copies and the packer, no command names [favicon-32x32.png], and that
    path is left as it was.  Provided every copy exits with status zero, a
    32px raster that exists is copied to [favicon.png] and a 16px raster
    that exists is copied to [favicon-16x16.png]: the destination holds the
    bytes of the raster afterwards, where the destination is the file of
    that name, or, as [cp] has it, the file named like the raster inside it
    when that name is a directory.  A copy that does not exit with status
    zero raises, and the copies after it in the mapping are not made. *)
Theorem favicon_copy_mapping env fs :
  favicon_mappings = [(icon32, "favicon.png"); (icon16, "favicon-16x16.png")] ∧
  (∀ argv st, Spawn argv st ∈ events (create_favicon_files env fs) →
     ("favicon-32x32.png" ∉ argv) ∧
     (argv = cp32 ∨ argv = cp16 ∨ argv = favicon_ico_cmd)) ∧
  fs_after (create_favicon_files env fs) !! "favicon-32x32.png" =
    fs !! "favicon-32x32.png" ∧
  ((∀ args st, Spawn ("cp" :: args) st ∈ events (create_favicon_files env fs) →
               st = Succeeded) →
   (is_Some (fs !! icon32) →
    Spawn cp32 Succeeded ∈ events (create_favicon_files env fs) ∧
    ∃ c, fs !! icon32 = Some (File c) ∧
         fs_after (create_favicon_files env fs) !! copy_target fs icon32 "favicon.png" =
           Some (File c) ∧
         (fs !! "favicon.png" ≠ Some Dir →
          fs_after (create_favicon_files env fs) !! "favicon.png" = Some (File c))) ∧
   (is_Some (fs !! icon16) →
    Spawn cp16 Succeeded ∈ events (create_favicon_files env fs) ∧
    ∃ c, fs !! icon16 = Some (File c) ∧
         fs_after (create_favicon_files env fs)
           !! copy_target fs icon16 "favicon-16x16.png" = Some (File c) ∧
         (fs !! "favicon-16x16.png" ≠ Some Dir →
          fs_after (create_favicon_files env fs) !! "favicon-16x16.png" =
            Some (File c)))) ∧
  (∀ st, Spawn cp32 st ∈ events (create_favicon_files env fs) → st ≠ Succeeded →
     (∃ e, result (create_favicon_files env fs) = Raise e ∧ cp_failure e) ∧
     ∀ st', Spawn cp16 st' ∉ events (create_favicon_files env fs)) ∧
  (∀ st, Spawn cp16 st ∈ events (create_favicon_files env fs) → st ≠ Succeeded →
     ∃ e, result (create_favicon_files env fs) = Raise e ∧ cp_failure e).
Proof.
  split; [reflexivity|]. split; [|split; [|split; [|split]]].
  - intros argv st Hin.
    pose proof (emits_create_favicon_files
      (λ e, match e with
            | Spawn argv _ =>
                ("favicon-32x32.png" ∉ argv) ∧
                (argv = cp32 ∨ argv = cp16 ∨ argv = favicon_ico_cmd)
            | _ => True
            end) env) as Hemits.
    unfold emits in Hemits. setoid_rewrite Forall_forall in Hemits.
    apply (Hemits ltac:(intros; split; [by_compute|auto])
                  ltac:(intros; split; [by_compute|auto])
                  ltac:(intros; split; [by_compute|auto])
                  ltac:(by intros []) fs _ Hin).
  - apply keeps_create_favicon_files. by_compute.
  - intros Hall.
    destruct (create_favicon_files_cases env fs)
      as [(e & st & args & ev & fs' & Heq & Hst & Hin & Hev)
         |(ev & Heq & Hev & H32 & H16)].
    { rewrite Heq in Hall. by destruct Hst, (Hall args st). }
    set (fs1 := copied fs icon32 "favicon.png") in *.
    rewrite Heq. cbn [prepend events fs_after].
    split.
    + intros Hsome. destruct (H32 Hsome) as [Hin (c & Hc)].
      split; [apply elem_of_app; by left|]. exists c. split; [done|].
      assert (fs_after (favicon_pack env (copied fs1 icon16 "favicon-16x16.png"))
                !! copy_target fs icon32 "favicon.png" = Some (File c)) as Htarget.
      { rewrite keeps_favicon_pack
          by (destruct (copy_target_cases fs icon32 "favicon.png") as [->| ->];
              by_compute).
        rewrite copied_lookup_ne
          by (destruct (copy_target_cases fs icon32 "favicon.png") as [->| ->];
              by_compute).
        by apply copied_lookup_copy_target. }
      split; [done|].
      intros Hdst. by rewrite copy_target_not_a_directory in Htarget.
    + intros Hsome. destruct (H16 Hsome) as [Hin (c & Hc)].
      split; [apply elem_of_app; by left|]. exists c. split; [done|].
      assert (copy_target fs1 icon16 "favicon-16x16.png" =
              copy_target fs icon16 "favicon-16x16.png") as Hsame.
      { unfold copy_target, is_dir, fs1. by rewrite copied_lookup_ne. }
      assert (fs_after (favicon_pack env (copied fs1 icon16 "favicon-16x16.png"))
                !! copy_target fs icon16 "favicon-16x16.png" = Some (File c)) as Htarget.
      { rewrite keeps_favicon_pack
          by (destruct (copy_target_cases fs icon16 "favicon-16x16.png") as [->| ->];
              by_compute).
        rewrite <- Hsame. apply copied_lookup_copy_target.
        unfold fs1. by rewrite copied_lookup_ne. }
      split; [done|].
      intros Hdst. by rewrite copy_target_not_a_directory in Htarget.
  - intros st Hin Hst.
    destruct (stops_create_favicon_files env fs _ _ Hin Hst) as [Hraise _].
    split; [done|]. intros st'.
    rewrite (failed_first_copy_events env fs st Hin Hst).
    rewrite !elem_of_cons, elem_of_nil. by intros [[=]|[[=]|[]]].
  - intros st Hin Hst.
    by destruct (stops_create_favicon_files env fs _ _ Hin Hst).
Qed.

Lemma favicon_copy_mapping_witness :
  (∀ args st, Spawn ("cp" :: args) st ∈ events (create_favicon_files linux_host small_tree) →
              st = Succeeded) ∧
  is_Some (small_tree !! icon32) ∧
  Spawn cp32 Succeeded ∈ events (create_favicon_files linux_host small_tree) ∧
  fs_after (create_favicon_files linux_host small_tree) !! "favicon.png" =
    Some (File "png32") ∧
  is_Some (small_tree !! icon16) ∧
  Spawn cp16 Succeeded ∈ events (create_favicon_files linux_host small_tree) ∧
  fs_after (create_favicon_files linux_host small_tree) !! "favicon-16x16.png" =
    Some (File "png16") ∧
  Spawn cp32 Failed ∈ events (create_favicon_files linux_host blocked_favicon_tree) ∧
  Failed ≠ Succeeded ∧
  ∀ st, Spawn cp16 st ∉ events (create_favicon_files linux_host blocked_favicon_tree).
Proof.
  assert (∀ args st,
            Spawn ("cp" :: args) st ∈ events (create_favicon_files linux_host small_tree) →
            st = Succeeded) as Hok
    by (apply copies_succeed; all_events).
  assert (is_Some (small_tree !! icon32)) as H32 by (vm_compute; eauto).
  assert (is_Some (small_tree !! icon16)) as H16 by (vm_compute; eauto).
  assert (Spawn cp32 Failed ∈ events (create_favicon_files linux_host blocked_favicon_tree))
    as Hcp by by_compute.
  assert (Failed ≠ Succeeded) as Hst by discriminate.
  destruct (favicon_copy_mapping linux_host small_tree) as (_ & _ & _ & Hcopies & _).
  destruct (favicon_copy_mapping linux_host blocked_favicon_tree)
    as (_ & _ & _ & _ & Hfail & _).
  destruct (Hcopies Hok) as [Hc32 Hc16].
  destruct (Hc32 H32) as (Hs32 & c32 & Hsrc32 & _ & Hdst32).
  destruct (Hc16 H16) as (Hs16 & c16 & Hsrc16 & _ & Hdst16).
  split; [exact Hok|]. split; [exact H32|]. split; [exact Hs32|].
  split.
  { rewrite Hdst32 by (by vm_compute). vm_compute in Hsrc32. congruence. }
  split; [exact H16|]. split; [exact Hs16|].
  split.
  { rewrite Hdst16 by (by vm_compute). vm_compute in Hsrc16. congruence. }
  split; [exact Hcp|]. split; [exact Hst|].
  exact (proj2 (Hfail Failed Hcp Hst)).
Defined.

(** ** The assemblers and the config emitter *)

(** *** Commands that end a run *)

Lemma rib_ret {A} (a : A) : raises_iff_broken (mret a : M A).
Proof. intros fs. constructor. Qed.

Lemma rib_bind {A B} (m : M A) (k : A → M B) :
  raises_iff_broken m → (∀ a, raises_iff_broken (k a)) →
  raises_iff_broken (m ≫= k).
Proof.
  intros Hm Hk fs. rewrite bind_run. specialize (Hm fs).
  destruct (result (m fs)) as [a|e]; [|done].
  unfold prepend. cbn [result events]. specialize (Hk a (fs_after (m fs))).
  destruct (result (k a (fs_after (m fs)))).
  - by apply Forall_app.
  - apply Exists_app. by right.
Qed.

Lemma rib_for_ {A} (l : list A) (body : A → M unit) :
  (∀ x, x ∈ l → raises_iff_broken (body x)) → raises_iff_broken (for_ l body).
Proof.
  induction l as [|x l IH]; intros H; cbn; [apply rib_ret|].
  apply rib_bind; [apply H; left|intros _; apply IH].
  intros y Hy. apply H. by right.
Qed.

Lemma rib_print m t : raises_iff_broken (print m t).
Proof. intros fs. cbn. apply Forall_cons. split; [by intros []|constructor]. Qed.

Lemma rib_path_exists p : raises_iff_broken (path_exists p).
Proof. intros fs. constructor. Qed.

Lemma rib_cp env src dst : raises_iff_broken (subprocess_run env ["cp"; src; dst]).
Proof.
  intros fs. rewrite subprocess_run_eq.
  destruct (exec env ["cp"; src; dst] fs) as [[] fs']; cbn [fst snd result events].
  - apply Exists_cons_hd. right. split; [done|by eexists].
  - apply Forall_cons. split; [|constructor]. by intros [[[=] _]|[[] _]].
  - apply Exists_cons_hd. right. split; [done|by eexists].
Qed.

Lemma rib_icns_copies env : raises_iff_broken (icns_copies env).
Proof.
  apply rib_for_. intros [size filenames] _.
  apply rib_bind; [apply rib_path_exists|]. intros [|]; [|apply rib_ret].
  apply rib_for_. intros filename _. apply rib_cp.
Qed.

Ltac find_broken :=
  unfold iconutil_cmd, rm_cmd, favicon_ico_cmd;
  solve [ repeat first
            [ apply Exists_cons_hd; left; split; [reflexivity|intros ?; discriminate]
            | apply Exists_cons_tl ] ].

Ltac none_broken :=
  unfold iconutil_cmd, rm_cmd, favicon_ico_cmd;
  solve [ repeat (apply Forall_cons; split;
                    [first [ by intros []
                           | by intros [[[=] _]|[_ [? [=]]]]
                           | by intros [[[=] _]|[[] _]] ]|]);
          by apply Forall_nil ].

Lemma rib_icns_bundle env : raises_iff_broken (icns_bundle env).
Proof.
  intros fs. rewrite icns_bundle_run.
  destruct (exec env iconutil_cmd fs) as [[] fs']; cbn [result events];
    [find_broken| |none_broken].
  destruct (exec env rm_cmd fs') as [[] fs'']; cbn [result events];
    [find_broken|none_broken|none_broken].
Qed.

Lemma ico_cmd_not_probe inputs tool : ico_cmd inputs ≠ [tool; "--version"].
Proof.
  unfold ico_cmd. intros [= _ H]. destruct inputs as [|f [|g l]]; by inversion H.
Qed.

Lemma rib_create_ico_file env : raises_iff_broken (create_ico_file env).
Proof.
  intros fs. rewrite create_ico_file_run.
  case_bool_decide; [apply Forall_cons; split; [by intros []|constructor]|].
  assert (∀ st, st ≠ NotFound → ¬ broken (Spawn (ico_cmd (ico_inputs fs)) st)) as Hok.
  { by intros st Hst [[? _]|[_ [args [=]]]]. }
  destruct (exec env (ico_cmd (ico_inputs fs)) fs) as [[] fs']; cbn [result events].
  - apply Exists_cons_tl, Exists_cons_hd. left. split; [done|].
    intros tool. apply ico_cmd_not_probe.
  - repeat (apply Forall_cons; split; [|]); try constructor;
      first [by intros [] | by apply Hok].
  - repeat (apply Forall_cons; split; [|]); try constructor;
      first [by intros [] | by apply Hok].
Qed.

Lemma rib_favicon_pack env : raises_iff_broken (favicon_pack env).
Proof.
  intros fs. rewrite favicon_pack_run.
  destruct (exists_ fs icon16 && exists_ fs icon32); [|constructor].
  destruct (exec env favicon_ico_cmd fs) as [[] fs']; cbn [result events];
    [find_broken|none_broken|none_broken].
Qed.

Lemma rib_favicon_copy env source dest :
  raises_iff_broken (favicon_copy env source dest).
Proof.
  apply rib_bind; [apply rib_path_exists|]. intros [|]; [|apply rib_ret].
  apply rib_bind; [apply rib_cp|intros _; apply rib_print].
Qed.

Lemma rib_create_favicon_files env : raises_iff_broken (create_favicon_files env).
Proof.
  rewrite create_favicon_files_phases.
  apply rib_bind; [apply rib_print|intros _].
  apply rib_bind; [|intros _; apply rib_favicon_pack].
  apply rib_bind; [apply rib_favicon_copy|intros _].
  apply rib_bind; [apply rib_favicon_copy|intros _; apply rib_ret].
Qed.

(** The macOS assembler raises when a command of it is broken, or when a
    regular file has the name of its staging directory. *)
Lemma create_icns_file_broken env fs :
  fs !! "icons" = Some Dir →
  match result (create_icns_file env fs) with
  | Ret _ =>
      Forall (λ e, ¬ broken e) (events (create_icns_file env fs)) ∧
      (platform env = "darwin" → ∀ c, fs !! iconset_dir ≠ Some (File c))
  | Raise _ =>
      Exists broken (events (create_icns_file env fs)) ∨
      (platform env = "darwin" ∧ ∃ c, fs !! iconset_dir = Some (File c))
  end.
Proof.
  intros Hicons.
  destruct (decide (platform env = "darwin")) as [Hmac|Hmac].
  2:{ unfold create_icns_file. rewrite bool_decide_true by done. cbn.
      split; [apply Forall_cons; split; [by intros []|constructor]|done]. }
  rewrite (create_icns_file_on_mac _ Hmac).
  destruct (fs !! iconset_dir) as [[c|]|] eqn:Hdir.
  { erewrite bind_outcome by by eapply mkdir_blocked.
    cbn [result]. right. split; [done|by exists c]. }
  all: erewrite bind_outcome
         by (apply mkdir_ok; [by rewrite Hdir|];
             apply (parent_of_child _ "icons" "prestige-ai.iconset"); [done|];
             by apply bool_decide_eq_true).
  all: cbv iota; unfold prepend; cbn [result events].
  all: match goal with |- context [result (?m ?fs1)] =>
         pose proof (rib_bind (print WORK "Creating .icns file...")
                       (λ _, icns_copies env;; icns_bundle env)
                       (rib_print _ _)
                       (λ _, rib_bind _ _ (rib_icns_copies env)
                               (λ _, rib_icns_bundle env)) fs1) as Hrib;
         destruct (result (m fs1))
       end.
  all: first [ left; apply Exists_cons_tl; exact Hrib
             | split; [apply Forall_cons; split; [by intros []|exact Hrib]
                      |intros _ c; by rewrite ?Hdir] ].
Qed.

(** *** The first line of the config emitter *)

Lemma before_config_check_dependencies env :
  emits (λ e, e ≠ config_line) (check_dependencies env).
Proof.
  intros fs. destruct (check_dependencies_run env fs) as (ev & Heq & _).
  revert Heq. probe_cases env; intros _; cbn [events];
    repeat (apply Forall_cons; split; [by intros [=]|]); by apply Forall_nil.
Qed.

Lemma before_config_create_directories :
  emits (λ e, e ≠ config_line) create_directories.
Proof. apply emits_for_. intros d _. by apply emits_mkdir. Qed.

Lemma before_config_generate env l :
  emits (λ e, e ≠ config_line) (generate_png_sizes_for env l).
Proof.
  apply emits_bind; [apply emits_path_exists|]. intros found.
  destruct (negb found).
  { apply emits_bind; [by apply emits_print|intros; apply emits_ret]. }
  apply emits_bind; [by apply emits_print|intros _].
  apply emits_bind; [|by intros [|]; apply emits_ret].
  apply emits_for_ret. intros size Hsize. apply emits_try_except.
  - apply emits_bind; [by apply emits_subprocess_run|intros _].
    apply emits_bind; [by apply emits_print|intros; apply emits_ret].
  - intros [] k [=]; subst.
    apply emits_bind; [by apply emits_print_exn|intros; apply emits_ret].
Qed.

Lemma before_config_create_icns_file env :
  emits (λ e, e ≠ config_line) (create_icns_file env).
Proof.
  unfold create_icns_file. case_bool_decide.
  { apply emits_bind; [by apply emits_print|intros; apply emits_ret]. }
  apply emits_bind; [by apply emits_mkdir|intros _].
  apply emits_bind; [by apply emits_print|intros _].
  apply emits_bind.
  - apply emits_for_. intros [size filenames] _.
    apply emits_bind; [apply emits_path_exists|]. intros [|]; [|apply emits_ret].
    apply emits_for_. intros filename _. by apply emits_subprocess_run.
  - intros _. apply emits_try_except.
    + apply emits_bind; [by apply emits_subprocess_run|intros _].
      apply emits_bind; [by apply emits_print|intros _].
      apply emits_bind; [by apply emits_subprocess_run|intros; apply emits_ret].
    + intros [] k [=]; subst.
      apply emits_bind; [by apply emits_print_exn|intros; apply emits_ret].
Qed.

Lemma before_config_create_ico_file env :
  emits (λ e, e ≠ config_line) (create_ico_file env).
Proof.
  intros fs. rewrite create_ico_file_run.
  case_bool_decide; [apply Forall_cons; split; [by intros [=]|by apply Forall_nil]|].
  destruct (exec env (ico_cmd (ico_inputs fs)) fs) as [[] fs'];
    cbn [events]; repeat (apply Forall_cons; split; [by intros [=]|]);
    by apply Forall_nil.
Qed.

Lemma before_config_create_favicon_files env :
  emits (λ e, e ≠ config_line) (create_favicon_files env).
Proof.
  rewrite create_favicon_files_phases.
  apply emits_bind; [by apply emits_print|intros _].
  apply emits_bind.
  - apply emits_bind; [by apply emits_favicon_copy|intros _].
    apply emits_bind; [by apply emits_favicon_copy|intros _; apply emits_ret].
  - intros _ fs. rewrite favicon_pack_run.
    destruct (exists_ fs icon16 && exists_ fs icon32); [|constructor].
    destruct (exec env favicon_ico_cmd fs) as [[] fs'];
      cbn [events]; repeat (apply Forall_cons; split; [by intros [=]|]);
      by apply Forall_nil.
Qed.

(** The config emitter and the summary spawn nothing, and the first line
    of a run of them is the emitter's. *)
Lemma config_and_summary fs :
  config_started (events ((update_electron_config;; print_summary) fs)) ∧
  Forall (λ e, ¬ broken e) (events ((update_electron_config;; print_summary) fs)).
Proof.
  split.
  - apply events_bind_first, update_electron_config_starts.
  - rewrite bind_run, update_electron_config_run.
    destruct (is_dir fs "electron-build-config.txt"); cbn; none_broken.
Qed.

Lemma broken_not_all ev :
  Exists broken ev → ¬ Forall (λ e, ¬ broken e) ev.
Proof.
  intros (e & Hin & He)%Exists_exists Hall. rewrite Forall_forall in Hall.
  by apply (Hall e).
Qed.

(** Sequencing a stage [m] before the rest [k] of the run: the emitter's
    line is printed exactly when [m] returns and the rest prints it. *)
Lemma config_after {A B} (m : M A) (k : A → M B) fs (staging : Prop) :
  config_line ∉ events (m fs) →
  match result (m fs) with
  | Ret _ => Forall (λ e, ¬ broken e) (events (m fs)) ∧ staging
  | Raise _ => Exists broken (events (m fs)) ∨ ¬ staging
  end →
  (∀ a, result (m fs) = Ret a →
        (config_line ∈ events (k a (fs_after (m fs))) ↔
         Forall (λ e, ¬ broken e) (events (k a (fs_after (m fs)))))) →
  (config_line ∈ events ((m ≫= k) fs) ↔
   Forall (λ e, ¬ broken e) (events ((m ≫= k) fs)) ∧ staging).
Proof.
  intros Hno Hm Hk. rewrite bind_run.
  destruct (result (m fs)) as [a|e].
  - specialize (Hk a eq_refl). destruct Hm as [Hall Hstaging].
    unfold prepend. cbn [events]. rewrite elem_of_app, Forall_app. tauto.
  - cbn [events]. split; [done|]. intros [Hall Hstaging].
    destruct Hm as [Hex|Hstaging']; [|done]. by apply broken_not_all in Hex.
Qed.

Lemma config_needs {A B} (m : M A) (k : A → M B) fs :
  config_line ∉ events (m fs) →
  config_line ∈ events ((m ≫= k) fs) →
  ∃ a, config_line ∈ events (k a (fs_after (m fs))) ∧
       events ((m ≫= k) fs) = events (m fs) ++ events (k a (fs_after (m fs))).
Proof.
  intros Hno. rewrite bind_run. destruct (result (m fs)) as [a|e]; [|done].
  unfold prepend. cbn [events]. rewrite elem_of_app. intros [Hin|Hin]; [done|].
  by exists a.
Qed.

(** The stages after the raster generator, in a directory where [icons]
    is in place. *)
Lemma main_tail_config env fs :
  fs !! "icons" = Some Dir →
  icns_started (events (main_tail env fs)) ∧
  (config_started (events (main_tail env fs)) ↔
   Forall (λ e, ¬ broken e) (events (main_tail env fs)) ∧
   (platform env = "darwin" → ∀ c, fs !! iconset_dir ≠ Some (File c))) ∧
  (config_started (events (main_tail env fs)) →
   ico_started (events (main_tail env fs)) ∧
   favicon_started (events (main_tail env fs))).
Proof.
  intros Hicons. unfold config_started, main_tail.
  pose proof (not_in_by_emits _ _ (before_config_create_icns_file env fs)) as Hno1.
  assert (∀ fs', config_line ∉ events (create_ico_file env fs')) as Hno2
    by (intros fs'; apply not_in_by_emits, before_config_create_ico_file).
  assert (∀ fs', config_line ∉ events (create_favicon_files env fs')) as Hno3
    by (intros fs'; apply not_in_by_emits, before_config_create_favicon_files).
  split; [|split].
  - unfold icns_started.
    destruct (create_icns_file_starts env fs) as [H|H]; [left|right];
      by apply events_bind_first.
  - apply config_after; [done| |].
    { pose proof (create_icns_file_broken env fs Hicons) as H.
      destruct (result (create_icns_file env fs)); [done|].
      destruct H as [H|(Hmac & c & Hc)]; [by left|right].
      intros Hst. by apply (Hst Hmac c). }
    intros b1 _.
    assert (∀ (m : M unit) fs',
              (config_line ∈ events (m fs') ↔
               Forall (λ e, ¬ broken e) (events (m fs')) ∧ True) →
              (config_line ∈ events (m fs') ↔
               Forall (λ e, ¬ broken e) (events (m fs')))) as Htrue
      by (intros m fs' H; tauto).
    apply Htrue, config_after; [done| |].
    { pose proof (rib_create_ico_file env (fs_after (create_icns_file env fs))) as H.
      destruct (result (create_ico_file env _)); [done|]. by left. }
    intros b2 _.
    apply Htrue, config_after; [done| |].
    { match goal with |- context [create_favicon_files env ?f] =>
        pose proof (rib_create_favicon_files env f) as H;
        destruct (result (create_favicon_files env f)); [done|by left]
      end. }
    intros [] _. match goal with |- context [print_summary] => idtac end.
    match goal with |- _ ∈ events (?m ?f) ↔ _ =>
      destruct (config_and_summary f) as [H1 H2]
    end.
    done.
  - intros Hin.
    apply config_needs in Hin as (b1 & Hin & ->); [|done].
    apply config_needs in Hin as (b2 & Hin & ->); [|done].
    apply config_needs in Hin as ([] & Hin & ->); [|done].
    unfold ico_started, favicon_started. rewrite !elem_of_app. split.
    + destruct (create_ico_file_starts env (fs_after (create_icns_file env fs)))
        as [H|H]; [left|right]; right; by left.
    + right. right. left. apply create_favicon_files_starts.
Qed.

(** *** Runs in which every raster was generated *)

Lemma not_broken_iff ev :
  Forall (λ e, ¬ broken e) ev ↔
  (∀ args st, Spawn ("cp" :: args) st ∈ ev → st = Succeeded) ∧
  (∀ argv, Spawn argv NotFound ∈ ev → ∃ tool, argv = [tool; "--version"]).
Proof.
  rewrite Forall_forall. split.
  - intros Hall. split.
    + intros args st Hin. specialize (Hall _ Hin). cbn in Hall.
      destruct st; [|done|]; exfalso; apply Hall; right; (split; [done|by eexists]).
    + intros argv Hin. specialize (Hall _ Hin). cbn in Hall.
      destruct argv as [|tool [|v [|w argv]]];
        try (exfalso; apply Hall; left; split; [done|by intros ?]).
      destruct (decide (v = "--version")) as [->|Hv]; [by exists tool|].
      exfalso. apply Hall. left. split; [done|]. by intros ? [= _ ?].
  - intros [Hcp Hfound] e Hin. destruct e as [| |argv st| |]; try by intros [].
    intros [[-> Hprobe]|[Hst [args ->]]].
    + destruct (Hfound _ Hin) as [tool ->]. by apply (Hprobe tool).
    + by apply Hst, (Hcp args).
Qed.

Lemma sizes_NoDup : NoDup sizes.
Proof. by_compute. Qed.

(** The raster generator returns [True] when every size was generated. *)
Lemma all_generated_returns env fs :
  (∀ size, size ∈ sizes → generated (generate_png_sizes env fs) size) →
  result (generate_png_sizes env fs) = Ret true.
Proof.
  unfold generated, generate_png_sizes. intros Hall.
  destruct (fs !! svg_file) as [n|] eqn:Hsvg.
  2:{ exfalso. specialize (Hall 16 ltac:(by_compute)). revert Hall.
      rewrite generate_png_sizes_for_no_svg by done. cbn.
      by intros [=]%list_elem_of_singleton. }
  destruct (generate_png_sizes_for_cases env sizes fs) as
    (pre & post & Hsplit & _ & Hcases); [by rewrite Hsvg|].
  destruct Hcases as [(_ & Hr & _)|[(s & post' & -> & _ & He)|(s & post' & -> & _ & He)]];
    [done|exfalso..].
  all: pose proof sizes_NoDup as Hnd; rewrite Hsplit in Hnd.
  all: apply NoDup_app in Hnd as (_ & Hdisj & _).
  all: assert (s ∈ sizes) as Hs by (rewrite Hsplit; apply elem_of_app; right; left).
  all: specialize (Hall s Hs).
  all: rewrite He in Hall.
  all: apply elem_of_cons in Hall as [[=]|Hall].
  all: apply elem_of_app in Hall as [Hall|Hall].
  all: try (apply elem_of_raster_ok_events in Hall as (s' & Hs' & [Heq|[=]]);
            assert (s = s') as <- by (apply (inj raster_cmd); congruence);
            apply (Hdisj s Hs'); left).
  - revert Hall. unfold raster_failed_events.
    rewrite !elem_of_cons, elem_of_nil. by intros [[=]|[[=]|[]]].
  - by apply list_elem_of_singleton in Hall.
Qed.

(** A run of [main] in which every raster was generated went through the
    first three stages. *)
Lemma all_generated_inv env fs :
  (∀ size, size ∈ sizes → generated (main env fs) size) →
  result (check_dependencies env fs) = Ret true ∧
  result (create_directories fs) = Ret tt ∧
  result (generate_png_sizes env (fs_after (create_directories fs))) = Ret true.
Proof.
  intros Hall.
  assert (∀ size, Spawn (raster_cmd size) Succeeded ∉ banner) as Hb
    by (intros size; apply aside_not_generated, banner_aside).
  assert (∀ size, Spawn (raster_cmd size) Succeeded ∉ events (check_dependencies env fs))
    as Hc by (intros size; apply aside_not_generated, emits_aside_check_dependencies).
  assert (∀ size, Spawn (raster_cmd size) Succeeded ∉ events (create_directories fs))
    as Hd by (intros size; apply aside_not_generated, emits_aside_create_directories).
  assert (16 ∈ sizes) as H16 by by_compute.
  unfold generated in Hall. revert Hall. rewrite main_run.
  destruct (result (check_dependencies env fs)) as [[|]|e0].
  - destruct (result (create_directories fs)) as [[]|e0].
    + cbv zeta. intros Hall. split; [done|]. split; [done|].
      apply all_generated_returns. intros size Hsize.
      specialize (Hall size Hsize). revert Hall. unfold generated.
      destruct (result (generate_png_sizes env (fs_after (create_directories fs))))
        as [[|]|e1]; unfold prepend; cbn [events]; rewrite !elem_of_app.
      * intros [[H|[H|[H|H]]]|H]; [by destruct (Hb size)|by destruct (Hc size)
                                  |by destruct (Hd size)|done|].
        by destruct (emits_aside_main_tail_steps env _ _ H size Succeeded).
      * intros [[H|[H|[H|H]]]|H]; [by destruct (Hb size)|by destruct (Hc size)
                                  |by destruct (Hd size)|done|].
        by apply list_elem_of_singleton in H.
      * intros [H|[H|[H|H]]]; [by destruct (Hb size)|by destruct (Hc size)
                              |by destruct (Hd size)|done].
    + intros Hall. specialize (Hall 16 H16). revert Hall. cbn [events].
      rewrite !elem_of_app.
      intros [H|[H|H]]; [by destruct (Hb 16)|by destruct (Hc 16)|by destruct (Hd 16)].
  - intros Hall. specialize (Hall 16 H16). revert Hall. cbn [events].
    rewrite !elem_of_app.
    intros [H|[H|H]]; [by destruct (Hb 16)|by destruct (Hc 16)|].
    exfalso. revert H. by_compute.
  - intros Hall. specialize (Hall 16 H16). revert Hall. cbn [events].
    rewrite !elem_of_app.
    intros [H|H]; [by destruct (Hb 16)|by destruct (Hc 16)].
Qed.

Lemma generated_true_not_broken env fs :
  result (generate_png_sizes env fs) = Ret true →
  Forall (λ e, ¬ broken e) (events (generate_png_sizes env fs)).
Proof.
  unfold generate_png_sizes. intros Hr.
  destruct (fs !! svg_file) as [n|] eqn:Hsvg.
  2:{ by rewrite generate_png_sizes_for_no_svg in Hr by done. }
  destruct (generate_png_sizes_for_cases env sizes fs) as
    (pre & post & _ & _ & Hcases); [by rewrite Hsvg|].
  destruct Hcases as [(_ & _ & ->)|[(s & post' & _ & Hr' & _)|(s & post' & _ & Hr' & _)]];
    [|congruence..].
  apply Forall_cons. split; [by intros []|].
  apply Forall_forall. intros e (s & _ & [->| ->])%elem_of_raster_ok_events.
  - by intros [[[=] _]|[[] _]].
  - by intros [].
Qed.

Lemma probes_not_broken env fs :
  Forall (λ e, ¬ broken e) (events (check_dependencies env fs)).
Proof.
  destruct (check_dependencies_run env fs) as (ev & -> & Hev). cbn [events].
  apply Forall_cons. split.
  { intros [[_ H]|[_ [args [=]]]]. by apply (H "magick"). }
  eapply Forall_impl; [exact Hev|]. intros e [H| ->].
  - destruct e; first [by destruct H | by intros []].
  - intros [[_ H]|[_ [args [=]]]]. by apply (H "iconutil").
Qed.

Lemma mkdirs_not_broken fs :
  Forall (λ e, ¬ broken e) (events (create_directories fs)).
Proof.
  apply (emits_for_ _ ["icons"; "icons/png"; "build"]). intros d _.
  apply emits_mkdir. by intros [].
Qed.

(** C7, on the failing input.  On a macOS host whose bundler rejects the
    iconset, in a directory that holds the source image and a directory
    [favicon.png] with a directory [icon-32x32.png] inside, every raster is
    generated and the macOS assembler reports its failure and returns
    [False]; the Windows assembler and the favicon assembler are both
    entered after that.  But the first favicon copy exits with a non-zero
    status and its exception leaves [main]: the config emitter does not
    run. *)
Lemma failed_copy_stops_before_config :
  (∀ size, size ∈ sizes → generated (main mac_host_bad_iconutil blocked_favicon_source) size) ∧
  PrintExn FAIL "Failed to create .icns file" (CalledProcessError iconutil_cmd)
    ∈ events (main mac_host_bad_iconutil blocked_favicon_source) ∧
  ico_started (events (main mac_host_bad_iconutil blocked_favicon_source)) ∧
  favicon_started (events (main mac_host_bad_iconutil blocked_favicon_source)) ∧
  last (events (main mac_host_bad_iconutil blocked_favicon_source)) =
    Some (Spawn ["cp"; "icons/png/icon-32x32.png"; "favicon.png"] Failed) ∧
  result (main mac_host_bad_iconutil blocked_favicon_source) =
    Raise (CalledProcessError ["cp"; "icons/png/icon-32x32.png"; "favicon.png"]) ∧
  ¬ config_started (events (main mac_host_bad_iconutil blocked_favicon_source)) ∧
  fs_after (main mac_host_bad_iconutil blocked_favicon_source)
    !! "electron-build-config.txt" = None ∧
  ¬ emitter_runs_despite_failures.
Proof.
  assert (∀ size, size ∈ sizes →
            generated (main mac_host_bad_iconutil blocked_favicon_source) size) as Hgen.
  { intros size Hsize. unfold generated.
    revert size Hsize. apply Forall_forall. by_compute. }
  assert (PrintExn FAIL "Failed to create .icns file" (CalledProcessError iconutil_cmd)
            ∈ events (main mac_host_bad_iconutil blocked_favicon_source)) as Hsignal
    by by_compute.
  assert (¬ config_started (events (main mac_host_bad_iconutil blocked_favicon_source)))
    as Hno by (unfold config_started; by_compute).
  split; [done|]. split; [done|].
  split; [right; by_compute|]. split; [unfold favicon_started; by_compute|].
  split; [by vm_compute|]. split; [by vm_compute|]. split; [done|].
  split; [by vm_compute|].
  intros H. apply Hno, H; [done|].
  eexists. split; [exact Hsignal|]. left. by eexists.
Qed.

(** C7, amended.  In a run in which every raster was generated, [main]
    enters the macOS bundle assembler, and it never looks at what an
    assembler returns: a failure that an assembler reports (the bundler or
    a packer exits with a non-zero status, no raster is found) stops
    nothing.  What stops the run is an exception that leaves an assembler.
    The config emitter runs if and only if none does, that is: every copy
    of the run exits with status zero, every command of the run other than
    the version probes could be started, and, on macOS, no regular file has
    the name of the staging directory.  Whenever the config emitter runs,
    the Windows bundle assembler and the favicon assembler have run before
    it. *)
Theorem assemblers_isolated env fs :
  (∀ size, size ∈ sizes → generated (main env fs) size) →
  icns_started (events (main env fs)) ∧
  (config_started (events (main env fs)) ↔
   (∀ args st, Spawn ("cp" :: args) st ∈ events (main env fs) → st = Succeeded) ∧
   (∀ argv, Spawn argv NotFound ∈ events (main env fs) →
            ∃ tool, argv = [tool; "--version"]) ∧
   (platform env = "darwin" → ∀ c, fs !! iconset_dir ≠ Some (File c))) ∧
  (config_started (events (main env fs)) →
   ico_started (events (main env fs)) ∧ favicon_started (events (main env fs))).
Proof.
  intros Hgen. destruct (all_generated_inv env fs Hgen) as (Hc & Hd & Hg).
  set (fs_d := fs_after (create_directories fs)) in *.
  set (fs_g := fs_after (generate_png_sizes env fs_d)).
  assert (fs_g !! "icons" = Some Dir) as Hicons.
  { unfold fs_g, generate_png_sizes.
    rewrite keeps_generate_png_sizes_for by by_compute.
    apply (for_mkdir_returns _ fs Hd). left. }
  assert (fs_g !! iconset_dir = fs !! iconset_dir) as Hstaging.
  { unfold fs_g, generate_png_sizes.
    rewrite keeps_generate_png_sizes_for by by_compute.
    apply keeps_create_directories. by_compute. }
  destruct (main_tail_config env fs_g Hicons) as (Hstart & Hiff & Hrun).
  set (pre := banner ++ events (check_dependencies env fs) ++
              events (create_directories fs) ++ events (generate_png_sizes env fs_d)).
  assert (events (main env fs) = pre ++ events (main_tail env fs_g)) as ->.
  { rewrite main_run, Hc, Hd. cbv zeta. fold fs_d. by rewrite Hg. }
  assert (config_line ∉ pre) as Hno.
  { unfold pre. rewrite !elem_of_app. intros [H|[H|[H|H]]].
    - revert H. by_compute.
    - by apply (not_in_by_emits _ _ (before_config_check_dependencies env fs)).
    - by apply (not_in_by_emits _ _ (before_config_create_directories fs)).
    - by apply (not_in_by_emits _ _ (before_config_generate env sizes fs_d)). }
  assert (Forall (λ e, ¬ broken e) pre) as Hpre.
  { unfold pre. rewrite !Forall_app. split; [|split; [|split]].
    - apply Forall_cons. split; [by intros []|].
      apply Forall_cons. split; [by intros []|by apply Forall_nil].
    - apply probes_not_broken.
    - apply mkdirs_not_broken.
    - by apply generated_true_not_broken. }
  pose proof (not_broken_iff (pre ++ events (main_tail env fs_g))) as Hnb.
  unfold icns_started, ico_started, favicon_started, config_started in *.
  rewrite !elem_of_app. split; [|split].
  - destruct Hstart as [H|H]; [left|right]; by right.
  - split.
    + intros [H|H]; [done|]. apply Hiff in H as [H1 H2].
      assert (Forall (λ e, ¬ broken e) (pre ++ events (main_tail env fs_g))) as Hall
        by by apply Forall_app.
      apply Hnb in Hall as [Hcp Hfound].
      split; [done|]. split; [done|]. by rewrite <- Hstaging.
    + intros (Hcp & Hfound & Hfree).
      assert (Forall (λ e, ¬ broken e) (pre ++ events (main_tail env fs_g))) as Hall
        by by apply Hnb.
      apply Forall_app in Hall as [_ Hall].
      right. apply Hiff. split; [done|]. by rewrite Hstaging.
  - intros [H|H]; [done|]. destruct (Hrun H) as [[H1|H1] H2]; (split; [|by right]).
    + left. by right.
    + right. by right.
Qed.

Ltac all_not_broken :=
  vm_compute;
  repeat (apply Forall_cons; split;
            [first [ by intros []
                   | intros [[H1 H2]|[H1 [args H2]]];
                     first [discriminate H1 | by eapply H2 | discriminate H2 | by apply H1] ]|]);
  by apply Forall_nil.

Lemma assemblers_isolated_witness :
  (∀ size, size ∈ sizes → generated (main linux_host_bad_packer with_svg) size) ∧
  (∃ e, e ∈ events (main linux_host_bad_packer with_svg) ∧ failure_signal e) ∧
  (∀ args st, Spawn ("cp" :: args) st ∈ events (main linux_host_bad_packer with_svg) →
              st = Succeeded) ∧
  (∀ argv, Spawn argv NotFound ∈ events (main linux_host_bad_packer with_svg) →
           ∃ tool, argv = [tool; "--version"]) ∧
  icns_started (events (main linux_host_bad_packer with_svg)) ∧
  ico_started (events (main linux_host_bad_packer with_svg)) ∧
  favicon_started (events (main linux_host_bad_packer with_svg)) ∧
  config_started (events (main linux_host_bad_packer with_svg)) ∧
  (∀ size, size ∈ sizes →
     generated (main mac_host_bad_iconutil blocked_favicon_source) size) ∧
  Spawn cp32 Failed ∈ events (main mac_host_bad_iconutil blocked_favicon_source) ∧
  ¬ config_started (events (main mac_host_bad_iconutil blocked_favicon_source)).
Proof.
  assert (∀ size, size ∈ sizes → generated (main linux_host_bad_packer with_svg) size)
    as Hgen.
  { intros size Hsize. unfold generated. revert size Hsize.
    apply Forall_forall. by_compute. }
  assert (∃ e, e ∈ events (main linux_host_bad_packer with_svg) ∧ failure_signal e)
    as Hsignal.
  { exists (PrintExn FAIL "Failed to create .ico file"
              (CalledProcessError (ico_cmd (png_path <$> ico_sizes)))).
    split; [by_compute|]. right. right. left. by eexists. }
  assert (Forall (λ e, ¬ broken e) (events (main linux_host_bad_packer with_svg)))
    as Hclean by all_not_broken.
  apply not_broken_iff in Hclean as [Hcp Hfound].
  assert (platform linux_host_bad_packer = "darwin" →
          ∀ c, with_svg !! iconset_dir ≠ Some (File c)) as Hfree by (by intros [=]).
  assert (∀ size, size ∈ sizes →
            generated (main mac_host_bad_iconutil blocked_favicon_source) size) as Hgen'.
  { intros size Hsize. unfold generated. revert size Hsize.
    apply Forall_forall. by_compute. }
  assert (Spawn cp32 Failed ∈ events (main mac_host_bad_iconutil blocked_favicon_source))
    as Hfailed by by_compute.
  destruct (assemblers_isolated linux_host_bad_packer with_svg Hgen)
    as (Hicns & Hiff & Hrun).
  destruct (assemblers_isolated mac_host_bad_iconutil blocked_favicon_source Hgen')
    as (_ & Hiff' & _).
  pose proof (proj2 Hiff (conj Hcp (conj Hfound Hfree))) as Hconfig.
  split; [exact Hgen|]. split; [exact Hsignal|]. split; [exact Hcp|].
  split; [exact Hfound|]. split; [exact Hicns|].
  split; [exact (proj1 (Hrun Hconfig))|]. split; [exact (proj2 (Hrun Hconfig))|].
  split; [exact Hconfig|]. split; [exact Hgen'|]. split; [exact Hfailed|].
  intros [Hcp' _]%Hiff'. by specialize (Hcp' _ _ Hfailed).
Defined.
